(** * A shallow embedding of the relational engine of [transaction_database.py]

    The development follows the Python source class by class: values and
    dictionaries first, then [Column], [Table] and [Database], each in a
    module of its own, and finally the properties of the engine. *)

From Stdlib Require Import ZArith QArith Qcanon String Ascii List Lia.
From stdpp Require Import base option list gmap strings.

Local Open Scope string_scope.

(** ** Values *)

(** The values a row can hold.  A Python [float] is the exact rational
    number it denotes, one of the two infinities, or a [nan].  A [nan] is not
    [==] to anything, itself included, but a [dict] and a [set] test identity
    before [==] and so find the very [nan] object they hold; the model
    therefore records which object a [nan] is ([float('nan')] makes a new one
    at each call).  [bool] is kept apart from [int] because [isinstance] tells
    them apart in one direction only. *)
Inductive value : Type :=
  | VNone
  | VBool (b : bool)
  | VInt (z : Z)
  | VFloat (q : Qc)
  | VInf (negative : bool)
  | VNan (object : nat)
  | VStr (s : string).

#[global] Instance value_eq_dec : EqDecision value.
Proof. solve_decision. Defined.

(** The class of a value as a key of a [dict] or a member of a [set]:
    [True], [1] and [1.0] are one key, and so are [False], [0] and [0.0]; a
    [nan] object is a key of its own, which no other object finds. *)
Inductive pykey : Type :=
  | KNone
  | KNum (q : Qc)
  | KInf (negative : bool)
  | KNan (object : nat)
  | KStr (s : string).

#[global] Instance pykey_eq_dec : EqDecision pykey.
Proof. solve_decision. Defined.

Definition pykey_code (k : pykey) : unit + Qc + bool + nat + string :=
  match k with
  | KNone => inl (inl (inl (inl tt)))
  | KNum q => inl (inl (inl (inr q)))
  | KInf negative => inl (inl (inr negative))
  | KNan object => inl (inr object)
  | KStr s => inr s
  end.

Definition pykey_uncode (c : unit + Qc + bool + nat + string) : pykey :=
  match c with
  | inl (inl (inl (inl _))) => KNone
  | inl (inl (inl (inr q))) => KNum q
  | inl (inl (inr negative)) => KInf negative
  | inl (inr object) => KNan object
  | inr s => KStr s
  end.

#[global] Instance pykey_countable : Countable pykey.
Proof.
  apply (inj_countable' pykey_code pykey_uncode).
  intros k; destruct k; reflexivity.
Defined.

(** The finite number a value denotes *)
Definition num_of (v : value) : option Qc :=
  match v with
  | VBool b => Some (Q2Qc (inject_Z (if b then 1 else 0)))
  | VInt z => Some (Q2Qc (inject_Z z))
  | VFloat q => Some q
  | VNone | VInf _ | VNan _ | VStr _ => None
  end.

Definition key_of (v : value) : pykey :=
  match v with
  | VNone => KNone
  | VStr s => KStr s
  | VBool b => KNum (Q2Qc (inject_Z (if b then 1 else 0)))
  | VInt z => KNum (Q2Qc (inject_Z z))
  | VFloat q => KNum q
  | VInf negative => KInf negative
  | VNan object => KNan object
  end.

(** Python's [a == b] on these values: a [nan] is equal to nothing. *)
Definition py_eq (a b : value) : bool :=
  match a, b with
  | VNone, VNone => true
  | VStr s, VStr s' => bool_decide (s = s')
  | VInf negative, VInf negative' => bool_decide (negative = negative')
  | _, _ =>
      match num_of a, num_of b with
      | Some x, Some y => bool_decide (x = y)
      | _, _ => false
      end
  end.

(** [value is None] *)
Definition is_none (v : value) : bool :=
  match v with VNone => true | _ => false end.

(** [value != value], which holds of a [nan] and of nothing else *)
Definition is_nan (v : value) : bool :=
  match v with VNan _ => true | _ => false end.

(** ** Dictionaries with string keys

    A Python [dict] keeps its keys in insertion order, and the join iterates
    over the keys of a row, so a dictionary is a list of pairs without
    repeated keys. *)
Definition pydict : Type := list (string * value).

(** [d[k]], [None] standing for [KeyError] *)
Fixpoint dict_get (k : string) (d : pydict) : option value :=
  match d with
  | [] => None
  | (k', v) :: d' => if bool_decide (k' = k) then Some v else dict_get k d'
  end.

(** [k in d] *)
Definition dict_has (k : string) (d : pydict) : bool :=
  match dict_get k d with Some _ => true | None => false end.

(** [d[k] = v]: an existing key keeps its place, a new one goes last. *)
Fixpoint dict_set (k : string) (v : value) (d : pydict) : pydict :=
  match d with
  | [] => [(k, v)]
  | (k', v') :: d' =>
      if bool_decide (k' = k) then (k', v) :: d' else (k', v') :: dict_set k v d'
  end.

(** [d.update(u)] *)
Definition dict_update (d u : pydict) : pydict :=
  fold_left (fun acc kv => dict_set kv.1 kv.2 acc) u d.

(** The dictionary display [{k1: v1, ...}], later keys overriding earlier
    ones. *)
Definition dict_of (l : list (string * value)) : pydict := dict_update [] l.

(** [list(d)], the keys in order *)
Definition dict_keys (d : pydict) : list string := map fst d.


(** ** Errors and the two monads of the engine *)

Inductive DataType : Type := INT | TEXT | FLOAT | BOOL.

#[global] Instance DataType_eq_dec : EqDecision DataType.
Proof. solve_decision. Defined.

(** The [ValueError]s the engine raises, one constructor per message. *)
Inductive message : Type :=
  | CannotBeNull (col : string)
  | Expects (col : string) (ty : DataType)
  | PrimaryKeyViolation (v : value)
  | UniqueViolation (col : string)
  | NoPrimaryKey
  | ColumnDoesNotExist (col tbl : string)
  | TableAlreadyExists (tbl : string)
  | TableDoesNotExist (tbl : string)
  | ColumnNotFoundInJoin (col : string).

Inductive error : Type :=
  | ValueError (m : message)
  | KeyError
  | IndexError.

Inductive outcome (A : Type) : Type :=
  | Returns (a : A)
  | Raises (e : error).
Arguments Returns {A} a.
Arguments Raises {A} e.

#[global] Instance outcome_ret : MRet outcome := fun A a => Returns a.
#[global] Instance outcome_bind : MBind outcome := fun A B f c =>
  match c with
  | Returns a => f a
  | Raises e => Raises e
  end.

(** [d[k]] where a missing key raises *)
Definition getitem (d : pydict) (k : string) : outcome value :=
  match dict_get k d with
  | Some v => Returns v
  | None => Raises KeyError
  end.

(** A [for] loop whose body may raise, with an accumulator for the variables
    the body assigns. *)
Fixpoint for_acc {A S : Type} (l : list A) (body : A -> S -> outcome S) (s : S)
  : outcome S :=
  match l with
  | [] => Returns s
  | a :: l' =>
      match body a s with
      | Returns s' => for_acc l' body s'
      | Raises e => Raises e
      end
  end.

(** A [for] loop that only checks. *)
Definition for_each {A : Type} (l : list A) (body : A -> outcome unit)
  : outcome unit :=
  for_acc l (fun a _ => body a) tt.

(** [if c: raise ValueError(m)] *)
Definition raise_if (c : bool) (m : message) : outcome unit :=
  if c then Raises (ValueError m) else Returns tt.

(** [isinstance(value, int)]: every [bool] is an [int] in Python. *)
Definition isinstance_int (v : value) : bool :=
  match v with VInt _ | VBool _ => true | _ => false end.

(** [isinstance(value, str)] *)
Definition isinstance_str (v : value) : bool :=
  match v with VStr _ => true | _ => false end.

(** [isinstance(value, float)] *)
Definition isinstance_float (v : value) : bool :=
  match v with VFloat _ | VInf _ | VNan _ => true | _ => false end.

(** [isinstance(value, bool)] *)
Definition isinstance_bool (v : value) : bool :=
  match v with VBool _ => true | _ => false end.

(** The [if]/[elif] chain of the type check: [true] when a branch raises. *)
Definition type_mismatch (ty : DataType) (v : value) : bool :=
  match ty with
  | INT => negb (isinstance_int v)
  | TEXT => negb (isinstance_str v)
  | FLOAT => negb (isinstance_int v || isinstance_float v)
  | BOOL => negb (isinstance_bool v)
  end.

(** The truth value of [self.primary_key]: [None] and the empty string are
    both false. *)
Definition truthy (o : option string) : option string :=
  match o with
  | Some s => if bool_decide (s = EmptyString) then None else Some s
  | None => None
  end.

(** [enumerate(l)] *)
Definition enumerate {A : Type} (l : list A) : list (nat * A) := imap pair l.

(** ** Columns *)

Module Column.
Record t : Type := mk {
  name : string;
  data_type : DataType;
  is_primary_key : bool;
  is_unique : bool;
  not_null : bool
}.
End Column.

(** ** Tables *)

Module Table.

Record t : Type := mk {
  name : string;
  columns : list Column.t;
  rows : list pydict;
  primary_key_index : gmap pykey nat;
  unique_indexes : gmap string (gset pykey)
}.

(** [Table(name, columns)] *)
Definition new (name : string) (columns : list Column.t) : t :=
  mk name columns [] ∅ ∅.

(** The attributes [__init__] computes from the columns and nothing
    reassigns. *)
Definition column_names (self : t) : list string :=
  map Column.name (columns self).

Definition primary_key (self : t) : option string :=
  Column.name <$> List.find Column.is_primary_key (columns self).

Definition unique_columns (self : t) : list string :=
  map Column.name
    (List.filter (fun col => Column.is_unique col || Column.is_primary_key col)
       (columns self)).

(** [self.unique_indexes[col_name]]: a [defaultdict(set)] answers a missing
    key with the empty set (and keeps that empty set; no method tells a kept
    empty set from a missing one, so the model does not record it). *)
Definition unique_index (self : t) (col_name : string) : gset pykey :=
  default ∅ (unique_indexes self !! col_name).

(** [col_name != self.primary_key] *)
Definition not_primary_key (self : t) (col_name : string) : bool :=
  bool_decide (Some col_name ≠ primary_key self).

Definition set_rows (rs : list pydict) (self : t) : t :=
  mk (name self) (columns self) rs (primary_key_index self) (unique_indexes self).

Definition set_primary_key_index (ix : gmap pykey nat) (self : t) : t :=
  mk (name self) (columns self) (rows self) ix (unique_indexes self).

Definition set_unique_index (col_name : string) (s : gset pykey) (self : t) : t :=
  mk (name self) (columns self) (rows self) (primary_key_index self)
     (<[col_name := s]> (unique_indexes self)).

(** *** The state and exception monad of the mutating methods

    A method that raises leaves the table as it was at the [raise], so the
    final table is part of the result in both cases. *)
Definition M (A : Type) : Type := t -> outcome A * t.

#[global] Instance M_ret : MRet M := fun A a self => (Returns a, self).
#[global] Instance M_bind : MBind M := fun A B f c self =>
  match c self with
  | (Returns a, self') => f a self'
  | (Raises e, self') => (Raises e, self')
  end.

Definition lift {A : Type} (c : outcome A) : M A := fun self => (c, self).
Definition get : M t := fun self => (Returns self, self).
Definition modify (f : t -> t) : M unit := fun self => (Returns tt, f self).
Definition skip : M unit := mret tt.

Fixpoint for_accM {A S : Type} (l : list A) (body : A -> S -> M S) (s : S)
  : M S :=
  match l with
  | [] => mret s
  | a :: l' => s' ← body a s; for_accM l' body s'
  end.

Definition for_M {A : Type} (l : list A) (body : A -> M unit) : M unit :=
  for_accM l (fun a _ => body a) tt.

(** [self.unique_indexes[col_name].add(k)] *)
Definition unique_add (col_name : string) (k : pykey) : M unit :=
  modify (fun self => set_unique_index col_name ({[k]} ∪ unique_index self col_name) self).

(** [self.unique_indexes[col_name].discard(k)] *)
Definition unique_discard (col_name : string) (k : pykey) : M unit :=
  modify (fun self => set_unique_index col_name (unique_index self col_name ∖ {[k]}) self).

(** [self.primary_key_index[k] = i] *)
Definition index_put (k : pykey) (i : nat) : M unit :=
  modify (fun self => set_primary_key_index (<[k := i]> (primary_key_index self)) self).

(** [del self.primary_key_index[k]] *)
Definition index_del (k : pykey) : M unit :=
  fun self =>
    match primary_key_index self !! k with
    | Some _ => (Returns tt, set_primary_key_index (delete k (primary_key_index self)) self)
    | None => (Raises KeyError, self)
    end.

(** [self.rows[i] = row] *)
Definition rows_put (i : nat) (row : pydict) : M unit :=
  fun self =>
    if bool_decide (i < length (rows self))
    then (Returns tt, set_rows (<[i := row]> (rows self)) self)
    else (Raises IndexError, self).

(** [del self.rows[i]] *)
Definition rows_del (i : nat) : M unit :=
  fun self =>
    if bool_decide (i < length (rows self))
    then (Returns tt, set_rows (delete i (rows self)) self)
    else (Raises IndexError, self).

(** [self.rows[i]] *)
Definition rows_at (self : t) (i : nat) : outcome pydict :=
  match rows self !! i with
  | Some row => Returns row
  | None => Raises IndexError
  end.

(** *** [validate_row]

    The method fills the caller's dictionary in place; the model returns
    the filled dictionary.  Its four blocks come first. *)

(** [# Check all columns are present] *)
Definition fill_missing (self : t) (row : pydict) : outcome pydict :=
  for_acc (columns self) (fun col row =>
    if dict_has (Column.name col) row then Returns row
    else if Column.not_null col
         then Raises (ValueError (CannotBeNull (Column.name col)))
         else Returns (dict_set (Column.name col) VNone row)) row.

(** [# Check data types (basic validation)] *)
Definition check_types (self : t) (row : pydict) : outcome unit :=
  for_each (columns self) (fun col =>
    value ← getitem row (Column.name col);
    if is_none value then Returns tt
    else raise_if (type_mismatch (Column.data_type col) value)
           (Expects (Column.name col) (Column.data_type col))).

(** [# Check primary key uniqueness] *)
Definition check_primary_key (self : t) (row : pydict) : outcome unit :=
  match truthy (primary_key self) with
  | Some pk =>
      pk_value ← getitem row pk;
      raise_if (bool_decide (is_Some (primary_key_index self !! key_of pk_value)))
        (PrimaryKeyViolation pk_value)
  | None => Returns tt
  end.

(** [# Check unique constraints] *)
Definition check_unique (self : t) (row : pydict) : outcome unit :=
  for_each (unique_columns self) (fun col_name =>
    if not_primary_key self col_name then
      value ← getitem row col_name;
      raise_if (negb (is_none value)
                && bool_decide (key_of value ∈ unique_index self col_name))
        (UniqueViolation col_name)
    else Returns tt).

Definition validate_row (self : t) (row : pydict) : outcome pydict :=
  row ← fill_missing self row;
  _ ← check_types self row;
  _ ← check_primary_key self row;
  _ ← check_unique self row;
  Returns row.

(** *** [insert] *)

(** The two blocks under [# Update indexes]. *)
Definition index_primary_key (self : t) (row : pydict) (row_index : nat) : M unit :=
  match truthy (primary_key self) with
  | Some pk =>
      pk_value ← lift (getitem row pk);
      index_put (key_of pk_value) row_index
  | None => skip
  end.

(** One turn of the loop over the unique columns. *)
Definition add_unique_value (self : t) (row : pydict) (col_name : string) : M unit :=
  if not_primary_key self col_name then
    value ← lift (getitem row col_name);
    if is_none value then skip else unique_add col_name (key_of value)
  else skip.

Definition add_unique_values (self : t) (row : pydict) : M unit :=
  for_M (unique_columns self) (add_unique_value self row).

Definition insert (row : pydict) : M unit :=
  self ← get;
  row ← lift (validate_row self row);
  let row_index := length (rows self) in
  _ ← modify (fun self => set_rows (rows self ++ [row])%list self);
  _ ← index_primary_key self row row_index;
  add_unique_values self row.

(** *** The read-only methods *)

(** [self.rows.copy()] *)
Definition select_all (self : t) : list pydict := rows self.

Definition select_where (self : t) (condition : pydict -> bool) : list pydict :=
  List.filter condition (rows self).

Definition get_by_primary_key (self : t) (pk_value : value)
  : outcome (option pydict) :=
  match truthy (primary_key self) with
  | None => Raises (ValueError NoPrimaryKey)
  | Some _ =>
      match primary_key_index self !! key_of pk_value with
      | Some row_index => row ← rows_at self row_index; Returns (Some row)
      | None => Returns None
      end
  end.

(** The comprehension [{col: row[col] for col in columns}] *)
Definition project (columns : list string) (row : pydict) : outcome pydict :=
  for_acc columns (fun col acc =>
    v ← getitem row col; Returns (dict_set col v acc)) [].

Definition select_columns (self : t) (rows : list pydict) (columns : list string)
  : outcome (list pydict) :=
  if bool_decide (columns = []) || bool_decide ("*" ∈ columns) then Returns rows
  else
    _ ← for_each columns (fun col =>
      raise_if (negb (bool_decide (col ∈ column_names self)))
        (ColumnDoesNotExist col (name self)));
    for_acc rows (fun row acc =>
      r ← project columns row; Returns (acc ++ [r])%list) [].

(** *** [update] *)

(** The type check of one candidate row: only the columns named in
    [updates] are looked at. *)
Definition check_updated_types (self : t) (updates new_row : pydict)
  : outcome unit :=
  for_each (columns self) (fun col =>
    if dict_has (Column.name col) updates then
      value ← getitem new_row (Column.name col);
      if negb (is_none value)
      then raise_if (type_mismatch (Column.data_type col) value)
             (Expects (Column.name col) (Column.data_type col))
      else raise_if (Column.not_null col) (CannotBeNull (Column.name col))
    else Returns tt).

(** The block under [# Check if primary key is being updated]. *)
Definition move_primary_key (updates old_row new_row : pydict) (row_index : nat)
  : M unit :=
  self ← get;
  match truthy (primary_key self) with
  | Some pk =>
      if dict_has pk updates then
        old_pk ← lift (getitem old_row pk);
        new_pk ← lift (getitem new_row pk);
        self ← get;
        _ ← lift (raise_if
               (negb (py_eq new_pk old_pk)
                && bool_decide (is_Some (primary_key_index self !! key_of new_pk)))
               (PrimaryKeyViolation new_pk));
        _ ← index_del (key_of old_pk);
        index_put (key_of new_pk) row_index
      else skip
  | None => skip
  end.

(** One turn of the loop under [# Check unique constraints]. *)
Definition move_unique_value (self : t) (updates old_row new_row : pydict)
    (col_name : string) : M unit :=
  if dict_has col_name updates && not_primary_key self col_name then
    old_value ← lift (getitem old_row col_name);
    new_value ← lift (getitem new_row col_name);
    if negb (py_eq old_value new_value) then
      self ← get;
      _ ← lift (raise_if
             (negb (is_none new_value)
              && bool_decide (key_of new_value ∈ unique_index self col_name))
             (UniqueViolation col_name));
      _ ← (if negb (is_none old_value)
           then unique_discard col_name (key_of old_value) else skip);
      if negb (is_none new_value)
      then unique_add col_name (key_of new_value) else skip
    else skip
  else skip.

Definition move_unique_values (updates old_row new_row : pydict) : M unit :=
  self ← get;
  for_M (unique_columns self) (move_unique_value self updates old_row new_row).

(** One turn of the loop [for row_index, old_row in rows_to_update]. *)
Definition update_row (updates : pydict) (entry : nat * pydict) : M unit :=
  let '(row_index, old_row) := entry in
  let new_row := dict_update old_row updates in
  self ← get;
  _ ← lift (check_updated_types self updates new_row);
  _ ← move_primary_key updates old_row new_row row_index;
  _ ← move_unique_values updates old_row new_row;
  rows_put row_index new_row.

(** The rows a condition selects, with their positions. *)
Definition matching (condition : pydict -> bool) (self : t) : list (nat * pydict) :=
  List.filter (fun entry => condition entry.2) (enumerate (rows self)).

Definition update (updates : pydict) (condition : pydict -> bool) : M nat :=
  self ← get;
  let rows_to_update := matching condition self in
  for_accM rows_to_update (fun entry updated_count =>
    _ ← update_row updates entry;
    mret (updated_count + 1)%nat) 0%nat.

(** *** [delete] and [delete_by_primary_key] *)

(** [self.primary_key_index.clear()] and the loop that refills it. *)
Definition rebuild_index (pk : string) : M unit :=
  _ ← modify (set_primary_key_index ∅);
  self ← get;
  for_M (enumerate (rows self)) (fun entry =>
    pk_value ← lift (getitem entry.2 pk);
    index_put (key_of pk_value) entry.1).

(** The loop that drops the unique values of a row that goes away. *)
Definition discard_unique_values (row : pydict) : M unit :=
  self ← get;
  for_M (unique_columns self) (fun col_name =>
    if not_primary_key self col_name then
      value ← lift (getitem row col_name);
      if negb (is_none value)
      then unique_discard col_name (key_of value) else skip
    else skip).

Definition delete (condition : pydict -> bool) : M nat :=
  self ← get;
  let rows_to_delete := matching condition self in
  _ ← for_M (rev rows_to_delete) (fun entry =>
    _ ← match truthy (primary_key self) with
        | Some pk =>
            pk_value ← lift (getitem entry.2 pk);
            index_del (key_of pk_value)
        | None => skip
        end;
    _ ← discard_unique_values entry.2;
    rows_del entry.1);
  _ ← match truthy (primary_key self) with
      | Some pk => rebuild_index pk
      | None => skip
      end;
  mret (length rows_to_delete).

Definition delete_by_primary_key (pk_value : value) : M bool :=
  self ← get;
  match truthy (primary_key self) with
  | None => lift (Raises (ValueError NoPrimaryKey))
  | Some pk =>
      match primary_key_index self !! key_of pk_value with
      | None => mret false
      | Some row_index =>
          row ← lift (rows_at self row_index);
          _ ← discard_unique_values row;
          _ ← index_del (key_of pk_value);
          _ ← rows_del row_index;
          _ ← rebuild_index pk;
          mret true
      end
  end.

End Table.

(** ** The database *)

(** [key.endswith(suffix)] *)
Definition endswith (key suffix : string) : bool :=
  let n := String.length key in
  let m := String.length suffix in
  bool_decide (m ≤ n)%nat && bool_decide (substring (n - m) m key = suffix).

(** The formatted string [f"{table_name}.{col}"] *)
Definition qualified (table_name col : string) : string :=
  table_name ++ "." ++ col.

Module Database.

Record t : Type := mk {
  name : string;
  tables : gmap string Table.t
}.

Definition new (name : string) : t := mk name ∅.

Definition create_table (table : Table.t) (self : t) : outcome unit * t :=
  match tables self !! Table.name table with
  | Some _ => (Raises (ValueError (TableAlreadyExists (Table.name table))), self)
  | None => (Returns tt, mk (name self) (<[Table.name table := table]> (tables self)))
  end.

Definition get_table (self : t) (name : string) : outcome Table.t :=
  match tables self !! name with
  | Some table => Returns table
  | None => Raises (ValueError (TableDoesNotExist name))
  end.

Definition drop_table (name : string) (self : t) : outcome unit * t :=
  match tables self !! name with
  | Some _ => (Returns tt, mk (Database.name self) (delete name (tables self)))
  | None => (Raises (ValueError (TableDoesNotExist name)), self)
  end.

(** The method calls of a collaborator on the table it got from
    [get_table]: the table object is shared, so the registry sees the
    mutation, also when the call raises. *)
Definition on_table {A : Type} (name : string) (call : Table.M A) (self : t)
  : outcome A * t :=
  match get_table self name with
  | Raises e => (Raises e, self)
  | Returns table =>
      let '(o, table') := call table in
      (o, mk (Database.name self) (<[name := table']> (tables self)))
  end.

(** The two loops that fill [joined_row]. *)
Definition joined_row (left_table_name right_table_name : string)
    (left_table right_table : Table.t) (left_row right_row : pydict)
  : outcome pydict :=
  joined ← for_acc (Table.column_names left_table) (fun col joined =>
    v ← getitem left_row col;
    Returns (dict_set (qualified left_table_name col) v joined)) [];
  for_acc (Table.column_names right_table) (fun col joined =>
    v ← getitem right_row col;
    Returns (dict_set (qualified right_table_name col) v joined)) joined.

(** The inner loop [for key in row] that resolves an unqualified name. *)
Fixpoint find_suffix (col : string) (row : pydict) : option value :=
  match row with
  | [] => None
  | (key, v) :: row' =>
      if endswith key ("." ++ col) then Some v else find_suffix col row'
  end.

(** The block under [# Filter columns if specified]. *)
Definition filter_columns (select_columns : option (list string))
    (result : list pydict) : outcome (list pydict) :=
  match select_columns with
  | None | Some [] => Returns result
  | Some cols =>
      for_acc result (fun row filtered_result =>
        filtered_row ← for_acc cols (fun col filtered_row =>
          match dict_get col row with
          | Some v => Returns (dict_set col v filtered_row)
          | None =>
              match find_suffix col row with
              | Some v => Returns (dict_set col v filtered_row)
              | None => Raises (ValueError (ColumnNotFoundInJoin col))
              end
          end) [];
        Returns (filtered_result ++ [filtered_row])%list) []
  end.

(** The validation both joins start with. *)
Definition join_tables (self : t) (left_table_name right_table_name : string)
    (left_column right_column : string) : outcome (Table.t * Table.t) :=
  left_table ← get_table self left_table_name;
  right_table ← get_table self right_table_name;
  _ ← raise_if (negb (bool_decide (left_column ∈ Table.column_names left_table)))
        (ColumnDoesNotExist left_column left_table_name);
  _ ← raise_if (negb (bool_decide (right_column ∈ Table.column_names right_table)))
        (ColumnDoesNotExist right_column right_table_name);
  Returns (left_table, right_table).

(** The inner loop of the nested-loop join: one left row against every right
    row. *)
Definition scan_right (left_table_name right_table_name : string)
    (left_table right_table : Table.t) (left_column right_column : string)
    (left_row : pydict) (result : list pydict) : outcome (list pydict) :=
  for_acc (Table.rows right_table) (fun right_row result =>
    l ← getitem left_row left_column;
    r ← getitem right_row right_column;
    if py_eq l r then
      joined ← joined_row left_table_name right_table_name
                 left_table right_table left_row right_row;
      Returns (result ++ [joined])%list
    else Returns result) result.

Definition inner_join (self : t) (left_table_name right_table_name : string)
    (left_column right_column : string) (select_columns : option (list string))
  : outcome (list pydict) :=
  '(left_table, right_table) ←
    join_tables self left_table_name right_table_name left_column right_column;
  result ← for_acc (Table.rows left_table)
    (scan_right left_table_name right_table_name left_table right_table
       left_column right_column) [];
  filter_columns select_columns result.

(** One turn of the loop of the indexed join: one left row against the
    primary-key index of the right table. *)
Definition probe_right (left_table_name right_table_name : string)
    (left_table right_table : Table.t) (left_column : string)
    (left_row : pydict) (result : list pydict) : outcome (list pydict) :=
  join_value ← getitem left_row left_column;
  right_row ← Table.get_by_primary_key right_table join_value;
  match right_row with
  | Some right_row =>
      if bool_decide (right_row = [])
      then Returns result
      else
        joined ← joined_row left_table_name right_table_name
                   left_table right_table left_row right_row;
        Returns (result ++ [joined])%list
  | None => Returns result
  end.

Definition inner_join_optimized (self : t) (left_table_name right_table_name : string)
    (left_column right_column : string) (select_columns : option (list string))
  : outcome (list pydict) :=
  '(left_table, right_table) ←
    join_tables self left_table_name right_table_name left_column right_column;
  if bool_decide (Table.primary_key right_table = Some right_column) then
    result ← for_acc (Table.rows left_table)
      (probe_right left_table_name right_table_name left_table right_table
         left_column) [];
    filter_columns select_columns result
  else
    inner_join self left_table_name right_table_name
      left_column right_column select_columns.

End Database.

(** ** The shell

    [handle_insert] of [cli.py], from the point where the regular
    expression has given the table name and [parse_values] the list of
    values. *)
Module REPL.

(** What the handler prints. *)
Inductive printed : Type :=
  | RowInserted
  | ColumnCountMismatch (expected got : nat)
  | ErrorInsertingData (e : error).

(** The loop [for col, value in zip(table.columns, values)]. *)
Definition row_of (columns : list Column.t) (values : list value) : pydict :=
  fold_left (fun row cv => dict_set (Column.name cv.1) cv.2 row)
    (zip columns values) [].

(** The handler catches every exception and prints it. *)
Definition handle_insert (table_name : string) (values : list value)
    (db : Database.t) : printed * Database.t :=
  match Database.get_table db table_name with
  | Raises e => (ErrorInsertingData e, db)
  | Returns table =>
      if bool_decide (length values ≠ length (Table.columns table))
      then (ColumnCountMismatch (length (Table.columns table)) (length values), db)
      else
        match Database.on_table table_name
                (Table.insert (row_of (Table.columns table) values)) db with
        | (Returns _, db') => (RowInserted, db')
        | (Raises e, db') => (ErrorInsertingData e, db')
        end
  end.

End REPL.

(** ** Row objects shared by reference

    [insert] stores the dictionary it is given and [select_all] copies the
    list of rows, not the rows.  To tell a copy from an alias, this module
    keeps dictionaries and lists in a store and handles them by reference. *)
Module Objects.

Abbreviation ref := nat.

Record store : Type := mk_store {
  dicts : gmap ref pydict;
  lists : gmap ref (list ref)
}.

(** A table object, with the list of its rows held by reference. *)
Record table : Type := mk_table {
  rows : ref;
  primary_key_index : gmap pykey nat;
  unique_indexes : gmap string (gset pykey)
}.

(** The elements of the list object [l] *)
Definition elements_of (h : store) (l : ref) : list ref :=
  default [] (lists h !! l).

(** The dictionary object [r] *)
Definition deref (h : store) (r : ref) : pydict :=
  default [] (dicts h !! r).

(** The dictionaries a list object holds, read through the store *)
Definition contents (h : store) (l : ref) : list pydict :=
  deref h <$> elements_of h l.

(** The row sequence of a table, as the engine would read it *)
Definition stored_rows (h : store) (self : table) : list pydict :=
  contents h (rows self).

(** [l.copy()]: a new list object with the same elements *)
Definition list_copy (l : ref) (h : store) : ref * store :=
  let l' := fresh (dom (lists h)) in
  (l', mk_store (dicts h) (<[l' := elements_of h l]> (lists h))).

(** [self.rows.copy()] *)
Definition select_all (self : table) (h : store) : ref * store :=
  list_copy (rows self) h.

(** [l[i][k] = v], an assignment to a key of the [i]-th row of a list *)
Definition row_setitem (l : ref) (i : nat) (k : string) (v : value) (h : store)
  : store :=
  match elements_of h l !! i with
  | Some r =>
      match dicts h !! r with
      | Some d => mk_store (<[r := dict_set k v d]> (dicts h)) (lists h)
      | None => h
      end
  | None => h
  end.

(** [l.append(r)] *)
Definition list_append (l : ref) (r : ref) (h : store) : store :=
  mk_store (dicts h) (<[l := (elements_of h l ++ [r])%list]> (lists h)).

(** [del l[i]] *)
Definition list_del (l : ref) (i : nat) (h : store) : store :=
  mk_store (dicts h) (<[l := delete i (elements_of h l)]> (lists h)).

(** [l[i] = r] *)
Definition list_setitem (l : ref) (i : nat) (r : ref) (h : store) : store :=
  mk_store (dicts h) (<[l := <[i := r]> (elements_of h l)]> (lists h)).

End Objects.

(** ** The tables of the test suite, and the states the properties refer to *)
Module Scenario.

(** [users(id INT PRIMARY KEY NOT NULL, email TEXT UNIQUE, age INT)] *)
Definition users_columns : list Column.t :=
  [ Column.mk "id" INT true false true;
    Column.mk "email" TEXT false true false;
    Column.mk "age" INT false false false ].

(** [orders(id INT PRIMARY KEY NOT NULL, user_id INT)] *)
Definition orders_columns : list Column.t :=
  [ Column.mk "id" INT true false true;
    Column.mk "user_id" INT false false false ].

Definition user (id : Z) (email : string) (age : Z) : pydict :=
  [("id", VInt id); ("email", VStr email); ("age", VInt age)].

Definition order (id user_id : Z) : pydict :=
  [("id", VInt id); ("user_id", VInt user_id)].

(** [lambda row: row['id'] == id] *)
Definition id_is (id : Z) (row : pydict) : bool :=
  match dict_get "id" row with
  | Some v => py_eq v (VInt id)
  | None => false
  end.

(** [lambda row: True] *)
Definition every_row (row : pydict) : bool := true.

(** Two users. *)
Definition users : Table.t :=
  let t0 := Table.new "users" users_columns in
  let t1 := (Table.insert (user 1 "a@x.com" 30) t0).2 in
  (Table.insert (user 2 "b@x.com" 25) t1).2.

(** One order, placed by user 1. *)
Definition orders : Table.t :=
  (Table.insert (order 100 1) (Table.new "orders" orders_columns)).2.

Definition db : Database.t :=
  let d0 := Database.new "shop" in
  let d1 := (Database.create_table users d0).2 in
  (Database.create_table orders d1).2.

(** [users.update({'id': 9, 'email': 'b@x.com'}, lambda row: row['id'] == 1)]:
    the new key is free, the new address is taken. *)
Definition clashing_update : Table.M nat :=
  Table.update [("id", VInt 9); ("email", VStr "b@x.com")] (id_is 1).

Definition db_after_clash : Database.t :=
  (Database.on_table "users" clashing_update db).2.

(** [users.update({'email': 'b@x.com', 'age': 7}, lambda row: True)] *)
Definition batch_update : Table.M nat :=
  Table.update [("email", VStr "b@x.com"); ("age", VInt 7)] every_row.

(** [t(id INT PRIMARY KEY)], the flag [not_null] left unset as in the web
    application's tables *)
Definition keyed : Table.t :=
  Table.new "t" [Column.mk "id" INT true false false].

(** [t(n INT)] *)
Definition counters : Table.t :=
  Table.new "t" [Column.mk "n" INT false false false].


(** A store with one table of one row, [{'id': 1}]. *)
Definition one_row_store : Objects.store :=
  Objects.mk_store {[ 0 := [("id", VInt 1)] ]} {[ 0 := [0] ]}.

Definition one_row_table : Objects.table :=
  Objects.mk_table 0 {[ key_of (VInt 1) := 0 ]} ∅.

End Scenario.

(** ** Notions the statements use *)

(** The rows after the entries [before] have been updated. *)
Definition rows_after (updates : pydict) (before : list (nat * pydict))
    (rows : list pydict) : list pydict :=
  foldl (fun rs entry => <[entry.1 := dict_update entry.2 updates]> rs) rows before.

(** Two dictionaries that agree on every key but [k] *)
Definition agree_off (k : string) (d1 d2 : pydict) : Prop :=
  forall k', k' <> k -> dict_get k' d1 = dict_get k' d2.

(** Two tables with the columns [cols], the same indexes and as many rows *)
Definition same_indexes (cols : list Column.t) (s1 s2 : Table.t) : Prop :=
  Table.name s1 = Table.name s2
  /\ (Table.columns s1 = cols /\ Table.columns s2 = cols)
  /\ Table.primary_key_index s1 = Table.primary_key_index s2
  /\ Table.unique_indexes s1 = Table.unique_indexes s2
  /\ length (Table.rows s1) = length (Table.rows s2).

(** Two runs with the same result that end in tables with the same indexes *)
Definition sim {A : Type} (cols : list Column.t) (x y : outcome A * Table.t)
  : Prop :=
  x.1 = y.1 /\ same_indexes cols x.2 y.2.

(** A computation that reads nothing of the rows but their number *)
Definition respects {A : Type} (cols : list Column.t) (c : Table.M A) : Prop :=
  forall s1 s2, same_indexes cols s1 s2 -> sim cols (c s1) (c s2).

(** The primary-key index of a table whose key column is [pk] agrees with
    its rows: every row is indexed under its key at its position, and every
    entry of the index points at a row with that key. *)
Definition index_consistent (self : Table.t) (pk : string) : Prop :=
  (forall i row, Table.rows self !! i = Some row ->
     exists v, dict_get pk row = Some v
               /\ Table.primary_key_index self !! key_of v = Some i)
  /\ (forall k i, Table.primary_key_index self !! k = Some i ->
        exists row v, Table.rows self !! i = Some row
                      /\ dict_get pk row = Some v /\ key_of v = k).

(** [lambda row: row[pk] == k], the condition of a full scan for the key [k] *)
Definition key_is (pk : string) (k : value) (row : pydict) : bool :=
  match dict_get pk row with
  | Some v => py_eq v k
  | None => false
  end.

(** The key of a row, [None] read for a missing key column *)
Definition key_at (pk : string) (row : pydict) : pykey :=
  key_of (default VNone (dict_get pk row)).

(** Every row has the column [c]. *)
Definition all_have (c : string) (rows : list pydict) : Prop :=
  Forall (fun row => is_Some (dict_get c row)) rows.

(** The index the loop of [rebuild_index] builds from the rows *)
Definition index_of (pk : string) (rows : list pydict) : gmap pykey nat :=
  foldl (fun m entry => <[key_at pk entry.2 := entry.1]> m) ∅ (enumerate rows).

(** Every stored row has every declared column. *)
Definition rows_complete (self : Table.t) : Prop :=
  forall row c, row ∈ Table.rows self -> c ∈ Table.column_names self ->
    is_Some (dict_get c row).

(** The items [(table.col, row[col])] of a row, column by column *)
Definition qualified_items (table_name : string) (names : list string)
    (row : pydict) : list (string * value) :=
  map (fun col => (qualified table_name col, default VNone (dict_get col row))) names.

(** The row a join makes of a left and a right row: the dictionary of the
    left items followed by the right ones *)
Definition paired (left_table_name right_table_name : string)
    (left_table right_table : Table.t) (left_row right_row : pydict) : pydict :=
  dict_of (qualified_items left_table_name (Table.column_names left_table) left_row
           ++ qualified_items right_table_name (Table.column_names right_table)
                right_row).

(** The join condition [left_row[left_column] == right_row[right_column]] *)
Definition join_on (left_column right_column : string)
    (left_row right_row : pydict) : bool :=
  match dict_get left_column left_row, dict_get right_column right_row with
  | Some l, Some r => py_eq l r
  | _, _ => false
  end.

(** Every value stored under a declared column is [None] or passes the
    [isinstance] test of the column. *)
Definition rows_typed (self : Table.t) : Prop :=
  forall row col v, row ∈ Table.rows self -> col ∈ Table.columns self ->
    dict_get (Column.name col) row = Some v ->
    is_none v = true \/ type_mismatch (Column.data_type col) v = false.

(** The calls that change a table *)
Inductive call : Type :=
  | Insert (row : pydict)
  | Update (updates : pydict) (condition : pydict -> bool)
  | Delete (condition : pydict -> bool)
  | DeleteByPrimaryKey (pk_value : value).

(** The table after a call, whether it returned or raised *)
Definition after (c : call) (self : Table.t) : Table.t :=
  match c with
  | Insert row => (Table.insert row self).2
  | Update updates condition => (Table.update updates condition self).2
  | Delete condition => (Table.delete condition self).2
  | DeleteByPrimaryKey pk_value => (Table.delete_by_primary_key pk_value self).2
  end.

(** The table after a sequence of calls *)
Definition after_all (calls : list call) (self : Table.t) : Table.t :=
  foldl (fun self c => after c self) self calls.

(** A computation that keeps the columns and adds no row *)
Definition shrinks {A} (c : Table.M A) : Prop :=
  forall s, Table.columns (c s).2 = Table.columns s
            /\ forall row, row ∈ Table.rows (c s).2 -> row ∈ Table.rows s.

(** The columns, and the rows as far as the schema speaks of them *)
Definition schema_kept (cols : list Column.t) (s : Table.t) : Prop :=
  Table.columns s = cols /\ rows_complete s /\ rows_typed s.

(** An update that assigns the primary key and raised for a unique column *)
Definition clashed (c : call) (self : Table.t) : bool :=
  match c with
  | Update updates condition =>
      match truthy (Table.primary_key self),
            (Table.update updates condition self).1 with
      | Some pk, Raises (ValueError (UniqueViolation _)) => dict_has pk updates
      | _, _ => false
      end
  | _ => false
  end.

(** No call of the sequence clashed. *)
Fixpoint clash_free (calls : list call) (self : Table.t) : bool :=
  match calls with
  | [] => true
  | c :: calls => negb (clashed c self) && clash_free calls (after c self)
  end.

(** ['.' in s] *)
Fixpoint has_dot (s : string) : bool :=
  match s with
  | EmptyString => false
  | String a s' => bool_decide (a = "."%char) || has_dot s'
  end.

(** The key of the joined row an unqualified column name stands for: the
    left table's column of that name when it has one, otherwise the right
    table's. *)
Definition unqualified (left_table_name right_table_name : string)
    (left_table : Table.t) (col : string) : string :=
  if bool_decide (col ∈ Table.column_names left_table)
  then qualified left_table_name col
  else qualified right_table_name col.

(** A joined row cut down to unqualified names. *)
Definition projected (left_table_name right_table_name : string)
    (left_table : Table.t) (cols : list string) (row : pydict) : pydict :=
  dict_of (map (fun col =>
                  (col, default VNone
                          (dict_get (unqualified left_table_name right_table_name
                                       left_table col) row)))
             cols).

(** * Properties *)

Import Scenario.

(** ** Dictionaries *)

Lemma dict_get_set_eq k v d : dict_get k (dict_set k v d) = Some v.
Proof.
  induction d as [|[k' v'] d IH]; simpl.
  - rewrite bool_decide_eq_true_2; done.
  - destruct (bool_decide (k' = k)) eqn:E; simpl; rewrite E; done.
Qed.

Lemma dict_get_set_ne k k' v d :
  k <> k' -> dict_get k' (dict_set k v d) = dict_get k' d.
Proof.
  intros Hne. induction d as [|[k0 v0] d IH]; simpl.
  - rewrite bool_decide_eq_false_2; done.
  - destruct (bool_decide (k0 = k)) eqn:E; simpl.
    + apply bool_decide_eq_true_1 in E. subst k0.
      rewrite !bool_decide_eq_false_2; done.
    + destruct (bool_decide (k0 = k')); [done | apply IH].
Qed.

Lemma dict_has_true k d : dict_has k d = true <-> is_Some (dict_get k d).
Proof.
  unfold dict_has. destruct (dict_get k d); split; intros H; done.
Qed.

(** ** Loops *)

Lemma for_each_Returns {A} (l : list A) (body : A -> outcome unit) :
  for_each l body = Returns tt <-> Forall (fun a => body a = Returns tt) l.
Proof.
  unfold for_each. induction l as [|a l IH]; simpl.
  - split; [constructor | done].
  - destruct (body a) as [[]|e] eqn:E; rewrite ?IH; split.
    + intros H. by constructor.
    + intros H. by inversion H.
    + done.
    + intros H. inversion H. congruence.
Qed.

Ltac monad_unfold :=
  unfold mbind, mret, Table.M_bind, Table.M_ret, outcome_bind, outcome_ret,
    Table.lift, Table.get, Table.modify, Table.skip.

Lemma validate_row_Returns self row row' :
  Table.validate_row self row = Returns row' <->
  Table.fill_missing self row = Returns row'
  /\ Table.check_types self row' = Returns tt
  /\ Table.check_primary_key self row' = Returns tt
  /\ Table.check_unique self row' = Returns tt.
Proof.
  unfold Table.validate_row. monad_unfold.
  destruct (Table.fill_missing self row) as [r|e].
  2:{ split; [done|]. intros (H & _). done. }
  destruct (Table.check_types self r) as [[]|e] eqn:E1.
  2:{ split; [done|]. intros (H & H' & _). congruence. }
  destruct (Table.check_primary_key self r) as [[]|e] eqn:E2.
  2:{ split; [done|]. intros (H & _ & H' & _). congruence. }
  destruct (Table.check_unique self r) as [[]|e] eqn:E3.
  2:{ split; [done|]. intros (H & _ & _ & H'). congruence. }
  split.
  - intros [= <-]. done.
  - intros (H & _). done.
Qed.


Lemma for_accM_cons {A S} (a : A) l (body : A -> S -> Table.M S) s self :
  Table.for_accM (a :: l) body s self =
  match body a s self with
  | (Returns s', self') => Table.for_accM l body s' self'
  | (Raises e, self') => (Raises e, self')
  end.
Proof. reflexivity. Qed.

Lemma unique_index_set_eq self c s :
  Table.unique_index (Table.set_unique_index c s self) c = s.
Proof. unfold Table.unique_index. simpl. by rewrite lookup_insert_eq. Qed.

Lemma unique_index_set_ne self c c' s :
  c <> c' ->
  Table.unique_index (Table.set_unique_index c s self) c' = Table.unique_index self c'.
Proof. intros H. unfold Table.unique_index. simpl. by rewrite lookup_insert_ne. Qed.

Lemma add_unique_value_spec self0 row c self :
  (Table.not_primary_key self0 c = true -> is_Some (dict_get c row)) ->
  exists self',
    Table.add_unique_value self0 row c self = (Returns tt, self')
    /\ Table.name self' = Table.name self
    /\ Table.columns self' = Table.columns self
    /\ Table.rows self' = Table.rows self
    /\ Table.primary_key_index self' = Table.primary_key_index self
    /\ forall col_name k,
         k ∈ Table.unique_index self' col_name <->
         k ∈ Table.unique_index self col_name
         \/ (col_name = c /\ Table.not_primary_key self0 col_name = true
             /\ exists v, dict_get col_name row = Some v /\ is_none v = false /\ k = key_of v).
Proof.
  intros Hc. unfold Table.add_unique_value.
  destruct (Table.not_primary_key self0 c) eqn:Enp.
  - destruct (Hc eq_refl) as [v Hv]. monad_unfold. unfold getitem. rewrite Hv.
    destruct (is_none v) eqn:En.
    + exists self. repeat split; try done; [by left|].
      intros [H|(-> & _ & v' & H1 & H2 & _)]; [done|congruence].
    + eexists. split; [reflexivity|]. repeat split; try done.
      * intros H. destruct (decide (c = col_name)) as [->|Hne].
        -- rewrite unique_index_set_eq in H.
           apply elem_of_union in H as [H|H]; [|by left].
           apply elem_of_singleton in H. right. eauto 10.
        -- rewrite unique_index_set_ne in H by done. by left.
      * intros H. destruct (decide (c = col_name)) as [->|Hne].
        -- rewrite unique_index_set_eq.
           destruct H as [H|(_ & _ & v' & H1 & H2 & H3)]; [set_solver|].
           assert (v' = v) by congruence. set_solver.
        -- rewrite unique_index_set_ne by done.
           destruct H as [H|(H1 & _)]; [done|congruence].
  - exists self. monad_unfold. repeat split; try done; [by left|].
    intros [H|(-> & H1 & _)]; [done|congruence].
Qed.

(** The unique indexes after the loop of [insert]. *)
Lemma add_unique_values_loop self0 row cols :
  forall self,
  Forall (fun c => Table.not_primary_key self0 c = true -> is_Some (dict_get c row)) cols ->
  exists self',
    Table.for_M cols (Table.add_unique_value self0 row) self = (Returns tt, self')
    /\ Table.name self' = Table.name self
    /\ Table.columns self' = Table.columns self
    /\ Table.rows self' = Table.rows self
    /\ Table.primary_key_index self' = Table.primary_key_index self
    /\ forall col_name k,
         k ∈ Table.unique_index self' col_name <->
         k ∈ Table.unique_index self col_name
         \/ (col_name ∈ cols /\ Table.not_primary_key self0 col_name = true
             /\ exists v, dict_get col_name row = Some v /\ is_none v = false /\ k = key_of v).
Proof.
  unfold Table.for_M.
  induction cols as [|c cols IH]; intros self Hall.
  - exists self. repeat split; try done; [by left|].
    intros [H|(H & _)]; [done|]. by apply elem_of_nil in H.
  - inversion Hall as [|? ? Hc Hall']; subst.
    rewrite for_accM_cons.
    destruct (add_unique_value_spec self0 row c self Hc)
      as (self1 & -> & Hn1 & Hc1 & Hr1 & Hp1 & Hu1).
    destruct (IH self1 Hall') as (self' & -> & Hn & Hc' & Hr & Hp & Hu).
    exists self'. split; [done|].
    repeat split; try congruence.
    + intros H. apply Hu in H as [H|(H1 & H2)].
      * apply Hu1 in H as [H|(-> & H2)]; [by left|].
        right. split; [by left|done].
      * right. split; [by right|done].
    + intros H. apply Hu. destruct H as [H|(H1 & H2)].
      * left. apply Hu1. by left.
      * apply elem_of_cons in H1 as [->|H1].
        -- left. apply Hu1. right. done.
        -- right. done.
Qed.

Lemma check_primary_key_Returns self row pk :
  Table.check_primary_key self row = Returns tt ->
  truthy (Table.primary_key self) = Some pk ->
  exists pk_value, dict_get pk row = Some pk_value
    /\ Table.primary_key_index self !! key_of pk_value = None.
Proof.
  unfold Table.check_primary_key. intros H Epk. rewrite Epk in H. revert H.
  unfold mbind, outcome_bind, getitem.
  destruct (dict_get pk row) as [v|]; [|done].
  unfold raise_if. case_bool_decide as Hin; [done|].
  intros _. exists v. split; [done|].
  destruct (Table.primary_key_index self !! key_of v) eqn:E; [|done].
  exfalso. apply Hin. by eexists.
Qed.

Lemma check_unique_Returns self row :
  Table.check_unique self row = Returns tt ->
  Forall (fun c => Table.not_primary_key self c = true ->
            exists v, dict_get c row = Some v
              /\ (is_none v = false -> key_of v ∉ Table.unique_index self c))
    (Table.unique_columns self).
Proof.
  unfold Table.check_unique. rewrite for_each_Returns.
  intros Hall. eapply Forall_impl; [exact Hall|]. clear Hall.
  intros c H Hnp. simpl in H. rewrite Hnp in H. revert H.
  unfold mbind, outcome_bind, getitem.
  destruct (dict_get c row) as [v|]; [|done].
  intros H. exists v. split; [done|]. intros Hn. rewrite Hn in H. simpl in H.
  unfold raise_if in H. by case_bool_decide.
Qed.

(** ** What the loops of the mutating methods leave alone *)

Section frame.
Context {X : Type} (f : Table.t -> X).

Lemma bind_frame {A B} (c : Table.M A) (k : A -> Table.M B) self :
  f (c self).2 = f self ->
  (forall a self', f (k a self').2 = f self') ->
  f ((c ≫= k) self).2 = f self.
Proof.
  intros Hc Hk. unfold mbind, Table.M_bind.
  destruct (c self) as [[a|e] self']; simpl in *; [|done].
  by rewrite Hk.
Qed.

Lemma for_accM_frame {A S} (l : list A) (body : A -> S -> Table.M S) :
  (forall a s self, f (body a s self).2 = f self) ->
  forall s self, f (Table.for_accM l body s self).2 = f self.
Proof.
  intros Hbody. induction l as [|a l IH]; intros s self; [done|].
  simpl. apply bind_frame; [apply Hbody | intros; apply IH].
Qed.

Lemma for_M_frame {A} (l : list A) (body : A -> Table.M unit) :
  (forall a self, f (body a self).2 = f self) ->
  forall self, f (Table.for_M l body self).2 = f self.
Proof. intros H. apply for_accM_frame. intros; apply H. Qed.

Lemma lift_frame {A} (c : outcome A) self : f (Table.lift c self).2 = f self.
Proof. done. Qed.

Lemma get_frame self : f (Table.get self).2 = f self.
Proof. done. Qed.

Lemma skip_frame self : f (Table.skip self).2 = f self.
Proof. done. Qed.

Lemma if_frame {A} (b : bool) (c1 c2 : Table.M A) self :
  f (c1 self).2 = f self -> f (c2 self).2 = f self ->
  f ((if b then c1 else c2) self).2 = f self.
Proof. by destruct b. Qed.
End frame.

Ltac frame :=
  repeat first
    [ apply lift_frame | apply get_frame | apply skip_frame
    | apply bind_frame; [|intros ? ?] | apply if_frame
    | apply for_M_frame; intros ? ?
    | done ].

Lemma index_del_rows k self : Table.rows (Table.index_del k self).2 = Table.rows self.
Proof. unfold Table.index_del. by destruct (_ !! _). Qed.

Lemma move_primary_key_rows updates old_row new_row row_index self :
  Table.rows (Table.move_primary_key updates old_row new_row row_index self).2
  = Table.rows self.
Proof.
  unfold Table.move_primary_key.
  apply bind_frame; [done|]. intros self0 self'.
  destruct (truthy _); [|done].
  frame. apply index_del_rows.
Qed.

Lemma move_unique_values_rows updates old_row new_row self :
  Table.rows (Table.move_unique_values updates old_row new_row self).2
  = Table.rows self.
Proof.
  unfold Table.move_unique_values.
  apply bind_frame; [done|]. intros self0 self'.
  apply for_M_frame. intros c self1. unfold Table.move_unique_value. frame.
Qed.

Lemma bind_run {A B} (c : Table.M A) (k : A -> Table.M B) self :
  (c ≫= k) self =
  match c self with
  | (Returns a, self') => k a self'
  | (Raises e, self') => (Raises e, self')
  end.
Proof. reflexivity. Qed.

(** One turn of the loop of [update] changes the rows in its last step
    only. *)
Lemma update_row_rows updates i old_row self :
  match Table.update_row updates (i, old_row) self with
  | (Returns _, self') =>
      (i < length (Table.rows self))%nat
      /\ Table.rows self' = <[i := dict_update old_row updates]> (Table.rows self)
  | (Raises _, self') => Table.rows self' = Table.rows self
  end.
Proof.
  unfold Table.update_row. rewrite bind_run. simpl.
  rewrite bind_run. unfold Table.lift at 1.
  destruct (Table.check_updated_types _ _ _) as [[]|e]; [|done].
  rewrite bind_run.
  pose proof (move_primary_key_rows updates old_row (dict_update old_row updates) i self) as H1.
  destruct (Table.move_primary_key _ _ _ _ self) as [[[]|e] self1]; simpl in H1; [|done].
  rewrite bind_run.
  pose proof (move_unique_values_rows updates old_row (dict_update old_row updates) self1) as H2.
  destruct (Table.move_unique_values _ _ _ self1) as [[[]|e] self2]; simpl in H2; [|congruence].
  unfold Table.rows_put. case_bool_decide as Hlt; simpl.
  - rewrite H2, H1 in *. done.
  - congruence.
Qed.

Lemma update_loop updates entries :
  forall count self,
  match Table.for_accM entries (fun entry updated_count =>
          _ ← Table.update_row updates entry; mret (updated_count + 1)%nat)
          count self with
  | (Returns n, self') =>
      n = (count + length entries)%nat
      /\ Table.rows self' = rows_after updates entries (Table.rows self)
  | (Raises e, self') =>
      exists before entry rest self1,
        entries = (before ++ entry :: rest)%list
        /\ Table.update_row updates entry self1 = (Raises e, self')
        /\ Table.rows self1 = rows_after updates before (Table.rows self)
        /\ Table.rows self' = rows_after updates before (Table.rows self)
  end.
Proof.
  induction entries as [|[i old_row] entries IH]; intros count self.
  - simpl. split; [lia|done].
  - rewrite for_accM_cons, bind_run.
    pose proof (update_row_rows updates i old_row self) as Hrow.
    destruct (Table.update_row updates (i, old_row) self) as [[[]|e] self1] eqn:E.
    + destruct Hrow as [Hlt Hrow]. unfold mret, Table.M_ret.
      specialize (IH (count + 1)%nat self1).
      destruct (Table.for_accM entries _ _ self1) as [[n|e] self'].
      * destruct IH as [-> IH]. split; [simpl; lia|].
        rewrite IH, Hrow. done.
      * destruct IH as (before & entry & rest & self2 & -> & Hfail & H2 & H').
        exists ((i, old_row) :: before), entry, rest, self2.
        split; [done|]. split; [done|]. simpl. rewrite <- Hrow. done.
    + exists [], (i, old_row), entries, self. simpl. done.
Qed.

(** ** The rows a condition selects *)

Lemma enumerate_elem {A} (l : list A) i x :
  (i, x) ∈ enumerate l <-> l !! i = Some x.
Proof.
  unfold enumerate. rewrite elem_of_lookup_imap. split.
  - intros (j & y & [= -> ->] & H). done.
  - intros H. eauto.
Qed.

Lemma enumerate_fst {A} (l : list A) : (enumerate l).*1 = seq 0 (length l).
Proof.
  unfold enumerate. rewrite fmap_imap.
  transitivity (id <$> seq 0 (length l)); [|apply list_fmap_id].
  rewrite <- (imap_seq_0 l id). apply imap_ext. done.
Qed.

Lemma filter_bool_elem {A} (f : A -> bool) (l : list A) x :
  x ∈ List.filter f l <-> x ∈ l /\ f x = true.
Proof. rewrite !list_elem_of_In, filter_In. done. Qed.

Lemma filter_bool_sublist {A} (f : A -> bool) (l : list A) :
  sublist (List.filter f l) l.
Proof.
  induction l as [|x l IH]; simpl; [constructor|].
  destruct (f x); by constructor.
Qed.

Lemma matching_elem condition self i row :
  (i, row) ∈ Table.matching condition self
  <-> Table.rows self !! i = Some row /\ condition row = true.
Proof. unfold Table.matching. rewrite filter_bool_elem, enumerate_elem. done. Qed.

Lemma matching_NoDup condition self : NoDup (Table.matching condition self).*1.
Proof.
  apply (sublist_NoDup _ (enumerate (Table.rows self)).*1).
  - rewrite enumerate_fst. apply NoDup_seq.
  - apply fmap_sublist, filter_bool_sublist.
Qed.

Lemma matching_snd_gen {A B} (condition : A -> bool) (g : nat -> B) (l : list A) :
  (List.filter (fun entry => condition entry.2) (imap (fun i x => (g i, x)) l)).*2
  = List.filter condition l.
Proof.
  revert g. induction l as [|x l IH]; intros g; [done|].
  simpl. destruct (condition x); simpl; [f_equal|]; apply (IH (g ∘ S)).
Qed.

Lemma matching_select_where condition self :
  (Table.matching condition self).*2 = Table.select_where self condition.
Proof. apply (matching_snd_gen condition (fun i => i)). Qed.

Lemma rows_after_length updates before rows :
  length (rows_after updates before rows) = length rows.
Proof.
  revert rows. induction before as [|e before IH]; intros rows; [done|].
  simpl. rewrite IH. apply length_insert.
Qed.

(** The rows after a run of updates, read position by position. *)
Lemma rows_after_lookup updates before :
  forall rows i,
  NoDup before.*1 ->
  (forall j r, (j, r) ∈ before -> rows !! j = Some r) ->
  rows_after updates before rows !! i
  = (fun row => if bool_decide ((i, row) ∈ before)
                then dict_update row updates else row) <$> rows !! i.
Proof.
  induction before as [|[j r] before IH]; intros rows i Hnd Hsnap.
  - simpl. destruct (rows !! i) eqn:E; simpl; [|done].
    by rewrite ?bool_decide_eq_false_2 by apply not_elem_of_nil.
  - simpl in *. apply NoDup_cons in Hnd as [Hj Hnd].
    assert (Hjr : rows !! j = Some r) by (apply Hsnap; left).
    rewrite IH; [|done|].
    2:{ intros j' r' Hin. rewrite list_lookup_insert_ne.
        - apply Hsnap. by right.
        - intros ->. apply Hj. apply list_elem_of_fmap. by exists (j', r'). }
    destruct (decide (i = j)) as [->|Hne].
    + rewrite list_lookup_insert_eq by (by eapply lookup_lt_Some).
      rewrite Hjr. simpl.
      rewrite bool_decide_eq_false_2.
      2:{ intros Hin. apply Hj. apply list_elem_of_fmap.
          by exists (j, dict_update r updates). }
      rewrite bool_decide_eq_true_2; [done|left].
    + rewrite list_lookup_insert_ne by done.
      destruct (rows !! i) as [row|] eqn:E; simpl; [|done].
      f_equal. rewrite (bool_decide_ext ((i, row) ∈ (j, r) :: before) ((i, row) ∈ before)); [done|].
      rewrite elem_of_cons. split; [|by right].
      intros [[= -> ->]|H]; done.
Qed.

Lemma rows_after_matching updates condition self :
  rows_after updates (Table.matching condition self) (Table.rows self)
  = map (fun row => if condition row then dict_update row updates else row)
      (Table.rows self).
Proof.
  apply list_eq. intros i.
  rewrite rows_after_lookup.
  - rewrite list_lookup_fmap. destruct (Table.rows self !! i) as [row|] eqn:E; [|done].
    simpl. f_equal. case_bool_decide as Hin.
    + apply matching_elem in Hin as [_ ->]. done.
    + destruct (condition row) eqn:Ec; [|done].
      exfalso. apply Hin, matching_elem. done.
  - apply matching_NoDup.
  - intros j r Hin. by apply matching_elem in Hin as [? _].
Qed.

(** C4 (amended): [update] stops at the first matched row whose candidate
    fails.  The matched rows before it hold their candidates, the failing
    row and the matched rows after it hold their old values, and the error
    is raised in place of a count.  When no candidate fails, the count is the
    number of matched rows and each of them holds its candidate. *)
Theorem update_stops_at_first_failure
    (self : Table.t) (updates : pydict) (condition : pydict -> bool) :
  match Table.update updates condition self with
  | (Returns n, self') =>
      n = length (Table.select_where self condition)
      /\ Table.rows self'
         = map (fun row => if condition row then dict_update row updates else row)
             (Table.rows self)
  | (Raises e, self') =>
      exists before entry rest self1,
        Table.matching condition self = (before ++ entry :: rest)%list
        /\ Table.update_row updates entry self1 = (Raises e, self')
        /\ length (Table.rows self') = length (Table.rows self)
        /\ (forall i row, (i, row) ∈ before ->
              Table.rows self' !! i = Some (dict_update row updates))
        /\ (forall i row, (i, row) ∈ entry :: rest ->
              Table.rows self' !! i = Some row)
        /\ (forall i row, Table.rows self !! i = Some row -> condition row = false ->
              Table.rows self' !! i = Some row)
  end.
Proof.
  unfold Table.update. rewrite bind_run. unfold Table.get at 1.
  pose proof (update_loop updates (Table.matching condition self) 0%nat self) as H.
  destruct (Table.for_accM _ _ _ self) as [[n|e] self'].
  - destruct H as [-> H]. split.
    + rewrite <- matching_select_where, length_fmap. done.
    + rewrite H. apply rows_after_matching.
  - destruct H as (before & entry & rest & self1 & Hm & Hfail & _ & Hrows).
    exists before, entry, rest, self1.
    assert (Hnd : NoDup ((before ++ entry :: rest)%list).*1).
    { rewrite <- Hm. apply matching_NoDup. }
    assert (Hsnap : forall j r, (j, r) ∈ (before ++ entry :: rest)%list ->
                      Table.rows self !! j = Some r).
    { intros j r Hin. rewrite <- Hm in Hin. by apply matching_elem in Hin as [? _]. }
    assert (Hlook : forall i row, Table.rows self !! i = Some row ->
              Table.rows self' !! i
              = Some (if bool_decide ((i, row) ∈ before)
                      then dict_update row updates else row)).
    { intros i row Hi. rewrite Hrows, rows_after_lookup, Hi; [done| |].
      - rewrite fmap_app in Hnd. by apply NoDup_app in Hnd as [? _].
      - intros j r Hin. apply Hsnap, elem_of_app. by left. }
    split; [done|]. split; [done|].
    split; [by rewrite Hrows, rows_after_length|].
    split; [|split].
    + intros i row Hin. rewrite (Hlook i row).
      * by rewrite bool_decide_eq_true_2.
      * apply Hsnap, elem_of_app. by left.
    + intros i row Hin. rewrite (Hlook i row).
      * rewrite bool_decide_eq_false_2; [done|]. intros Hd.
        rewrite fmap_app in Hnd. apply NoDup_app in Hnd as (_ & Hdis & _).
        apply (Hdis i).
        -- apply list_elem_of_fmap. by exists (i, row).
        -- apply list_elem_of_fmap. by exists (i, row).
      * apply Hsnap, elem_of_app. by right.
    + intros i row Hi Hc. rewrite (Hlook i row Hi).
      rewrite bool_decide_eq_false_2; [done|]. intros Hd.
      assert ((i, row) ∈ Table.matching condition self) as Hin.
      { rewrite Hm. apply elem_of_app. by left. }
      apply matching_elem in Hin as [_ Hc']. congruence.
Qed.

(** ** Projections *)

Lemma for_acc_cons {A S} (a : A) l (body : A -> S -> outcome S) s :
  for_acc (a :: l) body s =
  match body a s with
  | Returns s' => for_acc l body s'
  | Raises e => Raises e
  end.
Proof. reflexivity. Qed.

Lemma project_acc columns row :
  (forall c, c ∈ columns -> is_Some (dict_get c row)) ->
  forall acc, exists r,
    for_acc columns (fun col acc =>
      v ← getitem row col; Returns (dict_set col v acc)) acc = Returns r
    /\ forall k, dict_get k r
         = if bool_decide (k ∈ columns) then dict_get k row else dict_get k acc.
Proof.
  induction columns as [|c columns IH]; intros Hall acc.
  - exists acc. split; [done|]. intros k.
    by rewrite bool_decide_eq_false_2 by apply not_elem_of_nil.
  - destruct (Hall c) as [v Hv]; [left|].
    rewrite for_acc_cons. cbv beta.
    assert ((getitem row c ≫= fun v => Returns (dict_set c v acc))
            = Returns (dict_set c v acc)) as ->.
    { unfold mbind, outcome_bind, getitem. by rewrite Hv. }
    destruct (IH (fun c' H => Hall c' (list_elem_of_further _ _ _ H)) (dict_set c v acc))
      as (r & -> & Hr).
    exists r. split; [done|]. intros k. rewrite Hr.
    destruct (decide (k ∈ columns)) as [Hin|Hin].
    + rewrite !bool_decide_eq_true_2; [done| by right | done].
    + rewrite (bool_decide_eq_false_2 _ Hin).
      destruct (decide (k = c)) as [->|Hne].
      * rewrite dict_get_set_eq, bool_decide_eq_true_2; [done|left].
      * rewrite dict_get_set_ne by done.
        rewrite bool_decide_eq_false_2; [done|].
        intros [?|?]%elem_of_cons; done.
Qed.

Lemma project_spec columns row :
  (forall c, c ∈ columns -> is_Some (dict_get c row)) ->
  exists r,
    Table.project columns row = Returns r
    /\ forall k, dict_get k r = if bool_decide (k ∈ columns) then dict_get k row else None.
Proof. intros H. apply (project_acc columns row H []). Qed.

Lemma project_rows columns rows :
  (forall row c, row ∈ rows -> c ∈ columns -> is_Some (dict_get c row)) ->
  forall acc, exists out,
    for_acc rows (fun row acc =>
      r ← Table.project columns row; Returns (acc ++ [r])%list) acc
    = Returns (acc ++ out)%list
    /\ Forall2 (fun row r => forall k,
          dict_get k r = if bool_decide (k ∈ columns) then dict_get k row else None)
         rows out.
Proof.
  induction rows as [|row rows IH]; intros Hall acc.
  - exists []. simpl. by rewrite app_nil_r.
  - destruct (project_spec columns row) as (r & Hr & Hk).
    { intros c Hc. apply Hall; [left|done]. }
    rewrite for_acc_cons. cbv beta.
    assert ((Table.project columns row ≫= fun r => Returns (acc ++ [r])%list)
            = Returns (acc ++ [r])%list) as ->.
    { unfold mbind, outcome_bind. by rewrite Hr. }
    destruct (IH (fun row' c H => Hall row' c (list_elem_of_further _ _ _ H)) (acc ++ [r])%list)
      as (out & -> & Hout).
    exists (r :: out). split.
    + by rewrite <- app_assoc.
    + by constructor.
Qed.




(** ** Copies and aliases *)

Lemma elements_of_insert_eq h l x :
  Objects.elements_of (Objects.mk_store (Objects.dicts h) (<[l := x]> (Objects.lists h))) l = x.
Proof. unfold Objects.elements_of. simpl. by rewrite lookup_insert_eq. Qed.

Lemma elements_of_insert_ne h l l' x :
  l <> l' ->
  Objects.elements_of (Objects.mk_store (Objects.dicts h) (<[l := x]> (Objects.lists h))) l'
  = Objects.elements_of h l'.
Proof. intros H. unfold Objects.elements_of. simpl. by rewrite lookup_insert_ne. Qed.

Lemma row_setitem_run l i k v h r d :
  Objects.elements_of h l !! i = Some r ->
  Objects.dicts h !! r = Some d ->
  Objects.row_setitem l i k v h
  = Objects.mk_store (<[r := dict_set k v d]> (Objects.dicts h)) (Objects.lists h).
Proof. intros H1 H2. unfold Objects.row_setitem. rewrite H1. cbv iota beta. by rewrite H2. Qed.

Lemma list_copy_fresh l h l' :
  is_Some (Objects.lists h !! l') -> (Objects.list_copy l h).1 <> l'.
Proof.
  intros Hl' Heq. simpl in Heq.
  apply elem_of_dom in Hl'. rewrite <- Heq in Hl'.
  by apply is_fresh in Hl'.
Qed.

(** C8 (amended): [select_all] returns a new list object that holds the
    stored row objects themselves, in order.  Appending to the returned
    list, deleting from it or replacing one of its elements leaves the rows
    of the table as they were; assigning to a key of a returned row changes
    that row wherever the table stores it. *)
Theorem select_all_copies_the_list_only (self : Objects.table) (h : Objects.store) :
  is_Some (Objects.lists h !! Objects.rows self) ->
  let l := (Objects.select_all self h).1 in
  let h' := (Objects.select_all self h).2 in
  l <> Objects.rows self
  /\ Objects.elements_of h' l = Objects.elements_of h (Objects.rows self)
  /\ Objects.contents h' l = Objects.stored_rows h self
  /\ Objects.stored_rows h' self = Objects.stored_rows h self
  /\ (forall r, Objects.stored_rows (Objects.list_append l r h') self
                = Objects.stored_rows h self)
  /\ (forall i, Objects.stored_rows (Objects.list_del l i h') self
                = Objects.stored_rows h self)
  /\ (forall i r, Objects.stored_rows (Objects.list_setitem l i r h') self
                  = Objects.stored_rows h self)
  /\ (forall i r k v,
        Objects.elements_of h (Objects.rows self) !! i = Some r ->
        is_Some (Objects.dicts h !! r) ->
        Objects.stored_rows (Objects.row_setitem l i k v h') self
        = (fun r' => if bool_decide (r' = r)
                     then dict_set k v (Objects.deref h r)
                     else Objects.deref h r')
            <$> Objects.elements_of h (Objects.rows self)).
Proof.
  intros Hrows l h'.
  assert (Hne : l <> Objects.rows self) by by apply list_copy_fresh.
  assert (Hl : Objects.elements_of h' l = Objects.elements_of h (Objects.rows self)).
  { apply elements_of_insert_eq. }
  assert (Hs : Objects.elements_of h' (Objects.rows self)
               = Objects.elements_of h (Objects.rows self)).
  { by apply elements_of_insert_ne. }
  split; [done|]. split; [done|].
  split. { unfold Objects.stored_rows, Objects.contents. by rewrite Hl. }
  split. { unfold Objects.stored_rows, Objects.contents. by rewrite Hs. }
  split; [|split; [|split]].
  - intros r. unfold Objects.stored_rows, Objects.contents, Objects.list_append.
    rewrite elements_of_insert_ne by done. by rewrite Hs.
  - intros i. unfold Objects.stored_rows, Objects.contents, Objects.list_del.
    rewrite elements_of_insert_ne by done. by rewrite Hs.
  - intros i r. unfold Objects.stored_rows, Objects.contents, Objects.list_setitem.
    rewrite elements_of_insert_ne by done. by rewrite Hs.
  - intros i r k v Hi [d Hd].
    rewrite (row_setitem_run l i k v h' r d); [|by rewrite Hl|exact Hd].
    unfold Objects.stored_rows, Objects.contents.
    change (Objects.elements_of (Objects.mk_store _ (Objects.lists h')) (Objects.rows self))
      with (Objects.elements_of h' (Objects.rows self)).
    rewrite Hs. apply list_fmap_ext. intros j r' _.
    unfold Objects.deref. cbn [Objects.dicts]. case_bool_decide as Heq.
    + subst r'. rewrite lookup_insert_eq. unfold pydict in *. by rewrite Hd.
    + by rewrite lookup_insert_ne.
Qed.

(** The theorem at the one-row table of [Scenario.one_row_store]. *)
Lemma select_all_on_one_row :
  Objects.stored_rows
    (Objects.row_setitem (Objects.select_all one_row_table one_row_store).1
       0 "id" (VInt 99) (Objects.select_all one_row_table one_row_store).2)
    one_row_table
  = (fun r' => if bool_decide (r' = 0%nat)
               then dict_set "id" (VInt 99) (Objects.deref one_row_store 0)
               else Objects.deref one_row_store r')
      <$> Objects.elements_of one_row_store (Objects.rows one_row_table).
Proof.
  apply (select_all_copies_the_list_only one_row_table one_row_store).
  - vm_compute. eauto.
  - vm_compute. reflexivity.
  - vm_compute. eauto.
Defined.

(** ** Keys outside the schema *)

Lemma dict_has_set_ne k c v d : k <> c -> dict_has c (dict_set k v d) = dict_has c d.
Proof. intros H. unfold dict_has. by rewrite dict_get_set_ne. Qed.

Lemma agree_off_refl k d : agree_off k d d.
Proof. by intros k' _. Qed.

Lemma agree_off_set k v d1 d2 :
  agree_off k d1 d2 -> agree_off k d1 (dict_set k v d2).
Proof. intros H k' Hne. rewrite dict_get_set_ne by done. by apply H. Qed.

Lemma agree_off_set_both k c v d1 d2 :
  agree_off k d1 d2 -> agree_off k (dict_set c v d1) (dict_set c v d2).
Proof.
  intros H k' Hne. destruct (decide (c = k')) as [->|Hc].
  - by rewrite !dict_get_set_eq.
  - rewrite !dict_get_set_ne by done. by apply H.
Qed.

Lemma dict_update_cons d kv u :
  dict_update d (kv :: u) = dict_update (dict_set kv.1 kv.2 d) u.
Proof. reflexivity. Qed.

Lemma dict_update_agree k u :
  forall d1 d2, agree_off k d1 d2 -> agree_off k (dict_update d1 u) (dict_update d2 u).
Proof.
  induction u as [|[c w] u IH]; intros d1 d2 H; [done|].
  rewrite !dict_update_cons. apply IH. by apply agree_off_set_both.
Qed.

Lemma dict_update_set_agree k v u :
  forall d, agree_off k (dict_update d u) (dict_update d (dict_set k v u)).
Proof.
  induction u as [|[c w] u IH]; intros d.
  - simpl. unfold dict_update. simpl. apply agree_off_set, agree_off_refl.
  - simpl. case_bool_decide as Hc.
    + subst c. rewrite !dict_update_cons. simpl. apply dict_update_agree.
      intros k' Hne. by rewrite !dict_get_set_ne.
    + rewrite !dict_update_cons. apply IH.
Qed.

Lemma dict_update_get_notin k u :
  forall d, k ∉ dict_keys u -> dict_get k (dict_update d u) = dict_get k d.
Proof.
  induction u as [|[c w] u IH]; intros d Hk; [done|].
  rewrite dict_update_cons. simpl in *. apply not_elem_of_cons in Hk as [Hne Hk].
  rewrite IH by done. by rewrite dict_get_set_ne.
Qed.

Lemma dict_update_set_get k v u :
  NoDup (dict_keys u) ->
  forall d, dict_get k (dict_update d (dict_set k v u)) = Some v.
Proof.
  induction u as [|[c w] u IH]; intros Hnd d.
  - unfold dict_update. simpl. apply dict_get_set_eq.
  - simpl in *. apply NoDup_cons in Hnd as [Hc Hnd]. case_bool_decide as Heq.
    + subst c. rewrite dict_update_cons. simpl.
      rewrite dict_update_get_notin by done. apply dict_get_set_eq.
    + rewrite dict_update_cons. by apply IH.
Qed.

Lemma primary_key_declared self pk :
  Table.primary_key self = Some pk -> pk ∈ Table.column_names self.
Proof.
  unfold Table.primary_key, Table.column_names. intros H.
  apply fmap_Some in H as (col & Hf & ->).
  apply find_some in Hf as [Hin _]. apply list_elem_of_In in Hin.
  by apply list_elem_of_fmap_2.
Qed.

Lemma truthy_Some o pk : truthy o = Some pk -> o = Some pk.
Proof.
  unfold truthy. destruct o as [s|]; [|done]. by case_bool_decide.
Qed.

Lemma unique_columns_declared self c :
  c ∈ Table.unique_columns self -> c ∈ Table.column_names self.
Proof.
  unfold Table.unique_columns, Table.column_names. intros H.
  apply list_elem_of_fmap in H as (col & -> & Hin).
  apply list_elem_of_In, filter_In in Hin as [Hin _].
  apply list_elem_of_In in Hin. by apply list_elem_of_fmap_2.
Qed.

Lemma for_each_ext {A} (l : list A) (body1 body2 : A -> outcome unit) :
  (forall a, a ∈ l -> body1 a = body2 a) -> for_each l body1 = for_each l body2.
Proof.
  unfold for_each. induction l as [|a l IH]; intros H; [done|].
  rewrite !for_acc_cons. rewrite (H a) by left.
  destruct (body2 a) as [[]|e]; [|done]. apply IH. intros b Hb. apply H. by right.
Qed.

(** ** Runs that differ in the rows only *)

Section undeclared.
Context (cols : list Column.t).


Lemma same_indexes_refl s : Table.columns s = cols -> same_indexes cols s s.
Proof. by repeat split. Qed.

Lemma same_indexes_primary_key s1 s2 :
  same_indexes cols s1 s2 -> Table.primary_key s1 = Table.primary_key s2.
Proof.
  intros (_ & [Hc1 Hc2] & _). unfold Table.primary_key. by rewrite Hc1, Hc2.
Qed.

Lemma same_indexes_unique_columns s1 s2 :
  same_indexes cols s1 s2 -> Table.unique_columns s1 = Table.unique_columns s2.
Proof. intros (_ & [Hc1 Hc2] & _). unfold Table.unique_columns. by rewrite Hc1, Hc2. Qed.

Lemma same_indexes_unique_index s1 s2 c :
  same_indexes cols s1 s2 -> Table.unique_index s1 c = Table.unique_index s2 c.
Proof. intros (_ & _ & _ & Hu & _). unfold Table.unique_index. by rewrite Hu. Qed.

Lemma same_indexes_not_primary_key s1 s2 c :
  same_indexes cols s1 s2 -> Table.not_primary_key s1 c = Table.not_primary_key s2 c.
Proof.
  intros H. unfold Table.not_primary_key. by rewrite (same_indexes_primary_key s1 s2).
Qed.

Lemma sim_bind {A B} (c1 c2 : Table.M A) (k1 k2 : A -> Table.M B) s1 s2 :
  sim cols (c1 s1) (c2 s2) ->
  (forall a s1' s2', same_indexes cols s1' s2' -> sim cols (k1 a s1') (k2 a s2')) ->
  sim cols ((c1 ≫= k1) s1) ((c2 ≫= k2) s2).
Proof.
  intros [Ho Hs] Hk. rewrite !bind_run.
  destruct (c1 s1) as [[a|e] s1'], (c2 s2) as [[a'|e'] s2']; simpl in *; try done.
  - injection Ho as <-. by apply Hk.
  - injection Ho as <-. by split.
Qed.

Lemma sim_get {B} (k1 k2 : Table.t -> Table.M B) s1 s2 :
  sim cols (k1 s1 s1) (k2 s2 s2) ->
  sim cols ((Table.get ≫= k1) s1) ((Table.get ≫= k2) s2).
Proof. done. Qed.

Lemma respects_bind {A B} (c : Table.M A) (k : A -> Table.M B) :
  respects cols c -> (forall a, respects cols (k a)) -> respects cols (c ≫= k).
Proof. intros Hc Hk s1 s2 H. apply sim_bind; [by apply Hc|]. intros a. apply Hk. Qed.

Lemma respects_lift {A} (c : outcome A) : respects cols (Table.lift c).
Proof. intros s1 s2 H. by split. Qed.

Lemma respects_skip : respects cols Table.skip.
Proof. intros s1 s2 H. by split. Qed.

Lemma respects_if {A} (b : bool) (c1 c2 : Table.M A) :
  respects cols c1 -> respects cols c2 -> respects cols (if b then c1 else c2).
Proof. by destruct b. Qed.

Lemma respects_index_put k i : respects cols (Table.index_put k i).
Proof.
  intros s1 s2 (Hn & [Hc1 Hc2] & Hp & Hu & Hl). split; [done|].
  repeat split; simpl; congruence.
Qed.

Lemma respects_index_del k : respects cols (Table.index_del k).
Proof.
  intros s1 s2 (Hn & [Hc1 Hc2] & Hp & Hu & Hl). unfold Table.index_del. rewrite Hp.
  destruct (Table.primary_key_index s2 !! k); split; try done;
    repeat split; simpl; congruence.
Qed.

Lemma respects_unique_add c k : respects cols (Table.unique_add c k).
Proof.
  intros s1 s2 H. split; [done|].
  pose proof (same_indexes_unique_index s1 s2 c H) as Hi.
  destruct H as (Hn & [Hc1 Hc2] & Hp & Hu & Hl).
  repeat split; simpl; congruence.
Qed.

Lemma respects_unique_discard c k : respects cols (Table.unique_discard c k).
Proof.
  intros s1 s2 H. split; [done|].
  pose proof (same_indexes_unique_index s1 s2 c H) as Hi.
  destruct H as (Hn & [Hc1 Hc2] & Hp & Hu & Hl).
  repeat split; simpl; congruence.
Qed.

Lemma sim_rows_put i r1 r2 s1 s2 :
  same_indexes cols s1 s2 -> sim cols (Table.rows_put i r1 s1) (Table.rows_put i r2 s2).
Proof.
  intros (Hn & [Hc1 Hc2] & Hp & Hu & Hl). unfold Table.rows_put. rewrite Hl.
  case_bool_decide; split; try done; repeat split; simpl; try congruence.
  by rewrite !length_insert.
Qed.

Lemma sim_for_accM {A S} (l : list A) (body1 body2 : A -> S -> Table.M S) :
  (forall a s s1 s2, a ∈ l -> same_indexes cols s1 s2 -> sim cols (body1 a s s1) (body2 a s s2)) ->
  forall s s1 s2, same_indexes cols s1 s2 ->
  sim cols (Table.for_accM l body1 s s1) (Table.for_accM l body2 s s2).
Proof.
  induction l as [|a l IH]; intros Hbody s s1 s2 H.
  - by split.
  - simpl. apply sim_bind.
    + apply Hbody; [left|done].
    + intros s' s1' s2' H'. apply IH; [|done].
      intros b t t1 t2 Hb. apply Hbody. by right.
Qed.

Lemma sim_for_M {A} (l : list A) (body1 body2 : A -> Table.M unit) :
  (forall a s1 s2, a ∈ l -> same_indexes cols s1 s2 -> sim cols (body1 a s1) (body2 a s2)) ->
  forall s1 s2, same_indexes cols s1 s2 ->
  sim cols (Table.for_M l body1 s1) (Table.for_M l body2 s2).
Proof.
  intros H. unfold Table.for_M. apply sim_for_accM.
  intros a [] s1 s2. apply H.
Qed.

(** *** Validation does not look at undeclared keys *)

Lemma fill_missing_keeps self row row' key w :
  Table.fill_missing self row = Returns row' ->
  dict_get key row = Some w -> dict_get key row' = Some w.
Proof.
  unfold Table.fill_missing. generalize (Table.columns self). intros cs.
  revert row. induction cs as [|col cs IH]; intros row Hrun Hget.
  - injection Hrun as <-. done.
  - rewrite for_acc_cons in Hrun. cbv beta in Hrun.
    destruct (dict_has (Column.name col) row) eqn:Ehas.
    + by apply (IH row).
    + destruct (Column.not_null col); [done|].
      apply (IH _ Hrun). rewrite dict_get_set_ne; [done|].
      intros <-. unfold dict_has in Ehas. by rewrite Hget in Ehas.
Qed.

Lemma fill_missing_sim self k row1 row2 :
  k ∉ Table.column_names self ->
  agree_off k row1 row2 ->
  match Table.fill_missing self row1, Table.fill_missing self row2 with
  | Returns r1, Returns r2 => agree_off k r1 r2
  | Raises e1, Raises e2 => e1 = e2
  | _, _ => False
  end.
Proof.
  unfold Table.fill_missing, Table.column_names.
  generalize (Table.columns self). intros cs. revert row1 row2.
  induction cs as [|col cs IH]; intros row1 row2 Hk Hag; [done|].
  simpl in Hk. apply not_elem_of_cons in Hk as [Hne Hk].
  rewrite !for_acc_cons. cbv beta.
  assert (dict_has (Column.name col) row1 = dict_has (Column.name col) row2) as ->.
  { unfold dict_has. by rewrite (Hag (Column.name col)). }
  destruct (dict_has (Column.name col) row2); [by apply IH|].
  destruct (Column.not_null col); [done|].
  apply IH; [done|]. by apply agree_off_set_both.
Qed.

Lemma getitem_agree k c row1 row2 :
  agree_off k row1 row2 -> c <> k -> getitem row1 c = getitem row2 c.
Proof. intros H Hne. unfold getitem. by rewrite (H c). Qed.

Lemma check_types_agree self k row1 row2 :
  k ∉ Table.column_names self -> agree_off k row1 row2 ->
  Table.check_types self row1 = Table.check_types self row2.
Proof.
  intros Hk Hag. unfold Table.check_types. apply for_each_ext.
  intros col Hcol. rewrite (getitem_agree k _ row1 row2); [done|done|].
  intros Heq. apply Hk. rewrite <- Heq. by apply list_elem_of_fmap_2.
Qed.

Lemma check_primary_key_agree self k row1 row2 :
  k ∉ Table.column_names self -> agree_off k row1 row2 ->
  Table.check_primary_key self row1 = Table.check_primary_key self row2.
Proof.
  intros Hk Hag. unfold Table.check_primary_key.
  destruct (truthy (Table.primary_key self)) as [pk|] eqn:Epk; [|done].
  rewrite (getitem_agree k pk row1 row2); [done|done|].
  intros ->. by apply Hk, primary_key_declared, truthy_Some.
Qed.

Lemma check_unique_agree self k row1 row2 :
  k ∉ Table.column_names self -> agree_off k row1 row2 ->
  Table.check_unique self row1 = Table.check_unique self row2.
Proof.
  intros Hk Hag. unfold Table.check_unique. apply for_each_ext.
  intros c Hc. rewrite (getitem_agree k c row1 row2); [done|done|].
  intros ->. by apply Hk, unique_columns_declared.
Qed.

Lemma validate_row_sim self k row1 row2 :
  k ∉ Table.column_names self ->
  agree_off k row1 row2 ->
  match Table.validate_row self row1, Table.validate_row self row2 with
  | Returns r1, Returns r2 => agree_off k r1 r2
  | Raises e1, Raises e2 => e1 = e2
  | _, _ => False
  end.
Proof.
  intros Hk Hag. unfold Table.validate_row.
  pose proof (fill_missing_sim self k row1 row2 Hk Hag) as Hfill.
  destruct (Table.fill_missing self row1) as [r1|e1],
           (Table.fill_missing self row2) as [r2|e2]; try done.
  unfold mbind, outcome_bind.
  rewrite (check_types_agree self k r1 r2 Hk Hfill).
  rewrite (check_primary_key_agree self k r1 r2 Hk Hfill).
  rewrite (check_unique_agree self k r1 r2 Hk Hfill).
  destruct (Table.check_types self r2); [|done].
  destruct (Table.check_primary_key self r2); [|done].
  by destruct (Table.check_unique self r2).
Qed.

Lemma validate_row_keeps self row row' key w :
  Table.validate_row self row = Returns row' ->
  dict_get key row = Some w -> dict_get key row' = Some w.
Proof.
  intros H. apply validate_row_Returns in H as [H _].
  by apply (fill_missing_keeps self row).
Qed.

(** *** [insert] with an undeclared key *)

Lemma index_primary_key_rows self row i s :
  Table.rows (Table.index_primary_key self row i s).2 = Table.rows s.
Proof. unfold Table.index_primary_key. destruct (truthy _); frame. Qed.

Lemma add_unique_values_rows self row s :
  Table.rows (Table.add_unique_values self row s).2 = Table.rows s.
Proof.
  unfold Table.add_unique_values. apply for_M_frame.
  intros c s'. unfold Table.add_unique_value. frame.
Qed.

Lemma insert_rows row self s' :
  Table.insert row self = (Returns tt, s') ->
  exists row', Table.validate_row self row = Returns row'
    /\ Table.rows s' = (Table.rows self ++ [row'])%list.
Proof.
  unfold Table.insert. rewrite bind_run. unfold Table.get at 1.
  rewrite bind_run. unfold Table.lift at 1.
  destruct (Table.validate_row self row) as [row'|e]; [|done].
  rewrite bind_run. unfold Table.modify at 1. rewrite bind_run.
  set (s1 := Table.set_rows _ self).
  pose proof (index_primary_key_rows self row' (length (Table.rows self)) s1) as H1.
  destruct (Table.index_primary_key _ _ _ s1) as [[[]|e] s2]; [|done].
  pose proof (add_unique_values_rows self row' s2) as H2.
  intros H. rewrite H in H2. simpl in *. exists row'. split; [done|].
  by rewrite H2, H1.
Qed.

Lemma sim_index_primary_key self k row1 row2 i s1 s2 :
  k ∉ Table.column_names self -> agree_off k row1 row2 ->
  same_indexes cols s1 s2 ->
  sim cols (Table.index_primary_key self row1 i s1) (Table.index_primary_key self row2 i s2).
Proof.
  intros Hk Hag H. unfold Table.index_primary_key.
  destruct (truthy (Table.primary_key self)) as [pk|] eqn:Epk; [|by split].
  rewrite (getitem_agree k pk row1 row2); [|done|].
  - apply respects_bind; [apply respects_lift| |done].
    intros a. apply respects_index_put.
  - intros ->. by apply Hk, primary_key_declared, truthy_Some.
Qed.

Lemma sim_add_unique_values self k row1 row2 s1 s2 :
  k ∉ Table.column_names self -> agree_off k row1 row2 ->
  same_indexes cols s1 s2 ->
  sim cols (Table.add_unique_values self row1 s1) (Table.add_unique_values self row2 s2).
Proof.
  intros Hk Hag. unfold Table.add_unique_values. apply sim_for_M.
  intros c t1 t2 Hc Ht. unfold Table.add_unique_value.
  rewrite (getitem_agree k c row1 row2); [|done|].
  - revert t1 t2 Ht. apply respects_if; [|apply respects_skip].
    apply respects_bind; [apply respects_lift|].
    intros a. apply respects_if; [apply respects_skip|apply respects_unique_add].
  - intros ->. by apply Hk, unique_columns_declared.
Qed.

Lemma sim_insert self k row1 row2 :
  Table.columns self = cols ->
  k ∉ Table.column_names self -> agree_off k row1 row2 ->
  sim cols (Table.insert row1 self) (Table.insert row2 self).
Proof.
  intros Hcols Hk Hag. unfold Table.insert. apply sim_get.
  rewrite !bind_run. unfold Table.lift.
  pose proof (validate_row_sim self k row1 row2 Hk Hag) as Hv.
  destruct (Table.validate_row self row1) as [r1|e1],
           (Table.validate_row self row2) as [r2|e2]; try done.
  2:{ subst e2. split; [done|by apply same_indexes_refl]. }
  apply sim_bind.
  { split; [done|]. repeat split; simpl; try done. by rewrite !length_app. }
  intros [] s1 s2 H. apply sim_bind.
  { by apply (sim_index_primary_key self k). }
  intros [] t1 t2 H'. by apply (sim_add_unique_values self k).
Qed.

(** *** [update] with an undeclared key *)

Ltac by_respects Hs :=
  match goal with
  | |- sim ?cols (?c ?s1) (_ ?s2) =>
      change (sim cols (c s1) (c s2)); apply (fun H : respects cols c => H s1 s2 Hs)
  end.

Lemma respects_get {A} (k : Table.t -> Table.M A) :
  (forall s1 s2, same_indexes cols s1 s2 -> sim cols (k s1 s1) (k s2 s2)) ->
  respects cols (Table.get ≫= k).
Proof. intros H s1 s2 Hs. by apply sim_get, H. Qed.

Lemma declared_in_cols s1 s2 c :
  same_indexes cols s1 s2 -> c ∈ Table.column_names s1 -> c ∈ Column.name <$> cols.
Proof. intros (_ & [<- _] & _). done. Qed.

Lemma check_updated_types_agree s1 s2 k u1 u2 new1 new2 :
  same_indexes cols s1 s2 ->
  k ∉ Column.name <$> cols ->
  (forall c, c <> k -> dict_has c u1 = dict_has c u2) ->
  agree_off k new1 new2 ->
  Table.check_updated_types s1 u1 new1 = Table.check_updated_types s2 u2 new2.
Proof.
  intros Hs Hk Hu Hag. unfold Table.check_updated_types.
  destruct Hs as (_ & [-> ->] & _). apply for_each_ext. intros col Hcol.
  assert (Column.name col <> k) as Hne.
  { intros Heq. apply Hk. rewrite <- Heq. by apply list_elem_of_fmap_2. }
  by rewrite (Hu _ Hne), (getitem_agree k _ new1 new2).
Qed.

Lemma sim_move_primary_key k u1 u2 old new1 new2 i s1 s2 :
  same_indexes cols s1 s2 ->
  k ∉ Column.name <$> cols ->
  (forall c, c <> k -> dict_has c u1 = dict_has c u2) ->
  agree_off k new1 new2 ->
  sim cols (Table.move_primary_key u1 old new1 i s1)
    (Table.move_primary_key u2 old new2 i s2).
Proof.
  intros Hs Hk Hu Hag. unfold Table.move_primary_key. apply sim_get.
  rewrite <- (same_indexes_primary_key s1 s2 Hs).
  destruct (truthy (Table.primary_key s1)) as [pk|] eqn:Epk; [|by split].
  assert (pk <> k) as Hne.
  { intros ->. apply Hk, (declared_in_cols s1 s2 k Hs).
    by apply primary_key_declared, truthy_Some. }
  rewrite <- (Hu pk Hne), <- (getitem_agree k pk new1 new2 Hag Hne).
  clear Epk. by_respects Hs. apply respects_if; [|apply respects_skip].
  apply respects_bind; [apply respects_lift|]. intros old_pk.
  apply respects_bind; [apply respects_lift|]. intros new_pk.
  apply respects_get. clear s1 s2 Hs. intros s1 s2 Hs.
  assert (Table.primary_key_index s1 = Table.primary_key_index s2) as ->
    by apply Hs.
  by_respects Hs.
  apply respects_bind; [apply respects_lift|]. intros _.
  apply respects_bind; [apply respects_index_del|]. intros _.
  apply respects_index_put.
Qed.

Lemma sim_move_unique_values k u1 u2 old new1 new2 s1 s2 :
  same_indexes cols s1 s2 ->
  k ∉ Column.name <$> cols ->
  (forall c, c <> k -> dict_has c u1 = dict_has c u2) ->
  agree_off k new1 new2 ->
  sim cols (Table.move_unique_values u1 old new1 s1)
    (Table.move_unique_values u2 old new2 s2).
Proof.
  intros Hs Hk Hu Hag. unfold Table.move_unique_values. apply sim_get.
  rewrite <- (same_indexes_unique_columns s1 s2 Hs).
  apply sim_for_M; [|done].
  intros c t1 t2 Hc Ht. unfold Table.move_unique_value.
  assert (c <> k) as Hne.
  { intros ->. apply Hk, (declared_in_cols s1 s2 k Hs).
    by apply unique_columns_declared. }
  rewrite <- (Hu c Hne), <- (getitem_agree k c new1 new2 Hag Hne).
  rewrite <- (same_indexes_not_primary_key s1 s2 c Hs).
  by_respects Ht.
  apply respects_if; [|apply respects_skip].
  apply respects_bind; [apply respects_lift|]. intros old_value.
  apply respects_bind; [apply respects_lift|]. intros new_value.
  apply respects_if; [|apply respects_skip].
  apply respects_get. clear t1 t2 Ht. intros t1 t2 Ht.
  rewrite (same_indexes_unique_index t1 t2 c Ht).
  by_respects Ht.
  apply respects_bind; [apply respects_lift|]. intros _.
  apply respects_bind.
  - apply respects_if; [apply respects_unique_discard|apply respects_skip].
  - intros _. apply respects_if; [apply respects_unique_add|apply respects_skip].
Qed.

Lemma sim_update_row k u1 u2 entry s1 s2 :
  same_indexes cols s1 s2 ->
  k ∉ Column.name <$> cols ->
  (forall c, c <> k -> dict_has c u1 = dict_has c u2) ->
  (forall old, agree_off k (dict_update old u1) (dict_update old u2)) ->
  sim cols (Table.update_row u1 entry s1) (Table.update_row u2 entry s2).
Proof.
  intros Hs Hk Hu Hag. destruct entry as [i old]. unfold Table.update_row.
  apply sim_get. apply sim_bind.
  { rewrite (check_updated_types_agree s1 s2 k u1 u2 _ _ Hs Hk Hu (Hag old)).
    by split. }
  intros [] t1 t2 Ht. apply sim_bind.
  { by apply (sim_move_primary_key k). }
  clear t1 t2 Ht. intros [] t1 t2 Ht. apply sim_bind.
  { by apply (sim_move_unique_values k). }
  clear t1 t2 Ht. intros [] t1 t2 Ht. by apply sim_rows_put.
Qed.

Lemma sim_update k u1 u2 condition self :
  Table.columns self = cols ->
  k ∉ Column.name <$> cols ->
  (forall c, c <> k -> dict_has c u1 = dict_has c u2) ->
  (forall old, agree_off k (dict_update old u1) (dict_update old u2)) ->
  sim cols (Table.update u1 condition self) (Table.update u2 condition self).
Proof.
  intros Hcols Hk Hu Hag. unfold Table.update. apply sim_get.
  apply sim_for_accM; [|by apply same_indexes_refl].
  intros entry n s1 s2 _ Hs. apply sim_bind.
  - by apply (sim_update_row k).
  - intros [] t1 t2 Ht. by split.
Qed.

End undeclared.

Lemma dict_get_notin k d : k ∉ dict_keys d -> dict_get k d = None.
Proof.
  induction d as [|[c w] d IH]; intros H; [done|].
  simpl in *. apply not_elem_of_cons in H as [Hne H].
  rewrite bool_decide_eq_false_2 by done. by apply IH.
Qed.

(** [d.update(u)] read key by key: the value of [u] where it has one. *)
Lemma dict_update_get c u :
  NoDup (dict_keys u) ->
  forall d, dict_get c (dict_update d u)
            = match dict_get c u with Some w => Some w | None => dict_get c d end.
Proof.
  induction u as [|[c' w] u IH]; intros Hnd d; [done|].
  rewrite dict_update_cons. simpl in *. apply NoDup_cons in Hnd as [Hc' Hnd].
  rewrite IH by done. case_bool_decide as Heq.
  - subst c'. rewrite dict_get_notin by done. apply dict_get_set_eq.
  - by rewrite dict_get_set_ne.
Qed.

Lemma dict_update_agree_off k u1 u2 d :
  NoDup (dict_keys u1) -> NoDup (dict_keys u2) ->
  agree_off k u1 u2 -> agree_off k (dict_update d u1) (dict_update d u2).
Proof.
  intros H1 H2 Hag c Hne. rewrite !dict_update_get by done. by rewrite (Hag c).
Qed.

(** C10: a key outside the schema is never looked at.  A row or an
    assignment mapping with the undeclared key [k] bound to [v] gets the
    verdict of the mapping without it, and leaves the same indexes; so
    whenever the mapping without [k] is accepted, the mapping with [k] is
    accepted too, and the inserted row, or each updated row, holds [v] under
    [k]. *)
Theorem undeclared_keys_are_stored (self : Table.t) (k : string) (v : value) :
  k ∉ Table.column_names self ->
  (forall row row_k,
     agree_off k row row_k -> dict_get k row_k = Some v ->
     (Table.insert row_k self).1 = (Table.insert row self).1
     /\ same_indexes (Table.columns self)
          (Table.insert row self).2 (Table.insert row_k self).2
     /\ forall s, Table.insert row self = (Returns tt, s) ->
          exists s' row',
            Table.insert row_k self = (Returns tt, s')
            /\ Table.rows s' = (Table.rows self ++ [row'])%list
            /\ dict_get k row' = Some v)
  /\ (forall updates updates_k condition,
        NoDup (dict_keys updates) -> NoDup (dict_keys updates_k) ->
        agree_off k updates updates_k -> dict_get k updates_k = Some v ->
        (Table.update updates_k condition self).1
        = (Table.update updates condition self).1
        /\ same_indexes (Table.columns self)
             (Table.update updates condition self).2
             (Table.update updates_k condition self).2
        /\ forall n s, Table.update updates condition self = (Returns n, s) ->
             exists s',
               Table.update updates_k condition self = (Returns n, s')
               /\ forall i row, Table.rows self !! i = Some row ->
                    condition row = true ->
                    exists row', Table.rows s' !! i = Some row'
                                 /\ dict_get k row' = Some v).
Proof.
  intros Hk. split.
  - intros row row_k Hag Hget.
    destruct (sim_insert (Table.columns self) self k row row_k eq_refl Hk Hag)
      as [Ho Hs].
    split; [done|]. split; [done|]. intros s Hs0.
    rewrite Hs0 in Ho. simpl in Ho.
    destruct (Table.insert row_k self) as [o s'] eqn:Hrun. simpl in Ho. subst o.
    destruct (insert_rows row_k self s' Hrun) as (row' & Hv & Hrows).
    exists s', row'. split; [done|]. split; [done|].
    by apply (validate_row_keeps self row_k).
  - intros updates updates_k condition Hnd Hnd_k Hag Hget.
    destruct (sim_update (Table.columns self) k updates updates_k condition self
                eq_refl Hk) as [Ho Hs].
    { intros c Hne. unfold dict_has. by rewrite (Hag c). }
    { intros old. by apply dict_update_agree_off. }
    split; [done|]. split; [done|]. intros n s Hs0.
    rewrite Hs0 in Ho. simpl in Ho.
    destruct (Table.update updates_k condition self) as [o s'] eqn:Hrun.
    simpl in Ho. subst o. exists s'. split; [done|]. intros i row Hi Hc.
    pose proof (update_loop updates_k (Table.matching condition self) 0%nat self) as H.
    unfold Table.update in Hrun. rewrite bind_run in Hrun.
    unfold Table.get at 1 in Hrun. rewrite Hrun in H. destruct H as [_ Hrows].
    rewrite Hrows, rows_after_matching, list_lookup_fmap, Hi. simpl. rewrite Hc.
    eexists. split; [done|]. rewrite dict_update_get by done. by rewrite Hget.
Qed.

(** The theorem at the two users and the key ["note"]: a third user with a
    note is inserted, and the first user is given an age and a note. *)
Lemma undeclared_note_is_stored :
  ("note" ∉ Table.column_names users)
  /\ (exists s' row',
        Table.insert [("id", VInt 3); ("email", VStr "c@x.com"); ("note", VStr "x")]
          users = (Returns tt, s')
        /\ Table.rows s' = (Table.rows users ++ [row'])%list
        /\ dict_get "note" row' = Some (VStr "x"))
  /\ (exists s',
        Table.update [("age", VInt 31); ("note", VStr "x")] (id_is 1) users
        = (Returns 1%nat, s')
        /\ forall i row, Table.rows users !! i = Some row -> id_is 1 row = true ->
             exists row', Table.rows s' !! i = Some row'
                          /\ dict_get "note" row' = Some (VStr "x")).
Proof.
  assert ("note" ∉ Table.column_names users) as Hk.
  { vm_compute. intros H. repeat (apply elem_of_cons in H as [H|H]; [done|]).
    by apply elem_of_nil in H. }
  split; [exact Hk|].
  destruct (undeclared_keys_are_stored users "note" (VStr "x") Hk) as [Hins Hupd].
  split.
  - destruct (Hins [("id", VInt 3); ("email", VStr "c@x.com")]
                [("id", VInt 3); ("email", VStr "c@x.com"); ("note", VStr "x")])
      as (_ & _ & H).
    + intros c Hne. simpl. rewrite !(bool_decide_eq_false_2 ("note" = c)); [done|].
      intros Heq. by apply Hne.
    + reflexivity.
    + apply (H (Table.insert [("id", VInt 3); ("email", VStr "c@x.com")] users).2).
      vm_compute. reflexivity.
  - destruct (Hupd [("age", VInt 31)] [("age", VInt 31); ("note", VStr "x")] (id_is 1))
      as (_ & _ & H).
    + apply NoDup_singleton.
    + apply NoDup_cons. split; [|apply NoDup_singleton].
      intros H. by apply list_elem_of_singleton in H.
    + intros c Hne. simpl. rewrite !(bool_decide_eq_false_2 ("note" = c)); [done|].
      intros Heq. by apply Hne.
    + reflexivity.
    + apply (H 1%nat (Table.update [("age", VInt 31)] (id_is 1) users).2).
      vm_compute. reflexivity.
Defined.

(** ** Null primary keys *)

Lemma index_primary_key_frame_unique self row i s :
  Table.unique_indexes (Table.index_primary_key self row i s).2 = Table.unique_indexes s.
Proof. unfold Table.index_primary_key. destruct (truthy _); frame. Qed.

Lemma add_unique_values_index self row s :
  Table.primary_key_index (Table.add_unique_values self row s).2
  = Table.primary_key_index s.
Proof.
  unfold Table.add_unique_values. apply for_M_frame.
  intros c s'. unfold Table.add_unique_value. frame.
Qed.

(** A validated row is inserted without further error. *)
Lemma insert_returns self row row' :
  Table.validate_row self row = Returns row' ->
  exists s', Table.insert row self = (Returns tt, s').
Proof.
  intros Hv. unfold Table.insert. rewrite bind_run. unfold Table.get at 1.
  rewrite bind_run. unfold Table.lift at 1. rewrite Hv.
  apply validate_row_Returns in Hv as (_ & _ & Hpk & Hun).
  rewrite bind_run. unfold Table.modify at 1. rewrite bind_run.
  set (s1 := Table.set_rows _ self).
  assert (exists s2, Table.index_primary_key self row' (length (Table.rows self)) s1
                     = (Returns tt, s2)) as [s2 ->].
  { unfold Table.index_primary_key.
    destruct (truthy (Table.primary_key self)) as [pk|] eqn:Epk; [|by eexists].
    destruct (check_primary_key_Returns _ _ _ Hpk Epk) as (v & Hget & _).
    rewrite bind_run. unfold Table.lift at 1, getitem. rewrite Hget. by eexists. }
  destruct (add_unique_values_loop self row' (Table.unique_columns self) s2)
    as (s' & Hrun & _).
  { eapply Forall_impl; [apply check_unique_Returns, Hun|].
    intros c H Hnp. destruct (H Hnp) as (v & Hget & _). by exists v. }
  exists s'. exact Hrun.
Qed.

Lemma insert_raises self row e :
  Table.validate_row self row = Raises e -> Table.insert row self = (Raises e, self).
Proof.
  intros Hv. unfold Table.insert. rewrite bind_run. unfold Table.get at 1.
  rewrite bind_run. unfold Table.lift at 1. by rewrite Hv.
Qed.

(** The primary-key index after an insert that returned. *)
Lemma insert_index row self s' pk :
  Table.insert row self = (Returns tt, s') ->
  truthy (Table.primary_key self) = Some pk ->
  exists row' v,
    Table.validate_row self row = Returns row'
    /\ Table.rows s' = (Table.rows self ++ [row'])%list
    /\ dict_get pk row' = Some v
    /\ Table.primary_key_index self !! key_of v = None
    /\ Table.primary_key_index s'
       = <[key_of v := length (Table.rows self)]> (Table.primary_key_index self).
Proof.
  intros Hrun Epk.
  destruct (insert_rows row self s' Hrun) as (row' & Hv & Hrows).
  exists row'.
  pose proof Hv as Hv'. apply validate_row_Returns in Hv' as (_ & _ & Hpk & _).
  destruct (check_primary_key_Returns _ _ _ Hpk Epk) as (v & Hget & Hfree).
  exists v. repeat (split; [done|]).
  revert Hrun. unfold Table.insert. rewrite bind_run. unfold Table.get at 1.
  rewrite bind_run. unfold Table.lift at 1. rewrite Hv.
  rewrite bind_run. unfold Table.modify at 1. rewrite bind_run.
  set (s1 := Table.set_rows _ self).
  unfold Table.index_primary_key at 1. rewrite Epk.
  rewrite bind_run. unfold Table.lift at 1, getitem. rewrite Hget.
  unfold Table.index_put, Table.modify.
  set (s2 := Table.set_primary_key_index _ s1).
  pose proof (add_unique_values_index self row' s2) as Hi.
  intros Hrun. rewrite Hrun in Hi. simpl in Hi. done.
Qed.

(** A missing column with the flag [not_null] stops the first block of
    [validate_row]. *)
Lemma fill_missing_raises self col row :
  NoDup (Table.column_names self) ->
  col ∈ Table.columns self -> Column.not_null col = true ->
  dict_has (Column.name col) row = false ->
  exists c, Table.fill_missing self row = Raises (ValueError (CannotBeNull c)).
Proof.
  unfold Table.fill_missing, Table.column_names.
  generalize (Table.columns self). intros cs. revert row.
  induction cs as [|c0 cs IH]; intros row Hnd Hin Hnn Hhas.
  - by apply elem_of_nil in Hin.
  - simpl in Hnd. apply NoDup_cons in Hnd as [Hc0 Hnd].
    rewrite for_acc_cons. cbv beta.
    apply elem_of_cons in Hin as [<-|Hin].
    + rewrite Hhas, Hnn. by eexists.
    + destruct (dict_has (Column.name c0) row); [by apply IH|].
      destruct (Column.not_null c0); [by eexists|].
      apply IH; try done. rewrite dict_has_set_ne; [done|].
      intros Heq. apply Hc0. rewrite Heq. by apply list_elem_of_fmap_2.
Qed.

(** The first block on a row without the key column [pk], next to its run
    on a row that agrees with it on the other columns. *)
Lemma fill_missing_null self pk row row_v r_v :
  (forall col, col ∈ Table.columns self -> Column.name col = pk ->
               Column.not_null col = false) ->
  agree_off pk row row_v ->
  Table.fill_missing self row_v = Returns r_v ->
  (dict_has pk row = false \/ dict_get pk row = Some VNone) ->
  pk ∈ Table.column_names self ->
  exists r, Table.fill_missing self row = Returns r
    /\ agree_off pk r r_v /\ dict_get pk r = Some VNone.
Proof.
  unfold Table.fill_missing, Table.column_names.
  generalize (Table.columns self). intros cs. revert row row_v.
  induction cs as [|c0 cs IH]; intros row row_v Hflag Hag Hrun Hnull Hpk.
  - by apply elem_of_nil in Hpk.
  - rewrite for_acc_cons in Hrun. cbv beta in Hrun. rewrite for_acc_cons. cbv beta.
    assert (Hflag' : forall col, col ∈ cs -> Column.name col = pk ->
                                 Column.not_null col = false).
    { intros col Hc. apply Hflag. by right. }
    assert (Hrest : forall row1 row2,
              agree_off pk row1 row2 ->
              for_acc cs (fun col row =>
                if dict_has (Column.name col) row then Returns row
                else if Column.not_null col
                     then Raises (ValueError (CannotBeNull (Column.name col)))
                     else Returns (dict_set (Column.name col) VNone row)) row2
              = Returns r_v ->
              dict_get pk row1 = Some VNone ->
              exists r, for_acc cs (fun col row =>
                if dict_has (Column.name col) row then Returns row
                else if Column.not_null col
                     then Raises (ValueError (CannotBeNull (Column.name col)))
                     else Returns (dict_set (Column.name col) VNone row)) row1
                = Returns r /\ agree_off pk r r_v /\ dict_get pk r = Some VNone).
    { clear IH Hrun Hag Hnull Hpk Hflag row row_v.
      induction cs as [|c1 cs IH1]; intros row1 row2 Hag Hrun Hget.
      - injection Hrun as <-. by exists row1.
      - rewrite for_acc_cons in Hrun. cbv beta in Hrun. rewrite for_acc_cons. cbv beta.
        destruct (decide (Column.name c1 = pk)) as [Heq|Hne].
        + unfold dict_has at 1. rewrite Heq, Hget.
          apply (IH1 (fun col Hc => Hflag' col (list_elem_of_further _ _ _ Hc))
                   row1 (match dict_has pk row2 with
                         | true => row2 | false => dict_set pk VNone row2 end)).
          * destruct (dict_has pk row2); [done|]. by apply agree_off_set.
          * rewrite Heq in Hrun. destruct (dict_has pk row2); [done|].
            rewrite (Hflag' c1) in Hrun; [done|left|done].
          * done.
        + assert (dict_has (Column.name c1) row1 = dict_has (Column.name c1) row2) as ->.
          { unfold dict_has. by rewrite (Hag (Column.name c1)). }
          destruct (dict_has (Column.name c1) row2).
          * by apply (IH1 (fun col Hc => Hflag' col (list_elem_of_further _ _ _ Hc))
                        row1 row2).
          * destruct (Column.not_null c1); [done|].
            apply (IH1 (fun col Hc => Hflag' col (list_elem_of_further _ _ _ Hc))
                     _ (dict_set (Column.name c1) VNone row2)); try done.
            -- by apply agree_off_set_both.
            -- by rewrite dict_get_set_ne. }
    destruct (decide (Column.name c0 = pk)) as [Heq|Hne].
    + rewrite Heq in *.
      assert (exists row1, (if dict_has pk row then Returns row
                else if Column.not_null c0
                     then Raises (ValueError (CannotBeNull pk))
                     else Returns (dict_set pk VNone row)) = Returns row1
              /\ agree_off pk row1 row_v /\ dict_get pk row1 = Some VNone)
        as (row1 & -> & Hag1 & Hget1).
      { destruct Hnull as [Hno|Hget].
        - rewrite Hno, (Hflag c0); [|left|done]. eexists. split; [done|]. split.
          + intros k' Hk'. rewrite dict_get_set_ne by done. by apply Hag.
          + apply dict_get_set_eq.
        - unfold dict_has. rewrite Hget. by eexists. }
      apply (Hrest row1 (match dict_has pk row_v with
                         | true => row_v | false => dict_set pk VNone row_v end)).
      * destruct (dict_has pk row_v); [done|]. by apply agree_off_set.
      * destruct (dict_has pk row_v); [done|].
        rewrite (Hflag c0) in Hrun; [done|left|done].
      * done.
    + assert (dict_has (Column.name c0) row = dict_has (Column.name c0) row_v) as ->.
      { unfold dict_has. by rewrite (Hag (Column.name c0)). }
      simpl in Hpk. apply elem_of_cons in Hpk as [Hpk|Hpk]; [done|].
      destruct (dict_has (Column.name c0) row_v).
      * by apply (IH row row_v).
      * destruct (Column.not_null c0); [done|].
        apply (IH _ (dict_set (Column.name c0) VNone row_v)); try done.
        -- by apply agree_off_set_both.
        -- destruct Hnull as [Hno|Hget]; [left|right].
           ++ by rewrite dict_has_set_ne.
           ++ by rewrite dict_get_set_ne.
Qed.

Lemma not_primary_key_ne self c pk :
  Table.primary_key self = Some pk ->
  Table.not_primary_key self c = true -> c <> pk.
Proof.
  unfold Table.not_primary_key. intros -> H Heq. subst c.
  by apply bool_decide_eq_true_1 in H.
Qed.

(** A row with a null key passes [validate_row] where the same row with
    another key does, when the null key is free and the key column leaves
    [not_null] unset. *)
Lemma validate_row_null self pk row row_v r_v :
  truthy (Table.primary_key self) = Some pk ->
  (forall col, col ∈ Table.columns self -> Column.name col = pk ->
               Column.not_null col = false) ->
  agree_off pk row row_v ->
  (dict_has pk row = false \/ dict_get pk row = Some VNone) ->
  Table.primary_key_index self !! KNone = None ->
  Table.validate_row self row_v = Returns r_v ->
  exists r, Table.validate_row self row = Returns r /\ dict_get pk r = Some VNone.
Proof.
  intros Epk Hflag Hag Hnull Hfree Hv.
  apply validate_row_Returns in Hv as (Hfill & Hty & _ & Hun).
  pose proof (truthy_Some _ _ Epk) as Hpk.
  destruct (fill_missing_null self pk row row_v r_v Hflag Hag Hfill Hnull)
    as (r & Hfill' & Hag' & Hget).
  { by apply primary_key_declared. }
  exists r. split; [|done]. apply validate_row_Returns.
  split; [done|]. split; [|split].
  - unfold Table.check_types in *. rewrite for_each_Returns in *.
    eapply Forall_impl; [exact Hty|]. intros col Hcol. simpl in *.
    destruct (decide (Column.name col = pk)) as [Heq|Hne].
    + unfold mbind, outcome_bind, getitem. by rewrite Heq, Hget.
    + by rewrite (getitem_agree pk _ r r_v).
  - unfold Table.check_primary_key. rewrite Epk.
    unfold mbind, outcome_bind, getitem. rewrite Hget. simpl.
    rewrite bool_decide_eq_false_2; [done|]. rewrite Hfree. by intros [? ?].
  - unfold Table.check_unique in *. rewrite for_each_Returns in *.
    eapply Forall_impl; [exact Hun|]. intros c Hc. simpl in *.
    destruct (Table.not_primary_key self c) eqn:Enp; [|done].
    rewrite (getitem_agree pk c r r_v); [done|done|].
    by apply (not_primary_key_ne self).
Qed.

Lemma for_each_raises {A} (l : list A) (body : A -> outcome unit) a e :
  a ∈ l -> body a = Raises e -> exists e', for_each l body = Raises e'.
Proof.
  unfold for_each. induction l as [|b l IH]; intros Hin Hb.
  - by apply elem_of_nil in Hin.
  - rewrite for_acc_cons. apply elem_of_cons in Hin as [<-|Hin].
    + rewrite Hb. by eexists.
    + destruct (body b) as [[]|e0]; [by apply IH|by eexists].
Qed.

(** An assignment of [None] to a column with the flag [not_null] stops
    [update] at the first matched row, before anything has changed. *)
Lemma update_null_raises self col updates condition entry rest :
  col ∈ Table.columns self -> Column.not_null col = true ->
  NoDup (dict_keys updates) ->
  dict_get (Column.name col) updates = Some VNone ->
  Table.matching condition self = entry :: rest ->
  exists e, Table.update updates condition self = (Raises e, self).
Proof.
  intros Hcol Hnn Hnd Hget Hm.
  unfold Table.update. rewrite bind_run. unfold Table.get at 1. rewrite Hm.
  rewrite for_accM_cons, bind_run. destruct entry as [i old].
  unfold Table.update_row. rewrite bind_run. unfold Table.get at 1.
  rewrite bind_run. unfold Table.lift at 1.
  destruct (for_each_raises (Table.columns self)
              (fun col => if dict_has (Column.name col) updates then
                 value ← getitem (dict_update old updates) (Column.name col);
                 if negb (is_none value)
                 then raise_if (type_mismatch (Column.data_type col) value)
                        (Expects (Column.name col) (Column.data_type col))
                 else raise_if (Column.not_null col) (CannotBeNull (Column.name col))
               else Returns tt)
              col (ValueError (CannotBeNull (Column.name col))) Hcol) as [e He].
  { unfold dict_has. rewrite Hget.
    unfold mbind, outcome_bind, getitem.
    rewrite dict_update_get by done. rewrite Hget. simpl. by rewrite Hnn. }
  unfold Table.check_updated_types. rewrite He. by exists e.
Qed.

(** ** The two joins *)

(** Python's [==] and the keys of a [dict]: equal values are one key, and
    the values of one key are equal unless they are a [nan], which a [dict]
    finds by identity and [==] tells from itself. *)
Lemma py_eq_key a b : py_eq a b = true -> key_of a = key_of b.
Proof.
  destruct a, b; simpl; rewrite ?bool_decide_eq_true; intros H.
  all: try done.
  all: try (by rewrite H).
  all: congruence.
Qed.

Lemma key_py_eq a b :
  is_nan b = false -> key_of a = key_of b -> py_eq a b = true.
Proof.
  destruct a, b; simpl; rewrite ?bool_decide_eq_true; intros Hn H.
  all: try done.
  all: try (by injection H).
  all: congruence.
Qed.

Lemma is_nan_key a b : key_of a = key_of b -> is_nan a = is_nan b.
Proof. by destruct a, b. Qed.

Lemma py_eq_sym a b : py_eq a b = py_eq b a.
Proof.
  destruct a, b; simpl; try done; apply bool_decide_ext; split; congruence.
Qed.

Lemma py_eq_is_nan a b : py_eq a b = true -> is_nan a = false /\ is_nan b = false.
Proof. by destruct a, b. Qed.

(** Two values that are neither [==] nor one object are two keys. *)
Lemma key_of_ne a b : py_eq a b = false -> a <> b -> key_of a <> key_of b.
Proof.
  intros Heq Hne Hkey. destruct (is_nan b) eqn:Hn.
  - apply Hne. destruct a, b; try done. by injection Hkey as ->.
  - apply (key_py_eq a b Hn) in Hkey. congruence.
Qed.

Lemma for_acc_app {A S} (l1 l2 : list A) (body : A -> S -> outcome S) s :
  for_acc (l1 ++ l2) body s
  = match for_acc l1 body s with
    | Returns s' => for_acc l2 body s'
    | Raises e => Raises e
    end.
Proof.
  revert s. induction l1 as [|a l1 IH]; intros s; [done|].
  simpl. destruct (body a s); [apply IH|done].
Qed.

Lemma for_acc_unchanged {A S} (l : list A) (body : A -> S -> outcome S) s :
  (forall a, a ∈ l -> body a s = Returns s) -> for_acc l body s = Returns s.
Proof.
  induction l as [|a l IH]; intros H; [done|].
  simpl. rewrite H by left. apply IH. intros b Hb. apply H. by right.
Qed.

Lemma for_acc_ext {A S} (l : list A) (body1 body2 : A -> S -> outcome S) s :
  (forall a s', a ∈ l -> body1 a s' = body2 a s') ->
  for_acc l body1 s = for_acc l body2 s.
Proof.
  revert s. induction l as [|a l IH]; intros s H; [done|].
  simpl. rewrite H by left. destruct (body2 a s); [|done].
  apply IH. intros b s' Hb. apply H. by right.
Qed.

Lemma for_acc_single {A S} (pre post : list A) a (body : A -> S -> outcome S) s :
  (forall b s', b ∈ (pre ++ post)%list -> body b s' = Returns s') ->
  for_acc (pre ++ a :: post) body s = body a s.
Proof.
  intros H. rewrite for_acc_app, for_acc_unchanged.
  - rewrite for_acc_cons. destruct (body a s) as [s'|e]; [|done].
    apply for_acc_unchanged. intros b Hb. apply H, elem_of_app. by right.
  - intros b Hb. apply H, elem_of_app. by left.
Qed.

Lemma get_by_primary_key_found self pk v i row :
  truthy (Table.primary_key self) = Some pk ->
  Table.primary_key_index self !! key_of v = Some i ->
  Table.rows self !! i = Some row ->
  Table.get_by_primary_key self v = Returns (Some row).
Proof.
  intros Epk Hi Hrow. unfold Table.get_by_primary_key, Table.rows_at.
  by rewrite Epk, Hi, Hrow.
Qed.

Lemma get_by_primary_key_missing self pk v :
  truthy (Table.primary_key self) = Some pk ->
  Table.primary_key_index self !! key_of v = None ->
  Table.get_by_primary_key self v = Returns None.
Proof. intros Epk Hi. unfold Table.get_by_primary_key. by rewrite Epk, Hi. Qed.

(** On a consistent index the scan of the right table and the probe of its
    index find the same row for a join value that is no [nan]. *)
Lemma scan_right_probe_right ln rn left right lc rc left_row result :
  truthy (Table.primary_key right) = Some rc ->
  index_consistent right rc ->
  (exists l, dict_get lc left_row = Some l /\ is_nan l = false) ->
  Database.scan_right ln rn left right lc rc left_row result
  = Database.probe_right ln rn left right lc left_row result.
Proof.
  intros Epk [Hrows Hidx] (l & Hl & Hnan).
  unfold Database.probe_right.
  assert (Hgl : getitem left_row lc = Returns l) by (unfold getitem; by rewrite Hl).
  rewrite Hgl. unfold mbind at 1, outcome_bind.
  assert (Hmiss : forall j row s,
            Table.rows right !! j = Some row ->
            Table.primary_key_index right !! key_of l <> Some j ->
            (l0 ← getitem left_row lc;
             r ← getitem row rc;
             if py_eq l0 r then
               joined ← Database.joined_row ln rn left right left_row row;
               Returns (s ++ [joined])%list
             else Returns s) = Returns s).
  { intros j row s Hj Hne. rewrite Hgl. unfold mbind at 1, outcome_bind.
    destruct (Hrows j row Hj) as (v & Hv & Hvi).
    unfold getitem. rewrite Hv. unfold mbind, outcome_bind.
    destruct (py_eq l v) eqn:Eq; [|done].
    apply py_eq_key in Eq. exfalso. apply Hne. by rewrite Eq. }
  destruct (Table.primary_key_index right !! key_of l) as [i|] eqn:Ei.
  - destruct (Hidx _ _ Ei) as (row & v & Hi & Hv & Hk).
    rewrite (get_by_primary_key_found right rc l i row Epk Ei Hi).
    unfold mbind at 1, outcome_bind.
    rewrite bool_decide_eq_false_2 by (intros ->; done).
    unfold Database.scan_right.
    rewrite <- (take_drop_middle _ _ _ Hi) at 1.
    rewrite for_acc_single.
    + rewrite Hgl. unfold mbind at 1, outcome_bind.
      unfold getitem. rewrite Hv. unfold mbind at 1, outcome_bind.
      assert (py_eq l v = true) as ->.
      { apply key_py_eq; [|done]. by rewrite (is_nan_key v l). }
      done.
    + intros b s Hb. apply elem_of_app in Hb as [Hb|Hb].
      * apply list_elem_of_lookup in Hb as [j Hj].
        apply lookup_take_Some in Hj as [Hj Hlt].
        apply (Hmiss j); [done|]. intros [= ->]. lia.
      * apply list_elem_of_lookup in Hb as [j Hj].
        rewrite lookup_drop in Hj.
        apply (Hmiss (S i + j)%nat); [done|]. intros [= Heq]. lia.
  - rewrite (get_by_primary_key_missing right rc l Epk Ei).
    unfold mbind at 1, outcome_bind.
    unfold Database.scan_right. apply for_acc_unchanged.
    intros b Hb. apply list_elem_of_lookup in Hb as [j Hj].
    by apply (Hmiss j).
Qed.

(** The two joins return the same rows in the same order, or raise the same
    error, when the primary-key index of the right table agrees with its
    rows and every left row has a join value that is no [nan]. *)
Lemma joins_agree_on_consistent_index
    (self : Database.t) ln rn lc rc select_columns :
  (forall right, Database.tables self !! rn = Some right ->
     Table.primary_key right = Some rc ->
     rc <> EmptyString /\ index_consistent right rc) ->
  (forall left row, Database.tables self !! ln = Some left ->
     row ∈ Table.rows left ->
     exists v, dict_get lc row = Some v /\ is_nan v = false) ->
  Database.inner_join_optimized self ln rn lc rc select_columns
  = Database.inner_join self ln rn lc rc select_columns.
Proof.
  intros Hright Hleft.
  unfold Database.inner_join_optimized, Database.inner_join.
  destruct (Database.join_tables self ln rn lc rc) as [[left right]|e] eqn:Ej; [|done].
  unfold mbind at 1 3, outcome_bind.
  case_bool_decide as Hpk; [|done].
  assert (Database.tables self !! ln = Some left
          /\ Database.tables self !! rn = Some right) as [Hl Hr].
  { revert Ej. unfold Database.join_tables, Database.get_table.
    unfold mbind, outcome_bind.
    destruct (Database.tables self !! ln); [|done].
    destruct (Database.tables self !! rn); [|done].
    do 2 (destruct (raise_if _ _); [|done]). by intros [= -> ->]. }
  destruct (Hright right Hr Hpk) as [Hne Hcons].
  assert (truthy (Table.primary_key right) = Some rc) as Epk.
  { rewrite Hpk. simpl. by rewrite bool_decide_eq_false_2. }
  rewrite (for_acc_ext (Table.rows left)
             (Database.probe_right ln rn left right lc)
             (Database.scan_right ln rn left right lc rc)); [done|].
  intros row s Hrow. symmetry. apply scan_right_probe_right; try done.
  by apply (Hleft left).
Qed.

(** *** The index lookup and the full scan *)

Lemma filter_single {A} (f : A -> bool) (l : list A) i x :
  l !! i = Some x -> f x = true ->
  (forall j y, l !! j = Some y -> f y = true -> j = i) ->
  List.filter f l = [x].
Proof.
  revert i. induction l as [|a l IH]; intros i Hi Hx Huniq; [done|].
  destruct i as [|i]; simpl in *.
  - injection Hi as ->. rewrite Hx. f_equal.
    assert (Forall (fun y => f y = false) l) as Hall.
    { apply Forall_forall. intros y Hy. apply list_elem_of_lookup in Hy as [j Hj].
      destruct (f y) eqn:E; [|done]. by specialize (Huniq (S j) y Hj E). }
    clear -Hall. induction Hall as [|y l Hy _ IH]; [done|]. simpl. by rewrite Hy.
  - destruct (f a) eqn:Ea.
    + by specialize (Huniq 0%nat a eq_refl Ea).
    + apply (IH i); [done|done|]. intros j y Hj Hy.
      specialize (Huniq (S j) y Hj Hy). lia.
Qed.

Lemma filter_none {A} (f : A -> bool) (l : list A) :
  (forall y, y ∈ l -> f y = false) -> List.filter f l = [].
Proof.
  induction l as [|a l IH]; intros H; [done|].
  simpl. rewrite H by left. apply IH. intros y Hy. apply H. by right.
Qed.

(** On a consistent index [get_by_primary_key] returns, for a key that is
    no [nan], the row a full scan for the key finds, and nothing when the
    scan finds nothing. *)
Lemma get_by_primary_key_scan self pk k :
  truthy (Table.primary_key self) = Some pk ->
  index_consistent self pk ->
  is_nan k = false ->
  Table.get_by_primary_key self k
  = Returns (head (Table.select_where self (key_is pk k)))
  /\ (length (Table.select_where self (key_is pk k)) <= 1)%nat.
Proof.
  intros Epk [Hrows Hidx] Hnan. unfold Table.select_where.
  destruct (Table.primary_key_index self !! key_of k) as [i|] eqn:Ei.
  - destruct (Hidx _ _ Ei) as (row & v & Hi & Hv & Hk).
    rewrite (get_by_primary_key_found self pk k i row Epk Ei Hi).
    rewrite (filter_single (key_is pk k) (Table.rows self) i row); [done|done| |].
    + unfold key_is. rewrite Hv. by apply key_py_eq.
    + intros j y Hj Hy. destruct (Hrows j y Hj) as (w & Hw & Hwi).
      unfold key_is in Hy. rewrite Hw in Hy. apply py_eq_key in Hy.
      rewrite Hy in Hwi. congruence.
  - rewrite (get_by_primary_key_missing self pk k Epk Ei).
    rewrite filter_none; [simpl; split; [done|lia]|].
    intros y Hy. apply list_elem_of_lookup in Hy as [j Hj].
    destruct (Hrows j y Hj) as (w & Hw & Hwi).
    unfold key_is. rewrite Hw. destruct (py_eq w k) eqn:E; [|done].
    apply py_eq_key in E. rewrite E in Hwi. congruence.
Qed.

(** *** Inserts keep the index consistent *)

Lemma new_index_consistent name columns pk :
  index_consistent (Table.new name columns) pk.
Proof. split; [intros i row H|intros k i H]; done. Qed.

Lemma insert_index_consistent self pk row s' :
  truthy (Table.primary_key self) = Some pk ->
  index_consistent self pk ->
  (Table.insert row self).2 = s' ->
  index_consistent s' pk.
Proof.
  intros Epk [Hrows Hidx] Hrun.
  destruct (Table.insert row self) as [[[]|e] s] eqn:Hins; simpl in Hrun; subst s.
  2:{ destruct (Table.validate_row self row) as [r|e'] eqn:Hv.
      - destruct (insert_returns self row r Hv) as [s Hs]. congruence.
      - rewrite (insert_raises self row e' Hv) in Hins.
        injection Hins as _ <-. by split. }
  destruct (insert_index row self s' pk Hins Epk)
    as (row' & v & _ & Hr & Hget & Hfree & Hi).
  split.
  - intros i r Hir. rewrite Hr in Hir. rewrite Hi.
    apply lookup_app_Some in Hir as [Hir|[Hlen Hir]].
    + destruct (Hrows i r Hir) as (v0 & Hv0 & Hk0). exists v0. split; [done|].
      rewrite lookup_insert_ne; [done|]. intros Heq. congruence.
    + destruct (i - length (Table.rows self))%nat as [|n] eqn:En; [|done].
      injection Hir as <-. exists v. split; [done|].
      assert (i = length (Table.rows self)) as -> by lia.
      apply lookup_insert_eq.
  - intros k i Hki. rewrite Hi in Hki. rewrite Hr.
    destruct (decide (key_of v = k)) as [<-|Hne].
    + rewrite lookup_insert_eq in Hki. injection Hki as <-.
      exists row', v. split; [|done].
      rewrite lookup_app_r by done. by rewrite Nat.sub_diag.
    + rewrite lookup_insert_ne in Hki by done.
      destruct (Hidx k i Hki) as (r & v0 & Hir & Hv0 & Hk0).
      exists r, v0. split; [|done]. by apply lookup_app_l_Some.
Qed.

(** *** Rebuilding the index *)

Lemma for_accM_returns {A S} (P : Table.t -> Prop) (l : list A)
    (body : A -> S -> Table.M S) :
  (forall a s self, a ∈ l -> P self ->
     exists s' self', body a s self = (Returns s', self') /\ P self') ->
  forall s self, P self ->
  exists s' self', Table.for_accM l body s self = (Returns s', self') /\ P self'.
Proof.
  induction l as [|a l IH]; intros Hbody s self HP.
  - by exists s, self.
  - rewrite for_accM_cons.
    destruct (Hbody a s self) as (s1 & self1 & -> & HP1); [left|done|].
    apply IH; [|done]. intros b t self' Hb. apply Hbody. by right.
Qed.

Lemma enumerate_snoc {A} (l : list A) x :
  enumerate (l ++ [x]) = (enumerate l ++ [(length l, x)])%list.
Proof.
  unfold enumerate. rewrite imap_app. simpl. by rewrite Nat.add_0_r.
Qed.

Lemma index_of_snoc pk rows row :
  index_of pk (rows ++ [row])
  = <[key_at pk row := length rows]> (index_of pk rows).
Proof. unfold index_of. by rewrite enumerate_snoc, foldl_app. Qed.

(** The rebuilt index, key by key, when no two rows share a key. *)
Lemma index_of_lookup pk rows k i :
  NoDup (key_at pk <$> rows) ->
  index_of pk rows !! k = Some i
  <-> exists row, rows !! i = Some row /\ key_at pk row = k.
Proof.
  revert i. induction rows as [|row rows IH] using rev_ind; intros i Hnd.
  - split; [done|]. by intros (row & H & _).
  - rewrite fmap_app in Hnd. apply NoDup_app in Hnd as (Hnd & Hdis & _).
    rewrite index_of_snoc. destruct (decide (key_at pk row = k)) as [<-|Hne].
    + rewrite lookup_insert_eq. split.
      * intros [= <-]. exists row. split; [|done].
        rewrite lookup_app_r by done. by rewrite Nat.sub_diag.
      * intros (r & Hi & Hk). f_equal.
        apply lookup_app_Some in Hi as [Hi|[Hlen Hi]].
        -- exfalso. apply (Hdis (key_at pk row)).
           ++ rewrite <- Hk. apply list_elem_of_fmap_2.
              by apply list_elem_of_lookup_2 in Hi.
           ++ simpl. left.
        -- destruct (i - length rows)%nat eqn:E; [lia|done].
    + rewrite lookup_insert_ne by done. rewrite IH by done. split.
      * intros (r & Hi & Hk). exists r. split; [|done]. by apply lookup_app_l_Some.
      * intros (r & Hi & Hk). exists r. split; [|done].
        apply lookup_app_Some in Hi as [Hi|[Hlen Hi]]; [done|].
        destruct (i - length rows)%nat eqn:E; [|done].
        injection Hi as <-. done.
Qed.

Lemma index_of_consistent self pk :
  all_have pk (Table.rows self) ->
  NoDup (key_at pk <$> Table.rows self) ->
  Table.primary_key_index self = index_of pk (Table.rows self) ->
  index_consistent self pk.
Proof.
  intros Hall Hnd Hidx. split.
  - intros i row Hi.
    assert (is_Some (dict_get pk row)) as [v Hv].
    { eapply Forall_lookup_1 in Hall; [|exact Hi]. done. }
    exists v. split; [done|]. rewrite Hidx. apply index_of_lookup; [done|].
    exists row. split; [done|]. unfold key_at. by rewrite Hv.
  - intros k i Hk. rewrite Hidx in Hk. apply index_of_lookup in Hk; [|done].
    destruct Hk as (row & Hi & Hk).
    assert (is_Some (dict_get pk row)) as [v Hv].
    { eapply Forall_lookup_1 in Hall; [|exact Hi]. done. }
    exists row, v. split; [done|]. split; [done|].
    unfold key_at in Hk. by rewrite Hv in Hk.
Qed.

Lemma index_consistent_keys self pk :
  index_consistent self pk ->
  all_have pk (Table.rows self) /\ NoDup (key_at pk <$> Table.rows self).
Proof.
  intros [Hrows Hidx]. split.
  - apply Forall_lookup. intros i row Hi.
    destruct (Hrows i row Hi) as (v & Hv & _). by exists v.
  - apply NoDup_alt. intros i j k Hi Hj.
    rewrite list_lookup_fmap in Hi, Hj.
    destruct (Table.rows self !! i) as [ri|] eqn:Eri; [|done].
    destruct (Table.rows self !! j) as [rj|] eqn:Erj; [|done].
    simpl in *. injection Hi as Hi. injection Hj as Hj.
    destruct (Hrows i ri Eri) as (vi & Hvi & Hki).
    destruct (Hrows j rj Erj) as (vj & Hvj & Hkj).
    unfold key_at in Hi, Hj. rewrite Hvi in Hi. rewrite Hvj in Hj. simpl in *.
    congruence.
Qed.

Lemma rebuild_loop pk es :
  forall s,
  Forall (fun entry : nat * pydict => is_Some (dict_get pk entry.2)) es ->
  Table.for_M es (fun entry =>
    pk_value ← Table.lift (getitem entry.2 pk);
    Table.index_put (key_of pk_value) entry.1) s
  = (Returns tt,
     Table.set_primary_key_index
       (foldl (fun m entry => <[key_at pk entry.2 := entry.1]> m)
          (Table.primary_key_index s) es) s).
Proof.
  unfold Table.for_M. induction es as [|[i row] es IH]; intros s Hall.
  - simpl. by destruct s.
  - apply Forall_cons in Hall as [[v Hv] Hall]. simpl in Hv.
    rewrite for_accM_cons, bind_run.
    unfold Table.lift at 1, getitem. simpl. rewrite Hv.
    unfold Table.index_put, Table.modify. rewrite IH by done.
    simpl. unfold key_at. simpl. rewrite Hv. done.
Qed.

Lemma rebuild_index_run pk s :
  all_have pk (Table.rows s) ->
  Table.rebuild_index pk s
  = (Returns tt, Table.set_primary_key_index (index_of pk (Table.rows s)) s).
Proof.
  intros Hall. unfold Table.rebuild_index. rewrite bind_run.
  unfold Table.modify at 1. rewrite bind_run. unfold Table.get at 1.
  rewrite rebuild_loop; [done|].
  simpl. apply Forall_forall. intros [i row] Hin.
  apply enumerate_elem in Hin. simpl.
  by eapply Forall_lookup_1 in Hall.
Qed.

(** *** The loop over the unique columns of a row that goes away *)

Lemma discard_unique_values_run row s :
  (forall c, c ∈ Table.unique_columns s -> is_Some (dict_get c row)) ->
  exists s',
    Table.discard_unique_values row s = (Returns tt, s')
    /\ Table.name s' = Table.name s
    /\ Table.columns s' = Table.columns s
    /\ Table.rows s' = Table.rows s
    /\ Table.primary_key_index s' = Table.primary_key_index s.
Proof.
  intros Hall. unfold Table.discard_unique_values. rewrite bind_run.
  unfold Table.get at 1.
  destruct (for_accM_returns
              (fun t => Table.name t = Table.name s
                        /\ Table.columns t = Table.columns s
                        /\ Table.rows t = Table.rows s
                        /\ Table.primary_key_index t = Table.primary_key_index s)
              (Table.unique_columns s)
              (fun col_name (_ : unit) =>
                 if Table.not_primary_key s col_name then
                   value ← Table.lift (getitem row col_name);
                   if negb (is_none value)
                   then Table.unique_discard col_name (key_of value)
                   else Table.skip
                 else Table.skip)) with tt s as ([] & s' & Hrun & HP).
  - intros c [] t Hc HP. destruct (Table.not_primary_key s c); [|by exists tt, t].
    destruct (Hall c Hc) as [v Hv]. rewrite bind_run.
    unfold Table.lift at 1, getitem. rewrite Hv.
    destruct (negb (is_none v)); [|by exists tt, t].
    eexists tt, _. split; [reflexivity|]. done.
  - done.
  - exists s'. split; [exact Hrun|done].
Qed.

Lemma keys_sublist pk (l1 l2 : list pydict) :
  sublist l1 l2 ->
  all_have pk l2 -> NoDup (key_at pk <$> l2) ->
  all_have pk l1 /\ NoDup (key_at pk <$> l1).
Proof.
  intros Hsub Hall Hnd. split.
  - apply Forall_forall. intros row Hrow.
    eapply Forall_forall in Hall; [exact Hall|]. by eapply elem_of_sublist.
  - eapply sublist_NoDup; [exact Hnd|]. by apply fmap_sublist.
Qed.

(** *** [delete_by_primary_key] keeps the index consistent *)

Lemma rows_set_primary_key_index ix s :
  Table.rows (Table.set_primary_key_index ix s) = Table.rows s.
Proof. reflexivity. Qed.

Lemma delete_by_primary_key_consistent self pk k :
  truthy (Table.primary_key self) = Some pk ->
  index_consistent self pk ->
  (forall row c, row ∈ Table.rows self -> c ∈ Table.unique_columns self ->
                 is_Some (dict_get c row)) ->
  match Table.primary_key_index self !! key_of k with
  | None => Table.delete_by_primary_key k self = (Returns false, self)
  | Some i =>
      exists s',
        Table.delete_by_primary_key k self = (Returns true, s')
        /\ Table.columns s' = Table.columns self
        /\ Table.rows s' = delete i (Table.rows self)
        /\ index_consistent s' pk
  end.
Proof.
  intros Epk Hcons Hcomplete.
  destruct (Table.primary_key_index self !! key_of k) as [i|] eqn:Ei.
  2:{ unfold Table.delete_by_primary_key. rewrite bind_run. unfold Table.get.
      by rewrite Epk, Ei. }
  unfold Table.delete_by_primary_key. rewrite bind_run. unfold Table.get at 1.
  rewrite Epk, Ei.
  destruct (proj2 Hcons _ _ Ei) as (row & v & Hi & Hv & Hk).
  rewrite bind_run. unfold Table.lift at 1, Table.rows_at. rewrite Hi.
  rewrite bind_run.
  destruct (discard_unique_values_run row self) as (s1 & -> & Hn1 & Hc1 & Hr1 & Hp1).
  { intros c Hc. apply Hcomplete; [|done]. by eapply list_elem_of_lookup_2. }
  rewrite bind_run. unfold Table.index_del at 1. rewrite Hp1, Ei.
  rewrite bind_run. unfold Table.rows_del at 1. simpl.
  rewrite bool_decide_eq_true_2.
  2:{ rewrite Hr1. by eapply lookup_lt_Some. }
  rewrite bind_run.
  set (s3 := Table.set_rows _ _).
  destruct (index_consistent_keys self pk Hcons) as [Hall Hnd].
  destruct (keys_sublist pk (delete i (Table.rows self)) (Table.rows self))
    as [Hall' Hnd']; [apply sublist_delete|done|done|].
  assert (Table.rows s3 = delete i (Table.rows self)) as Hr3.
  { unfold s3. simpl. by rewrite Hr1. }
  rewrite rebuild_index_run by (by rewrite Hr3).
  eexists. split; [reflexivity|].
  split; [simpl; congruence|]. split; [exact Hr3|].
  apply index_of_consistent; rewrite ?rows_set_primary_key_index, ?Hr3; done.
Qed.

(** The database of [Scenario.db], before any update: the two joins agree. *)
Example joins_agree_before_clash :
  Database.inner_join_optimized db "orders" "users" "user_id" "id" None
  = Database.inner_join db "orders" "users" "user_id" "id" None.
Proof. vm_compute. reflexivity. Qed.

(** ** The registry of tables *)

(** X1: a table registered under a free name is the one [get_table] returns
    for that name, the other names answer as before, a second table of the
    same name is refused and leaves the registry as it is, and [drop_table]
    gives back the database there was before the registration. *)
Theorem registry_round_trip (self : Database.t) (table : Table.t) :
  Database.tables self !! Table.name table = None ->
  (Database.create_table table self).1 = Returns tt
  /\ Database.get_table (Database.create_table table self).2 (Table.name table)
     = Returns table
  /\ (forall name, name <> Table.name table ->
        Database.get_table (Database.create_table table self).2 name
        = Database.get_table self name)
  /\ (forall other, Table.name other = Table.name table ->
        Database.create_table other (Database.create_table table self).2
        = (Raises (ValueError (TableAlreadyExists (Table.name table))),
           (Database.create_table table self).2))
  /\ Database.drop_table (Table.name table) (Database.create_table table self).2
     = (Returns tt, self)
  /\ Database.get_table self (Table.name table)
     = Raises (ValueError (TableDoesNotExist (Table.name table)))
  /\ Database.drop_table (Table.name table) self
     = (Raises (ValueError (TableDoesNotExist (Table.name table))), self).
Proof.
  intros Hfree. unfold Database.create_table. rewrite Hfree. simpl.
  split; [done|]. split.
  { unfold Database.get_table. simpl. by rewrite lookup_insert_eq. }
  split.
  { intros name Hne. unfold Database.get_table. simpl.
    by rewrite lookup_insert_ne. }
  split.
  { intros other Hname. rewrite Hname. simpl. by rewrite lookup_insert_eq. }
  split.
  { unfold Database.drop_table. simpl. rewrite lookup_insert_eq.
    rewrite delete_insert_id by done. by destruct self. }
  split.
  - unfold Database.get_table. by rewrite Hfree.
  - unfold Database.drop_table. by rewrite Hfree.
Qed.

(** The theorem at the empty database and the table of users. *)
Lemma registry_round_trip_on_users :
  (Database.create_table users (Database.new "shop")).1 = Returns tt
  /\ Database.get_table (Database.create_table users (Database.new "shop")).2
       (Table.name users)
     = Returns users
  /\ (forall name, name <> Table.name users ->
        Database.get_table (Database.create_table users (Database.new "shop")).2 name
        = Database.get_table (Database.new "shop") name)
  /\ (forall other, Table.name other = Table.name users ->
        Database.create_table other (Database.create_table users (Database.new "shop")).2
        = (Raises (ValueError (TableAlreadyExists (Table.name users))),
           (Database.create_table users (Database.new "shop")).2))
  /\ Database.drop_table (Table.name users)
       (Database.create_table users (Database.new "shop")).2
     = (Returns tt, Database.new "shop")
  /\ Database.get_table (Database.new "shop") (Table.name users)
     = Raises (ValueError (TableDoesNotExist (Table.name users)))
  /\ Database.drop_table (Table.name users) (Database.new "shop")
     = (Raises (ValueError (TableDoesNotExist (Table.name users))), Database.new "shop").
Proof. apply (registry_round_trip (Database.new "shop") users). reflexivity. Defined.

(** ** The errors of [insert] *)

Lemma for_each_Raises {A} (l : list A) (body : A -> outcome unit) e :
  for_each l body = Raises e -> exists a, a ∈ l /\ body a = Raises e.
Proof.
  unfold for_each. induction l as [|a l IH]; [done|].
  rewrite for_acc_cons. destruct (body a) as [[]|e0] eqn:E.
  - intros H. destruct (IH H) as (b & Hb & Hr). exists b. split; [by right|done].
  - intros [= ->]. exists a. split; [left|done].
Qed.

(** The first block of [validate_row], key by key: a key of the row keeps
    its value, a missing declared column reads [None]; the block raises for
    a missing column with the flag [not_null] and for nothing else. *)
Lemma fill_missing_spec self : forall row,
  match Table.fill_missing self row with
  | Returns r =>
      forall k, dict_get k r
        = match dict_get k row with
          | Some v => Some v
          | None => if bool_decide (k ∈ Table.column_names self)
                    then Some VNone else None
          end
  | Raises e =>
      exists col, col ∈ Table.columns self /\ Column.not_null col = true
        /\ dict_get (Column.name col) row = None
        /\ e = ValueError (CannotBeNull (Column.name col))
  end.
Proof.
  unfold Table.fill_missing, Table.column_names.
  generalize (Table.columns self). intros cs.
  induction cs as [|c cs IH]; intros row.
  - simpl. intros k. destruct (dict_get k row); [done|].
    done.
  - rewrite for_acc_cons. cbv beta.
    destruct (dict_has (Column.name c) row) eqn:Ehas.
    + specialize (IH row). destruct (for_acc cs _ row) as [r|e].
      * intros k. rewrite IH. destruct (dict_get k row) eqn:Ek; [done|].
        rewrite (bool_decide_ext (k ∈ map Column.name cs) (k ∈ map Column.name (c :: cs))); [done|]. simpl. rewrite elem_of_cons.
        split; [by right|]. intros [->|H]; [|done].
        apply dict_has_true in Ehas as [v Hv]. congruence.
      * destruct IH as (col & Hin & Hnn & Hget & ->).
        exists col. split; [by right|done].
    + destruct (Column.not_null c) eqn:Enn.
      * exists c. split; [left|]. split; [done|]. split; [|done].
        unfold dict_has in Ehas. by destruct (dict_get (Column.name c) row).
      * specialize (IH (dict_set (Column.name c) VNone row)).
        destruct (for_acc cs _ (dict_set (Column.name c) VNone row)) as [r|e].
        -- intros k. rewrite IH. destruct (decide (Column.name c = k)) as [<-|Hne].
           ++ rewrite dict_get_set_eq.
              unfold dict_has in Ehas.
              destruct (dict_get (Column.name c) row); [done|].
              rewrite bool_decide_eq_true_2; [done|]. simpl. left.
           ++ rewrite dict_get_set_ne by done.
              destruct (dict_get k row); [done|].
              rewrite (bool_decide_ext (k ∈ map Column.name cs) (k ∈ map Column.name (c :: cs))); [done|]. simpl. rewrite elem_of_cons.
              split; [by right|]. intros [->|H]; done.
        -- destruct IH as (col & Hin & Hnn & Hget & ->).
           exists col. split; [by right|]. split; [done|]. split; [|done].
           destruct (decide (Column.name c = Column.name col)) as [Heq|Hne].
           ++ rewrite Heq, dict_get_set_eq in Hget. done.
           ++ by rewrite dict_get_set_ne in Hget.
Qed.

Lemma insert_Raises self row e :
  (Table.insert row self).1 = Raises e ->
  Table.validate_row self row = Raises e /\ (Table.insert row self).2 = self.
Proof.
  intros H. destruct (Table.validate_row self row) as [r|e'] eqn:Hv.
  - destruct (insert_returns self row r Hv) as [s' Hs]. rewrite Hs in H. done.
  - rewrite (insert_raises self row e' Hv) in *. simpl in H. by injection H as ->.
Qed.

(** ** [insert]: all of the validation comes before any change *)


(** X2: [insert] raises nothing but the four [ValueError]s of
    [validate_row], each for its cause in the row that was passed and the
    table as it was, and leaves the table as it was. *)
Theorem insert_errors_have_causes (self : Table.t) (row : pydict) (e : error) :
  (Table.insert row self).1 = Raises e ->
  (Table.insert row self).2 = self
  /\ match e with
     | ValueError (CannotBeNull c) =>
         dict_get c row = None
         /\ exists col, col ∈ Table.columns self /\ Column.name col = c
                        /\ Column.not_null col = true
     | ValueError (Expects c ty) =>
         exists col v,
           col ∈ Table.columns self /\ Column.name col = c
           /\ Column.data_type col = ty
           /\ dict_get c row = Some v /\ is_none v = false
           /\ type_mismatch ty v = true
     | ValueError (PrimaryKeyViolation v) =>
         exists pk,
           truthy (Table.primary_key self) = Some pk
           /\ v = default VNone (dict_get pk row)
           /\ is_Some (Table.primary_key_index self !! key_of v)
     | ValueError (UniqueViolation c) =>
         c ∈ Table.unique_columns self /\ Table.not_primary_key self c = true
         /\ exists v, dict_get c row = Some v /\ is_none v = false
                      /\ key_of v ∈ Table.unique_index self c
     | _ => False
     end.
Proof.
  intros H. apply insert_Raises in H as [Hv Hs]. split; [done|]. clear Hs.
  revert Hv. unfold Table.validate_row.
  pose proof (fill_missing_spec self row) as Hfill.
  destruct (Table.fill_missing self row) as [r|e0].
  2:{ unfold mbind, outcome_bind. intros [= <-].
      destruct Hfill as (col & Hin & Hnn & Hget & ->). split; [done|].
      by exists col. }
  unfold mbind at 1, outcome_bind at 1.
  assert (Hfilled : forall c v, dict_get c r = Some v -> is_none v = false ->
                      dict_get c row = Some v).
  { intros c v Hc Hn. rewrite Hfill in Hc. destruct (dict_get c row); [done|].
    case_bool_decide; [|done]. injection Hc as <-. done. }
  destruct (Table.check_types self r) as [[]|e1] eqn:Ety.
  2:{ unfold mbind, outcome_bind. intros [= <-].
      apply for_each_Raises in Ety as (col & Hin & Hbody). revert Hbody.
      unfold mbind, outcome_bind, getitem.
      destruct (dict_get (Column.name col) r) as [v|] eqn:Eg.
      2:{ exfalso. rewrite Hfill in Eg.
          destruct (dict_get (Column.name col) row); [done|].
          rewrite bool_decide_eq_true_2 in Eg; [done|].
          by apply list_elem_of_fmap_2. }
      destruct (is_none v) eqn:En; [done|].
      unfold raise_if. destruct (type_mismatch _ v) eqn:Etm; [|done].
      intros [= <-]. exists col, v. repeat (split; [done|]).
      split; [by apply Hfilled|done]. }
  unfold mbind at 1, outcome_bind at 1.
  destruct (Table.check_primary_key self r) as [[]|e2] eqn:Epkc.
  2:{ unfold mbind, outcome_bind. intros [= <-]. revert Epkc.
      unfold Table.check_primary_key.
      destruct (truthy (Table.primary_key self)) as [pk|] eqn:Epk; [|done].
      unfold mbind, outcome_bind, getitem.
      destruct (dict_get pk r) as [v|] eqn:Eg.
      2:{ exfalso. rewrite Hfill in Eg. destruct (dict_get pk row); [done|].
          rewrite bool_decide_eq_true_2 in Eg; [done|].
          by apply primary_key_declared, truthy_Some. }
      unfold raise_if. case_bool_decide as Hin; [|done]. intros [= <-].
      exists pk. split; [done|]. split; [|done].
      rewrite Hfill in Eg. destruct (dict_get pk row); simpl; [congruence|].
      case_bool_decide; congruence. }
  unfold mbind at 1, outcome_bind at 1.
  destruct (Table.check_unique self r) as [[]|e3] eqn:Eun; [done|].
  intros [= <-]. apply for_each_Raises in Eun as (c & Hin & Hbody). revert Hbody.
  destruct (Table.not_primary_key self c) eqn:Enp; [|done].
  unfold mbind, outcome_bind, getitem.
  destruct (dict_get c r) as [v|] eqn:Eg.
  2:{ exfalso. rewrite Hfill in Eg. destruct (dict_get c row); [done|].
      rewrite bool_decide_eq_true_2 in Eg; [done|].
      by apply unique_columns_declared. }
  unfold raise_if. destruct (is_none v) eqn:En; [done|]. simpl.
  case_bool_decide as Hk; [|done]. intros [= <-].
  split; [done|]. split; [done|]. exists v. split; [by apply Hfilled|done].
Qed.

(** The theorem at a third user with the key of the first. *)
Lemma insert_duplicate_user_has_cause :
  (Table.insert (user 1 "c@x.com" 41) users).2 = users
  /\ exists pk,
       truthy (Table.primary_key users) = Some pk
       /\ VInt 1 = default VNone (dict_get pk (user 1 "c@x.com" 41))
       /\ is_Some (Table.primary_key_index users !! key_of (VInt 1)).
Proof.
  apply (insert_errors_have_causes users (user 1 "c@x.com" 41)
           (ValueError (PrimaryKeyViolation (VInt 1)))).
  vm_compute. reflexivity.
Defined.

(** ** A row that was inserted is found under its key *)

Lemma insert_columns row self :
  Table.columns (Table.insert row self).2 = Table.columns self.
Proof.
  unfold Table.insert. apply bind_frame; [done|]. intros s0 s1.
  apply bind_frame; [done|]. intros r s2.
  apply bind_frame; [done|]. intros [] s3.
  apply bind_frame.
  - unfold Table.index_primary_key. destruct (truthy _); frame.
  - intros [] s4. unfold Table.add_unique_values. apply for_M_frame.
    intros c s5. unfold Table.add_unique_value. frame.
Qed.

Lemma primary_key_columns s1 s2 :
  Table.columns s1 = Table.columns s2 -> Table.primary_key s1 = Table.primary_key s2.
Proof. unfold Table.primary_key. by intros ->. Qed.

(** X3: after an insert that returned, the stored row is the last one; it
    holds the values that were passed and [None] for the declared columns
    that were left out; [get_by_primary_key] returns it for every value
    that is [==] to its key, [1], [1.0] and [True] being one key, and for
    the key object itself, which matters when the key is a [nan]; and on a
    consistent table every key that is neither answers as before. *)
Theorem insert_then_get_by_primary_key
    (self : Table.t) (pk : string) (row : pydict) (s' : Table.t) :
  truthy (Table.primary_key self) = Some pk ->
  Table.insert row self = (Returns tt, s') ->
  exists stored v,
    Table.rows s' = (Table.rows self ++ [stored])%list
    /\ (forall k, dict_get k stored
          = match dict_get k row with
            | Some w => Some w
            | None => if bool_decide (k ∈ Table.column_names self)
                      then Some VNone else None
            end)
    /\ dict_get pk stored = Some v
    /\ (forall k, py_eq k v = true \/ k = v ->
          Table.get_by_primary_key s' k = Returns (Some stored))
    /\ (index_consistent self pk ->
        forall k, py_eq k v = false -> k <> v ->
          Table.get_by_primary_key s' k = Table.get_by_primary_key self k).
Proof.
  intros Epk Hrun.
  destruct (insert_index row self s' pk Hrun Epk)
    as (stored & v & Hv & Hrows & Hget & Hfree & Hidx).
  assert (truthy (Table.primary_key s') = Some pk) as Epk'.
  { rewrite <- Epk. f_equal. apply primary_key_columns.
    pose proof (insert_columns row self) as Hc. by rewrite Hrun in Hc. }
  exists stored, v. split; [done|]. split.
  { apply validate_row_Returns in Hv as (Hfill & _).
    pose proof (fill_missing_spec self row) as Hspec. by rewrite Hfill in Hspec. }
  split; [done|]. split.
  - intros k Hk.
    assert (key_of k = key_of v) as Hkey.
    { destruct Hk as [Hk| ->]; [by apply py_eq_key|done]. }
    apply (get_by_primary_key_found s' pk k (length (Table.rows self))); [done| |].
    + rewrite Hidx, Hkey. apply lookup_insert_eq.
    + rewrite Hrows, lookup_app_r by done. by rewrite Nat.sub_diag.
  - intros [Hr Hi] k Hk Hkv.
    assert (key_of k <> key_of v) as Hne by by apply key_of_ne.
    unfold Table.get_by_primary_key. rewrite Epk, Epk', Hidx.
    rewrite lookup_insert_ne by done.
    destruct (Table.primary_key_index self !! key_of k) as [i|] eqn:Ei; [|done].
    destruct (Hi _ _ Ei) as (r & w & Hir & _).
    unfold Table.rows_at. rewrite Hrows, (lookup_app_l_Some _ _ _ _ Hir), Hir. done.
Qed.

(** The theorem at a third user, inserted without an age. *)
Lemma third_user_is_found :
  exists stored v,
    Table.rows (Table.insert [("id", VInt 3); ("email", VStr "c@x.com")] users).2
    = (Table.rows users ++ [stored])%list
    /\ (forall k, dict_get k stored
          = match dict_get k [("id", VInt 3); ("email", VStr "c@x.com")] with
            | Some w => Some w
            | None => if bool_decide (k ∈ Table.column_names users)
                      then Some VNone else None
            end)
    /\ dict_get "id" stored = Some v
    /\ (forall k, py_eq k v = true \/ k = v ->
          Table.get_by_primary_key
            (Table.insert [("id", VInt 3); ("email", VStr "c@x.com")] users).2 k
          = Returns (Some stored))
    /\ (index_consistent users "id" ->
        forall k, py_eq k v = false -> k <> v ->
          Table.get_by_primary_key
            (Table.insert [("id", VInt 3); ("email", VStr "c@x.com")] users).2 k
          = Table.get_by_primary_key users k).
Proof.
  apply (insert_then_get_by_primary_key users "id"
           [("id", VInt 3); ("email", VStr "c@x.com")]).
  - reflexivity.
  - vm_compute. reflexivity.
Defined.

(** ** The lookup by key and the scan *)

(** X4: on a table whose primary-key index agrees with its rows,
    [get_by_primary_key] returns, for a key that is no [nan], the first row
    a full scan for the key finds, and nothing when the scan finds nothing;
    the scan never finds two rows.  For a [nan] the two differ: the scan
    finds nothing, since a [nan] is [==] to nothing, and the lookup finds
    the row that holds this very [nan] object as its key, if there is
    one. *)
Theorem get_by_primary_key_is_the_scan (self : Table.t) (pk : string) (k : value) :
  truthy (Table.primary_key self) = Some pk ->
  index_consistent self pk ->
  (is_nan k = false ->
   Table.get_by_primary_key self k
   = Returns (head (Table.select_where self (key_is pk k)))
   /\ (length (Table.select_where self (key_is pk k)) <= 1)%nat)
  /\ (is_nan k = true ->
      Table.select_where self (key_is pk k) = []
      /\ forall i row, Table.rows self !! i = Some row -> dict_get pk row = Some k ->
            Table.get_by_primary_key self k = Returns (Some row)).
Proof.
  intros Epk Hcons. split.
  - intros Hnan. by apply get_by_primary_key_scan.
  - intros Hnan. split.
    + apply filter_none. intros row _. unfold key_is.
      destruct (dict_get pk row) as [v|]; [|done].
      destruct (py_eq v k) eqn:E; [|done].
      apply py_eq_is_nan in E as [_ E]. congruence.
    + intros i row Hi Hk. destruct Hcons as [Hrows _].
      destruct (Hrows i row Hi) as (v & Hv & Hvi).
      assert (v = k) as -> by congruence.
      by apply (get_by_primary_key_found self pk k i row).
Qed.

Lemma users_index_consistent : index_consistent users "id".
Proof.
  set (t0 := Table.new "users" users_columns).
  set (t1 := (Table.insert (user 1 "a@x.com" 30) t0).2).
  apply (insert_index_consistent t1 "id" (user 2 "b@x.com" 25));
    [vm_compute; reflexivity| |reflexivity].
  apply (insert_index_consistent t0 "id" (user 1 "a@x.com" 30));
    [vm_compute; reflexivity| |reflexivity].
  apply new_index_consistent.
Qed.

(** The theorem at the two users and the key [2.0]. *)
Lemma second_user_is_the_scan :
  Table.get_by_primary_key users (VFloat (Q2Qc 2))
  = Returns (head (Table.select_where users (key_is "id" (VFloat (Q2Qc 2)))))
  /\ (length (Table.select_where users (key_is "id" (VFloat (Q2Qc 2)))) <= 1)%nat.
Proof.
  apply (get_by_primary_key_is_the_scan users "id" (VFloat (Q2Qc 2))).
  - reflexivity.
  - apply users_index_consistent.
  - reflexivity.
Defined.

(** ** [delete] *)

Lemma matching_snoc (condition : pydict -> bool) (pre : list pydict) x :
  List.filter (fun entry : nat * pydict => condition entry.2) (enumerate (pre ++ [x]))
  = (List.filter (fun entry : nat * pydict => condition entry.2) (enumerate pre)
     ++ if condition x then [(length pre, x)] else [])%list.
Proof. rewrite enumerate_snoc, List.filter_app. simpl. by destruct (condition x). Qed.

Lemma unique_columns_columns s1 s2 :
  Table.columns s1 = Table.columns s2 ->
  Table.unique_columns s1 = Table.unique_columns s2.
Proof. unfold Table.unique_columns. by intros ->. Qed.

(** The loop of [delete] over the matched rows, last one first: the rows
    [pre] it still has to look at are followed by the rows [suf] it has
    kept. *)
Lemma delete_loop self0 (condition : pydict -> bool) :
  forall pre suf s,
  Table.columns s = Table.columns self0 ->
  Table.rows s = (pre ++ suf)%list ->
  (forall row c, row ∈ pre -> c ∈ Table.unique_columns self0 ->
     is_Some (dict_get c row)) ->
  (forall pk, truthy (Table.primary_key self0) = Some pk ->
     all_have pk pre /\ NoDup (key_at pk <$> pre)
     /\ forall row, row ∈ pre ->
          is_Some (Table.primary_key_index s !! key_at pk row)) ->
  exists s',
    Table.for_M (rev (List.filter (fun entry : nat * pydict => condition entry.2)
                        (enumerate pre)))
      (fun entry =>
         _ ← match truthy (Table.primary_key self0) with
             | Some pk =>
                 pk_value ← Table.lift (getitem entry.2 pk);
                 Table.index_del (key_of pk_value)
             | None => Table.skip
             end;
         _ ← Table.discard_unique_values entry.2;
         Table.rows_del entry.1) s
    = (Returns tt, s')
    /\ Table.name s' = Table.name s
    /\ Table.columns s' = Table.columns self0
    /\ Table.rows s' = (List.filter (fun row => negb (condition row)) pre ++ suf)%list
    /\ (truthy (Table.primary_key self0) = None ->
        Table.primary_key_index s' = Table.primary_key_index s).
Proof.
  induction pre as [|x pre IH] using rev_ind; intros suf s Hcols Hrows Hcomplete Hkeys.
  - exists s. done.
  - rewrite matching_snoc, rev_app_distr, List.filter_app. simpl.
    assert (Hcomplete' : forall row c, row ∈ pre -> c ∈ Table.unique_columns self0 ->
                           is_Some (dict_get c row)).
    { intros row c Hrow. apply Hcomplete, elem_of_app. by left. }
    destruct (condition x) eqn:Ex; simpl.
    + unfold Table.for_M. rewrite for_accM_cons. rewrite bind_run.
      (* the key of the row goes out of the index *)
      assert (exists s1,
        match truthy (Table.primary_key self0) with
        | Some pk =>
            pk_value ← Table.lift (getitem (length pre, x).2 pk);
            Table.index_del (key_of pk_value)
        | None => Table.skip
        end s = (Returns tt, s1)
        /\ Table.name s1 = Table.name s
        /\ Table.columns s1 = Table.columns s
        /\ Table.rows s1 = Table.rows s
        /\ (truthy (Table.primary_key self0) = None ->
            Table.primary_key_index s1 = Table.primary_key_index s)
        /\ (forall pk, truthy (Table.primary_key self0) = Some pk ->
            Table.primary_key_index s1
            = delete (key_at pk x) (Table.primary_key_index s)))
        as (s1 & -> & Hn1 & Hc1 & Hr1 & Hp1 & Hp1').
      { destruct (truthy (Table.primary_key self0)) as [pk|] eqn:Epk.
        - destruct (Hkeys pk eq_refl) as (Hall & Hnd & Hin).
          assert (is_Some (dict_get pk x)) as [v Hv].
          { eapply Forall_forall in Hall; [exact Hall|].
            apply elem_of_app. right. left. }
          rewrite bind_run. unfold Table.lift at 1, getitem. simpl. rewrite Hv.
          unfold Table.index_del.
          destruct (Hin x) as [i Hi]; [apply elem_of_app; right; left|].
          unfold key_at in Hi. rewrite Hv in Hi. simpl in Hi. rewrite Hi.
          eexists. split; [reflexivity|]. repeat split; try done.
          intros pk' [= <-]. unfold key_at. by rewrite Hv.
        - exists s. repeat split; done. }
      rewrite bind_run. cbn [fst snd].
      destruct (discard_unique_values_run x s1) as (s2 & -> & Hn2 & Hc2 & Hr2 & Hp2).
      { intros c Hc. apply Hcomplete; [apply elem_of_app; right; left|].
        rewrite <- (unique_columns_columns s1 self0); [done|congruence]. }
      unfold Table.rows_del at 1. rewrite Hr2, Hr1, Hrows.
      rewrite bool_decide_eq_true_2.
      2:{ rewrite !length_app. simpl. lia. }
      destruct (IH suf (Table.set_rows (delete (length pre) ((pre ++ [x]) ++ suf)%list) s2))
        as (s' & Hrun & Hn & Hc & Hr & Hp); [simpl; congruence| | | |].
      * simpl. rewrite <- app_assoc. simpl.
        rewrite delete_middle. done.
      * done.
      * intros pk Epk. destruct (Hkeys pk Epk) as (Hall & Hnd & Hin).
        apply Forall_app in Hall as [Hall _].
        rewrite fmap_app in Hnd. apply NoDup_app in Hnd as (Hnd & Hdis & _).
        split; [done|]. split; [done|]. intros row Hrow. simpl.
        rewrite Hp2, (Hp1' pk Epk). rewrite lookup_delete_ne.
        -- apply Hin, elem_of_app. by left.
        -- intros Heq. apply (Hdis (key_at pk row)).
           ++ by apply list_elem_of_fmap_2.
           ++ rewrite <- Heq. simpl. left.
      * exists s'. split; [exact Hrun|]. simpl in *.
        split; [congruence|]. split; [done|]. split.
        -- rewrite Hr, app_nil_r. done.
        -- intros Epk. rewrite (Hp Epk), Hp2. by apply Hp1.
    + destruct (IH (x :: suf) s) as (s' & Hrun & Hn & Hc & Hr & Hp); [done| |done| |].
      * rewrite Hrows, <- app_assoc. done.
      * intros pk Epk. destruct (Hkeys pk Epk) as (Hall & Hnd & Hin).
        apply Forall_app in Hall as [Hall _].
        rewrite fmap_app in Hnd. apply NoDup_app in Hnd as (Hnd & _ & _).
        split; [done|]. split; [done|]. intros row Hrow.
        apply Hin, elem_of_app. by left.
      * exists s'. split; [exact Hrun|]. split; [done|]. split; [done|].
        split; [|done]. rewrite Hr, <- app_assoc. done.
Qed.

Lemma filter_filter_negb {A} (f : A -> bool) (l : list A) :
  List.filter f (List.filter (fun x => negb (f x)) l) = [].
Proof.
  apply filter_none. intros y Hy. apply filter_bool_elem in Hy as [_ Hy].
  by destruct (f y).
Qed.

(** What a call of [delete] does on a table that has the unique columns in
    every row and a consistent index. *)
Lemma delete_run self condition :
  (forall row c, row ∈ Table.rows self -> c ∈ Table.unique_columns self ->
     is_Some (dict_get c row)) ->
  (forall pk, truthy (Table.primary_key self) = Some pk -> index_consistent self pk) ->
  exists s',
    Table.delete condition self
    = (Returns (length (Table.select_where self condition)), s')
    /\ Table.name s' = Table.name self
    /\ Table.columns s' = Table.columns self
    /\ Table.rows s' = List.filter (fun row => negb (condition row)) (Table.rows self)
    /\ match truthy (Table.primary_key self) with
       | Some pk =>
           Table.primary_key_index s' = index_of pk (Table.rows s')
           /\ index_consistent s' pk
       | None => Table.primary_key_index s' = Table.primary_key_index self
       end.
Proof.
  intros Hcomplete Hcons.
  unfold Table.delete. rewrite bind_run. unfold Table.get at 1.
  rewrite bind_run. unfold Table.matching.
  destruct (delete_loop self condition (Table.rows self) [] self)
    as (s1 & -> & Hn1 & Hc1 & Hr1 & Hp1); [done|by rewrite app_nil_r|done| |].
  { intros pk Epk. destruct (Hcons pk Epk) as [Hrows Hidx].
    destruct (index_consistent_keys self pk (Hcons pk Epk)) as [Hall Hnd].
    split; [done|]. split; [done|]. intros row Hrow.
    apply list_elem_of_lookup in Hrow as [i Hi].
    destruct (Hrows i row Hi) as (v & Hv & Hk). unfold key_at. rewrite Hv. by eexists. }
  rewrite app_nil_r in Hr1.
  assert (length (List.filter (fun entry : nat * pydict => condition entry.2)
                    (enumerate (Table.rows self)))
          = length (Table.select_where self condition)) as Hlen.
  { rewrite <- matching_select_where, length_fmap. done. }
  rewrite bind_run.
  destruct (truthy (Table.primary_key self)) as [pk|] eqn:Epk.
  - destruct (index_consistent_keys self pk (Hcons pk eq_refl)) as [Hall Hnd].
    destruct (keys_sublist pk (Table.rows s1) (Table.rows self))
      as [Hall' Hnd']; [rewrite Hr1; apply filter_bool_sublist|done|done|].
    rewrite rebuild_index_run by done.
    eexists. split; [unfold mret, Table.M_ret; rewrite Hlen; reflexivity|].
    simpl. repeat (split; [done|]).
    apply index_of_consistent; done.
  - exists s1. split; [unfold Table.skip, mret, Table.M_ret; by rewrite Hlen|].
    repeat (split; [done|]). by apply Hp1.
Qed.

(** X5: on a table whose rows have every unique column and whose
    primary-key index agrees with its rows, [delete] does not raise; it
    returns the number of rows the condition selects, keeps the other rows in
    their order, leaves no row that meets the condition, and ends with an
    index that agrees with the rows that are left. *)
Theorem delete_removes_the_matching_rows (self : Table.t) (condition : pydict -> bool) :
  (forall row c, row ∈ Table.rows self -> c ∈ Table.unique_columns self ->
     is_Some (dict_get c row)) ->
  (forall pk, truthy (Table.primary_key self) = Some pk -> index_consistent self pk) ->
  exists s',
    Table.delete condition self
    = (Returns (length (Table.select_where self condition)), s')
    /\ Table.columns s' = Table.columns self
    /\ Table.rows s' = List.filter (fun row => negb (condition row)) (Table.rows self)
    /\ Table.select_where s' condition = []
    /\ (forall pk, truthy (Table.primary_key self) = Some pk -> index_consistent s' pk)
    /\ (truthy (Table.primary_key self) = None ->
        Table.primary_key_index s' = Table.primary_key_index self).
Proof.
  intros Hcomplete Hcons.
  destruct (delete_run self condition Hcomplete Hcons)
    as (s' & Hrun & _ & Hc & Hr & Hp).
  exists s'. split; [done|]. split; [done|]. split; [done|]. split.
  { unfold Table.select_where. rewrite Hr. apply filter_filter_negb. }
  split.
  - intros pk Epk. rewrite Epk in Hp. by destruct Hp.
  - intros Epk. by rewrite Epk in Hp.
Qed.

(** X6: a second [delete] with the same condition finds nothing: it returns
    0 and leaves the table exactly as the first one left it. *)
Theorem delete_twice (self : Table.t) (condition : pydict -> bool) :
  (forall row c, row ∈ Table.rows self -> c ∈ Table.unique_columns self ->
     is_Some (dict_get c row)) ->
  (forall pk, truthy (Table.primary_key self) = Some pk -> index_consistent self pk) ->
  Table.delete condition (Table.delete condition self).2
  = (Returns 0%nat, (Table.delete condition self).2).
Proof.
  intros Hcomplete Hcons.
  destruct (delete_run self condition Hcomplete Hcons)
    as (s' & Hrun & Hn & Hc & Hr & Hp).
  rewrite Hrun. simpl.
  assert (Table.matching condition s' = []) as Hm.
  { apply (fmap_nil_inv snd). rewrite matching_select_where.
    unfold Table.select_where. rewrite Hr. apply filter_filter_negb. }
  assert (truthy (Table.primary_key s') = truthy (Table.primary_key self)) as Epk'.
  { unfold Table.primary_key. by rewrite Hc. }
  unfold Table.delete. rewrite bind_run. unfold Table.get at 1.
  rewrite Hm. simpl. rewrite bind_run. unfold Table.for_M. simpl.
  unfold mret at 1, Table.M_ret at 1. rewrite bind_run. rewrite Epk'.
  destruct (truthy (Table.primary_key self)) as [pk|] eqn:Epk; [|done].
  destruct Hp as [Hidx Hcons'].
  destruct (index_consistent_keys s' pk Hcons') as [Hall _].
  rewrite rebuild_index_run by done. rewrite <- Hidx.
  unfold mret, Table.M_ret. f_equal. by destruct s'.
Qed.

(** The two users have their columns, and their index agrees with them. *)
Lemma users_rows_complete row c :
  row ∈ Table.rows users -> c ∈ Table.column_names users -> is_Some (dict_get c row).
Proof.
  intros Hrow Hc. vm_compute in Hrow. vm_compute in Hc.
  repeat (apply elem_of_cons in Hrow as [->|Hrow]);
    repeat (apply elem_of_cons in Hc as [->|Hc]);
    try (vm_compute; eauto; fail);
    try (by apply elem_of_nil in Hc); by apply elem_of_nil in Hrow.
Qed.

Lemma users_unique_complete row c :
  row ∈ Table.rows users -> c ∈ Table.unique_columns users -> is_Some (dict_get c row).
Proof.
  intros Hrow Hc. apply users_rows_complete; [done|].
  by apply unique_columns_declared.
Qed.

Lemma users_consistent pk :
  truthy (Table.primary_key users) = Some pk -> index_consistent users pk.
Proof. intros [= <-]. apply users_index_consistent. Qed.

(** The theorem at the two users and the condition that selects the first. *)
Lemma delete_first_user :
  exists s',
    Table.delete (id_is 1) users
    = (Returns (length (Table.select_where users (id_is 1))), s')
    /\ Table.columns s' = Table.columns users
    /\ Table.rows s' = List.filter (fun row => negb (id_is 1 row)) (Table.rows users)
    /\ Table.select_where s' (id_is 1) = []
    /\ (forall pk, truthy (Table.primary_key users) = Some pk -> index_consistent s' pk)
    /\ (truthy (Table.primary_key users) = None ->
        Table.primary_key_index s' = Table.primary_key_index users).
Proof.
  apply (delete_removes_the_matching_rows users (id_is 1)).
  - apply users_unique_complete.
  - apply users_consistent.
Defined.

(** The theorem at the two users and the condition that selects the first. *)
Lemma delete_first_user_twice :
  Table.delete (id_is 1) (Table.delete (id_is 1) users).2
  = (Returns 0%nat, (Table.delete (id_is 1) users).2).
Proof.
  apply (delete_twice users (id_is 1)).
  - apply users_unique_complete.
  - apply users_consistent.
Defined.

(** ** [delete_by_primary_key] *)

Lemma delete_filter {A} (f : A -> bool) (l : list A) i x :
  l !! i = Some x -> f x = true ->
  (forall j y, l !! j = Some y -> f y = true -> j = i) ->
  delete i l = List.filter (fun y => negb (f y)) l.
Proof.
  revert i. induction l as [|a l IH]; intros i Hi Hx Huniq; [done|].
  destruct i as [|i]; simpl in *.
  - injection Hi as ->. rewrite Hx. simpl.
    assert (Forall (fun y => f y = false) l) as Hall.
    { apply Forall_forall. intros y Hy. apply list_elem_of_lookup in Hy as [j Hj].
      destruct (f y) eqn:E; [|done]. by specialize (Huniq (S j) y Hj E). }
    clear -Hall. induction Hall as [|y l Hy _ IH]; [done|]. simpl. rewrite Hy.
    simpl. by f_equal.
  - destruct (f a) eqn:Ea.
    + by specialize (Huniq 0%nat a eq_refl Ea).
    + simpl. f_equal. apply (IH i); [done|done|]. intros j y Hj Hy.
      specialize (Huniq (S j) y Hj Hy). lia.
Qed.

Lemma filter_filter_disjoint {A} (f g : A -> bool) (l : list A) :
  (forall y, y ∈ l -> g y = true -> f y = false) ->
  List.filter g (List.filter (fun y => negb (f y)) l) = List.filter g l.
Proof.
  induction l as [|a l IH]; intros H; [done|].
  simpl. destruct (f a) eqn:Ef; simpl.
  - destruct (g a) eqn:Eg.
    + rewrite (H a) in Ef; [done|left|done].
    + apply IH. intros y Hy. apply H. by right.
  - destruct (g a); [f_equal|]; apply IH; intros y Hy; apply H; by right.
Qed.

(** The lookups after the row of a key has been taken out. *)
Lemma get_by_primary_key_after_delete self s' pk i k :
  truthy (Table.primary_key self) = Some pk ->
  truthy (Table.primary_key s') = Some pk ->
  index_consistent self pk -> index_consistent s' pk ->
  Table.rows s' = delete i (Table.rows self) ->
  Table.primary_key_index self !! key_of k = Some i ->
  Table.get_by_primary_key s' k = Returns None
  /\ forall k', key_of k' <> key_of k ->
       Table.get_by_primary_key s' k' = Table.get_by_primary_key self k'.
Proof.
  intros Epk Epk' [Hrows Hidx] [Hrows' Hidx'] Hr Ei.
  assert (Hback : forall j row, Table.rows s' !! j = Some row ->
            exists j', Table.rows self !! j' = Some row /\ j' <> i
                       /\ j = (if bool_decide (j' < i)%nat then j' else pred j')).
  { intros j row Hj. rewrite Hr in Hj.
    destruct (decide (j < i)%nat) as [Hlt|Hge].
    - rewrite list_lookup_delete_lt in Hj by done. exists j.
      split; [done|]. split; [lia|]. by rewrite bool_decide_eq_true_2.
    - rewrite list_lookup_delete_ge in Hj by lia. exists (S j).
      split; [done|]. split; [lia|]. rewrite bool_decide_eq_false_2 by lia. done. }
  assert (Hkeep : forall j row, Table.rows self !! j = Some row -> j <> i ->
            Table.rows s' !! (if bool_decide (j < i)%nat then j else pred j) = Some row).
  { intros j row Hj Hne. rewrite Hr. case_bool_decide as Hlt.
    - by rewrite list_lookup_delete_lt.
    - rewrite list_lookup_delete_ge by lia. by replace (S (pred j)) with j by lia. }
  split.
  - destruct (Table.primary_key_index s' !! key_of k) as [j|] eqn:Ej.
    2:{ by apply (get_by_primary_key_missing s' pk). }
    exfalso. destruct (Hidx' _ _ Ej) as (row & w & Hj & Hw & Hkw).
    destruct (Hback j row Hj) as (j' & Hj' & Hne & _).
    destruct (Hrows j' row Hj') as (v & Hv & Hvi).
    assert (v = w) as -> by congruence. rewrite Hkw in Hvi. congruence.
  - intros k' Hne.
    destruct (Table.primary_key_index self !! key_of k') as [j|] eqn:Ej.
    + destruct (Hidx _ _ Ej) as (row & w & Hj & Hw & Hkw).
      assert (j <> i) as Hji.
      { intros ->. destruct (Hidx _ _ Ei) as (row0 & v & Hi & Hv & Hkv).
        apply Hne. rewrite <- Hkw, <- Hkv. congruence. }
      rewrite (get_by_primary_key_found self pk k' j row Epk Ej Hj).
      pose proof (Hkeep j row Hj Hji) as Hj'.
      destruct (Hrows' _ _ Hj') as (v & Hv & Hvi).
      assert (v = w) as -> by congruence. rewrite Hkw in Hvi.
      by rewrite (get_by_primary_key_found s' pk k' _ row Epk' Hvi Hj').
    + rewrite (get_by_primary_key_missing self pk k' Epk Ej).
      destruct (Table.primary_key_index s' !! key_of k') as [j|] eqn:Ej'.
      2:{ by apply (get_by_primary_key_missing s' pk). }
      exfalso. destruct (Hidx' _ _ Ej') as (row & w & Hj & Hw & Hkw).
      destruct (Hback j row Hj) as (j' & Hj' & _ & _).
      destruct (Hrows j' row Hj') as (v & Hv & Hvi).
      assert (v = w) as -> by congruence. rewrite Hkw in Hvi. congruence.
Qed.

(** X7: on a table whose rows have every unique column and whose index
    agrees with its rows, [delete_by_primary_key] returns [False] and
    changes nothing when [get_by_primary_key] finds no row for the key;
    when it finds one, [delete_by_primary_key] returns [True] and takes
    that row out, the other rows stay in their order, the index agrees with
    them, the key is no longer found and every other key answers as
    before.  For a key that is no [nan] the rows that stay are the rows a
    scan for [row[pk] != k] keeps; a [nan] key takes out the row that holds
    this very [nan] object, although no row is [==] to it. *)
Theorem delete_by_primary_key_removes_the_keyed_row
    (self : Table.t) (pk : string) (k : value) :
  truthy (Table.primary_key self) = Some pk ->
  index_consistent self pk ->
  (forall row c, row ∈ Table.rows self -> c ∈ Table.unique_columns self ->
     is_Some (dict_get c row)) ->
  match Table.get_by_primary_key self k with
  | Returns None => Table.delete_by_primary_key k self = (Returns false, self)
  | Returns (Some row) =>
      exists s' i,
        Table.delete_by_primary_key k self = (Returns true, s')
        /\ Table.columns s' = Table.columns self
        /\ Table.rows self !! i = Some row
        /\ Table.rows s' = delete i (Table.rows self)
        /\ (is_nan k = false ->
            Table.rows s'
            = List.filter (fun row => negb (key_is pk k row)) (Table.rows self))
        /\ length (Table.rows self) = S (length (Table.rows s'))
        /\ index_consistent s' pk
        /\ Table.get_by_primary_key s' k = Returns None
        /\ forall k', py_eq k' k = false -> k' <> k ->
             Table.get_by_primary_key s' k' = Table.get_by_primary_key self k'
  | Raises _ => False
  end.
Proof.
  intros Epk Hcons Hcomplete.
  pose proof (delete_by_primary_key_consistent self pk k Epk Hcons Hcomplete) as Hrun.
  destruct (Table.primary_key_index self !! key_of k) as [i|] eqn:Ei.
  2:{ by rewrite (get_by_primary_key_missing self pk k Epk Ei). }
  pose proof Hcons as [Hrows Hidx].
  destruct (Hidx _ _ Ei) as (row & v & Hi & Hv & Hk).
  rewrite (get_by_primary_key_found self pk k i row Epk Ei Hi).
  destruct Hrun as (s' & Hrun & Hc & Hr & Hcons').
  assert (truthy (Table.primary_key s') = Some pk) as Epk'.
  { rewrite <- Epk. unfold Table.primary_key. by rewrite Hc. }
  destruct (get_by_primary_key_after_delete self s' pk i k Epk Epk' Hcons Hcons' Hr Ei)
    as [Hgone Hothers].
  exists s', i. split; [done|]. split; [done|]. split; [done|]. split; [done|]. split.
  { intros Hnan. rewrite Hr. apply (delete_filter (key_is pk k) _ i row); [done| |].
    - unfold key_is. rewrite Hv. by apply key_py_eq.
    - intros j y Hj Hy. destruct (Hrows j y Hj) as (w & Hw & Hwi).
      unfold key_is in Hy. rewrite Hw in Hy. apply py_eq_key in Hy.
      rewrite Hy in Hwi. congruence. }
  split.
  { rewrite Hr, length_delete by (by eexists).
    apply lookup_lt_Some in Hi. lia. }
  split; [done|]. split; [done|].
  intros k' Hk' Hne. apply Hothers. by apply key_of_ne.
Qed.

(** The theorem at the two users and the key [1]. *)
Lemma delete_user_by_key :
  match Table.get_by_primary_key users (VInt 1) with
  | Returns None => Table.delete_by_primary_key (VInt 1) users = (Returns false, users)
  | Returns (Some row) =>
      exists s' i,
        Table.delete_by_primary_key (VInt 1) users = (Returns true, s')
        /\ Table.columns s' = Table.columns users
        /\ Table.rows users !! i = Some row
        /\ Table.rows s' = delete i (Table.rows users)
        /\ (is_nan (VInt 1) = false ->
            Table.rows s'
            = List.filter (fun row => negb (key_is "id" (VInt 1) row)) (Table.rows users))
        /\ length (Table.rows users) = S (length (Table.rows s'))
        /\ index_consistent s' "id"
        /\ Table.get_by_primary_key s' (VInt 1) = Returns None
        /\ forall k', py_eq k' (VInt 1) = false -> k' <> VInt 1 ->
             Table.get_by_primary_key s' k' = Table.get_by_primary_key users k'
  | Raises _ => False
  end.
Proof.
  apply (delete_by_primary_key_removes_the_keyed_row users "id" (VInt 1)).
  - reflexivity.
  - apply users_index_consistent.
  - apply users_unique_complete.
Defined.

(** ** The two joins on consistent tables *)

(** X8: [inner_join_optimized] returns what [inner_join] returns, or raises
    what it raises, for every projection list, when every left row has a
    join value that is no [nan] and, in case the right column is the primary
    key of the right table, the name of that column is not the empty string
    and the primary-key index of the right table agrees with its rows. *)
Theorem joins_agree_on_consistent_tables
    (self : Database.t) (ln rn lc rc : string) (select_columns : option (list string)) :
  (forall right, Database.get_table self rn = Returns right ->
     Table.primary_key right = Some rc ->
     rc <> EmptyString /\ index_consistent right rc) ->
  (forall left row, Database.get_table self ln = Returns left ->
     row ∈ Table.rows left ->
     exists v, dict_get lc row = Some v /\ is_nan v = false) ->
  Database.inner_join_optimized self ln rn lc rc select_columns
  = Database.inner_join self ln rn lc rc select_columns.
Proof.
  intros Hright Hleft. apply joins_agree_on_consistent_index.
  - intros right Hr. apply Hright. unfold Database.get_table. by rewrite Hr.
  - intros left row Hl. apply (Hleft left). unfold Database.get_table. by rewrite Hl.
Qed.

(** The theorem at the orders and the users of [Scenario.db]. *)
Lemma joins_agree_on_orders_and_users :
  Database.inner_join_optimized db "orders" "users" "user_id" "id" (Some ["email"])
  = Database.inner_join db "orders" "users" "user_id" "id" (Some ["email"]).
Proof.
  apply (joins_agree_on_consistent_tables db "orders" "users" "user_id" "id").
  - intros right Hr _. split; [done|].
    assert (Database.get_table db "users" = Returns users) as Hu
      by (vm_compute; reflexivity).
    rewrite Hu in Hr. injection Hr as <-. apply users_index_consistent.
  - intros left row Hl Hrow.
    assert (Database.get_table db "orders" = Returns orders) as Ho
      by (vm_compute; reflexivity).
    rewrite Ho in Hl. injection Hl as <-.
    vm_compute in Hrow. apply elem_of_cons in Hrow as [->|Hrow].
    + by exists (VInt 1).
    + by apply elem_of_nil in Hrow.
Defined.

(** ** The nested-loop join as a comprehension *)

Lemma qualify_loop table_name names row :
  (forall c, c ∈ names -> is_Some (dict_get c row)) ->
  forall acc,
  for_acc names (fun col joined =>
    v ← getitem row col;
    Returns (dict_set (qualified table_name col) v joined)) acc
  = Returns (dict_update acc (qualified_items table_name names row)).
Proof.
  induction names as [|c names IH]; intros Hall acc; [done|].
  destruct (Hall c) as [v Hv]; [left|].
  rewrite for_acc_cons. unfold mbind at 1, outcome_bind at 1, getitem at 1.
  rewrite Hv. rewrite IH.
  - change (qualified_items table_name (c :: names) row)
      with ((qualified table_name c, default VNone (dict_get c row))
            :: qualified_items table_name names row).
    rewrite dict_update_cons. cbn [fst snd]. by rewrite Hv.
  - intros c' Hc'. apply Hall. by right.
Qed.

Lemma joined_row_paired ln rn left right l r :
  (forall c, c ∈ Table.column_names left -> is_Some (dict_get c l)) ->
  (forall c, c ∈ Table.column_names right -> is_Some (dict_get c r)) ->
  Database.joined_row ln rn left right l r = Returns (paired ln rn left right l r).
Proof.
  intros Hl Hr. unfold Database.joined_row.
  rewrite (qualify_loop ln _ l Hl). unfold mbind, outcome_bind.
  rewrite (qualify_loop rn _ r Hr). unfold paired, dict_of, dict_update.
  by rewrite fold_left_app.
Qed.

Lemma for_acc_collect {A B} (g : A -> list B) (l : list A)
    (body : A -> list B -> outcome (list B)) :
  (forall a acc, a ∈ l -> body a acc = Returns (acc ++ g a)%list) ->
  forall acc, for_acc l body acc = Returns (acc ++ flat_map g l)%list.
Proof.
  induction l as [|a l IH]; intros Hbody acc.
  - simpl. by rewrite app_nil_r.
  - rewrite for_acc_cons, Hbody by left. rewrite IH.
    + simpl. by rewrite app_assoc.
    + intros b acc' Hb. apply Hbody. by right.
Qed.

Lemma scan_right_collect ln rn left right lc rc l :
  (forall c, c ∈ Table.column_names left -> is_Some (dict_get c l)) ->
  lc ∈ Table.column_names left -> rc ∈ Table.column_names right ->
  rows_complete right ->
  forall result,
  Database.scan_right ln rn left right lc rc l result
  = Returns (result ++ map (paired ln rn left right l)
                         (List.filter (join_on lc rc l) (Table.rows right)))%list.
Proof.
  intros Hl Hlc Hrc Hright result. unfold Database.scan_right.
  rewrite (for_acc_collect
             (fun r => if join_on lc rc l r then [paired ln rn left right l r] else [])).
  - f_equal. f_equal. clear. induction (Table.rows right) as [|r rows IH]; [done|].
    simpl. destruct (join_on lc rc l r); simpl; by rewrite IH.
  - intros r acc Hr.
    destruct (Hl lc Hlc) as [a Ha]. destruct (Hright r rc Hr Hrc) as [b Hb].
    unfold mbind at 1, outcome_bind at 1, getitem at 1. rewrite Ha.
    unfold mbind at 1, outcome_bind at 1, getitem at 1. rewrite Hb.
    unfold join_on. rewrite Ha, Hb. destruct (py_eq a b).
    + rewrite joined_row_paired; [done|done|]. intros c Hc. by apply Hright.
    + by rewrite app_nil_r.
Qed.

Lemma join_tables_Returns self ln rn lc rc left right :
  Database.get_table self ln = Returns left ->
  Database.get_table self rn = Returns right ->
  lc ∈ Table.column_names left -> rc ∈ Table.column_names right ->
  Database.join_tables self ln rn lc rc = Returns (left, right).
Proof.
  intros Hl Hr Hlc Hrc. unfold Database.join_tables. rewrite Hl, Hr.
  unfold mbind, outcome_bind.
  by rewrite (bool_decide_eq_true_2 _ Hlc), (bool_decide_eq_true_2 _ Hrc).
Qed.

(** X9: on two registered tables whose rows have all their columns,
    [inner_join] without a projection list raises nothing and returns, for
    each left row in order, its pairing with each right row in order whose
    join value is [==] to the left one; two [None]s are equal, so rows with
    a null join value are paired with each other. *)
Theorem inner_join_is_the_nested_comprehension
    (self : Database.t) (ln rn lc rc : string) (left right : Table.t) :
  Database.get_table self ln = Returns left ->
  Database.get_table self rn = Returns right ->
  lc ∈ Table.column_names left -> rc ∈ Table.column_names right ->
  rows_complete left -> rows_complete right ->
  Database.inner_join self ln rn lc rc None
  = Returns (flat_map (fun l =>
               map (paired ln rn left right l)
                 (List.filter (join_on lc rc l) (Table.rows right)))
               (Table.rows left))
  /\ (forall l r, dict_get lc l = Some VNone -> dict_get rc r = Some VNone ->
        join_on lc rc l r = true)
  /\ (forall l r c, c ∈ Table.column_names right ->
        dict_get (qualified rn c) (paired ln rn left right l r)
        = Some (default VNone (dict_get c r))).
Proof.
  intros Hl Hr Hlc Hrc Hleft Hright. split; [|split].
  - unfold Database.inner_join.
    rewrite (join_tables_Returns self ln rn lc rc left right) by done.
    unfold mbind at 1, outcome_bind at 1.
    rewrite (for_acc_collect
               (fun l => map (paired ln rn left right l)
                           (List.filter (join_on lc rc l) (Table.rows right)))).
    + done.
    + intros l acc Hin. apply scan_right_collect; try done.
      intros c Hc. by apply Hleft.
  - intros l r Ha Hb. unfold join_on. by rewrite Ha, Hb.
  - intros l r c Hc. unfold paired, dict_of.
    unfold dict_update. rewrite fold_left_app.
    fold (dict_update [] (qualified_items ln (Table.column_names left) l)).
    generalize (dict_update [] (qualified_items ln (Table.column_names left) l)).
    revert Hc. unfold qualified_items. generalize (Table.column_names right).
    intros names. induction names as [|c0 names IH] using rev_ind; intros Hc d.
    + by apply elem_of_nil in Hc.
    + rewrite map_app, fold_left_app. simpl.
      destruct (decide (c0 = c)) as [->|Hne].
      * apply dict_get_set_eq.
      * rewrite dict_get_set_ne.
        -- apply IH. apply elem_of_app in Hc as [Hc|Hc]; [done|].
           apply list_elem_of_singleton in Hc. congruence.
        -- unfold qualified. intros Heq. apply Hne.
           by apply (inj (String.append rn)), (inj (String.append ".")) in Heq.
Qed.

Lemma orders_rows_complete : rows_complete orders.
Proof.
  intros row c Hrow Hc. vm_compute in Hrow. vm_compute in Hc.
  repeat (apply elem_of_cons in Hrow as [->|Hrow]);
    repeat (apply elem_of_cons in Hc as [->|Hc]);
    try (vm_compute; eauto; fail);
    try (by apply elem_of_nil in Hc); by apply elem_of_nil in Hrow.
Qed.

(** The theorem at the orders and the users of [Scenario.db]. *)
Lemma orders_with_their_users :
  Database.inner_join db "orders" "users" "user_id" "id" None
  = Returns (flat_map (fun l =>
               map (paired "orders" "users" orders users l)
                 (List.filter (join_on "user_id" "id" l) (Table.rows users)))
               (Table.rows orders))
  /\ (forall l r, dict_get "user_id" l = Some VNone -> dict_get "id" r = Some VNone ->
        join_on "user_id" "id" l r = true)
  /\ (forall l r c, c ∈ Table.column_names users ->
        dict_get (qualified "users" c) (paired "orders" "users" orders users l r)
        = Some (default VNone (dict_get c r))).
Proof.
  apply (inner_join_is_the_nested_comprehension db "orders" "users" "user_id" "id"
           orders users).
  - vm_compute. reflexivity.
  - vm_compute. reflexivity.
  - vm_compute. right. left.
  - vm_compute. left.
  - apply orders_rows_complete.
  - intros row c. apply users_rows_complete.
Defined.

(** ** Projections on declared columns *)

Lemma project_loop_Raises columns row e : forall acc,
  for_acc columns (fun col acc =>
    v ← getitem row col; Returns (dict_set col v acc)) acc = Raises e ->
  e = KeyError.
Proof.
  induction columns as [|c columns IH]; intros acc; [done|].
  rewrite for_acc_cons. unfold mbind at 1, outcome_bind at 1, getitem at 1.
  destruct (dict_get c row); [apply IH|]. by intros [= <-].
Qed.

Lemma project_loop_missing columns row c : forall acc,
  c ∈ columns -> dict_get c row = None ->
  for_acc columns (fun col acc =>
    v ← getitem row col; Returns (dict_set col v acc)) acc = Raises KeyError.
Proof.
  induction columns as [|c0 columns IH]; intros acc Hin Hget.
  - by apply elem_of_nil in Hin.
  - rewrite for_acc_cons. unfold mbind at 1, outcome_bind at 1, getitem at 1.
    destruct (dict_get c0 row) eqn:E; [|done].
    apply IH; [|done]. apply elem_of_cons in Hin as [->|Hin]; [congruence|done].
Qed.

Lemma project_rows_missing columns rows row c :
  row ∈ rows -> c ∈ columns -> dict_get c row = None ->
  forall acc,
  for_acc rows (fun row acc =>
    r ← Table.project columns row; Returns (acc ++ [r])%list) acc
  = Raises KeyError.
Proof.
  intros Hrow Hc Hget. induction rows as [|row0 rows IH]; intros acc.
  - by apply elem_of_nil in Hrow.
  - rewrite for_acc_cons. unfold mbind at 1, outcome_bind at 1.
    destruct (Table.project columns row0) as [r|e] eqn:E.
    + apply IH. apply elem_of_cons in Hrow as [->|Hrow]; [|done].
      unfold Table.project in E.
      by rewrite (project_loop_missing columns row0 c [] Hc Hget) in E.
    + f_equal. by apply (project_loop_Raises columns row0 e []).
Qed.

(** X10: [select_columns] with a list of names that is not empty and has no
    wildcard.  A name that is not declared raises 'does not exist' for the
    first such name, before any row is looked at; when every name is
    declared, a row that lacks one of them raises [KeyError], and rows that
    have them all give as many rows, each holding the named columns and
    nothing else. *)
Theorem select_columns_projects
    (self : Table.t) (rows : list pydict) (columns : list string) :
  columns <> [] -> "*" ∉ columns ->
  ((exists c, c ∈ columns /\ c ∉ Table.column_names self) ->
   exists c, c ∈ columns /\ (c ∉ Table.column_names self)
     /\ forall rows', Table.select_columns self rows' columns
          = Raises (ValueError (ColumnDoesNotExist c (Table.name self))))
  /\ ((forall c, c ∈ columns -> c ∈ Table.column_names self) ->
      ((exists row c, row ∈ rows /\ c ∈ columns /\ dict_get c row = None) ->
       Table.select_columns self rows columns = Raises KeyError)
      /\ ((forall row c, row ∈ rows -> c ∈ columns -> is_Some (dict_get c row)) ->
          exists out,
            Table.select_columns self rows columns = Returns out
            /\ Forall2 (fun row r => forall k,
                 dict_get k r = if bool_decide (k ∈ columns)
                                then dict_get k row else None) rows out)).
Proof.
  intros Hne Hstar.
  assert (Hgo : forall rows',
            Table.select_columns self rows' columns
            = (_ ← for_each columns (fun col =>
                 raise_if (negb (bool_decide (col ∈ Table.column_names self)))
                   (ColumnDoesNotExist col (Table.name self)));
               for_acc rows' (fun row acc =>
                 r ← Table.project columns row; Returns (acc ++ [r])%list) [])).
  { intros rows'. unfold Table.select_columns.
    rewrite (bool_decide_eq_false_2 _ Hne), (bool_decide_eq_false_2 _ Hstar). done. }
  split.
  - intros (c & Hc & Hun).
    destruct (for_each columns (fun col =>
                raise_if (negb (bool_decide (col ∈ Table.column_names self)))
                  (ColumnDoesNotExist col (Table.name self)))) as [[]|e] eqn:E.
    + apply for_each_Returns in E. eapply Forall_forall in E; [|exact Hc].
      simpl in E. by rewrite (bool_decide_eq_false_2 _ Hun) in E.
    + pose proof E as E'. apply for_each_Raises in E' as (a & Ha & Hbody).
      unfold raise_if in Hbody. case_bool_decide as Hin; [done|].
      simpl in Hbody. injection Hbody as <-.
      exists a. split; [done|]. split; [done|]. intros rows'.
      by rewrite Hgo.
  - intros Hdecl.
    assert (for_each columns (fun col =>
              raise_if (negb (bool_decide (col ∈ Table.column_names self)))
                (ColumnDoesNotExist col (Table.name self))) = Returns tt) as Hok.
    { apply for_each_Returns, Forall_forall. intros c Hc.
      by rewrite (bool_decide_eq_true_2 _ (Hdecl c Hc)). }
    split.
    + intros (row & c & Hrow & Hc & Hget). rewrite Hgo, Hok.
      unfold mbind, outcome_bind.
      by apply (project_rows_missing columns rows row c).
    + intros Hall. rewrite Hgo, Hok. unfold mbind at 1, outcome_bind at 1.
      destruct (project_rows columns rows Hall []) as (out & Hrun & Hout).
      exists out. split; [exact Hrun|done].
Qed.

(** The theorem at the two users and the names [email] and [id]. *)
Lemma project_users_on_email_and_id :
  ((exists c, c ∈ ["email"; "id"] /\ c ∉ Table.column_names users) ->
   exists c, c ∈ ["email"; "id"] /\ (c ∉ Table.column_names users)
     /\ forall rows', Table.select_columns users rows' ["email"; "id"]
          = Raises (ValueError (ColumnDoesNotExist c (Table.name users))))
  /\ ((forall c, c ∈ ["email"; "id"] -> c ∈ Table.column_names users) ->
      ((exists row c, row ∈ Table.select_all users /\ c ∈ ["email"; "id"]
                      /\ dict_get c row = None) ->
       Table.select_columns users (Table.select_all users) ["email"; "id"]
       = Raises KeyError)
      /\ ((forall row c, row ∈ Table.select_all users -> c ∈ ["email"; "id"] ->
             is_Some (dict_get c row)) ->
          exists out,
            Table.select_columns users (Table.select_all users) ["email"; "id"]
            = Returns out
            /\ Forall2 (fun row r => forall k,
                 dict_get k r = if bool_decide (k ∈ ["email"; "id"])
                                then dict_get k row else None)
                 (Table.select_all users) out)).
Proof.
  apply (select_columns_projects users (Table.select_all users) ["email"; "id"]).
  - done.
  - intros H. repeat (apply elem_of_cons in H as [H|H]; [done|]).
    by apply elem_of_nil in H.
Defined.

(** ** What every sequence of calls keeps *)

Lemma for_accM_invariant {A S} (P : Table.t -> Prop) (l : list A)
    (body : A -> S -> Table.M S) :
  (forall a s self, a ∈ l -> P self -> P (body a s self).2) ->
  forall s self, P self -> P (Table.for_accM l body s self).2.
Proof.
  induction l as [|a l IH]; intros Hbody s self HP; [done|].
  rewrite for_accM_cons.
  pose proof (Hbody a s self (list_elem_of_here _ _) HP) as H1.
  destruct (body a s self) as [[s1|e] self1]; simpl in H1; [|done].
  apply IH; [|done]. intros b t self' Hb. apply Hbody. by right.
Qed.

Lemma shrinks_bind {A B} (c : Table.M A) (k : A -> Table.M B) :
  shrinks c -> (forall a, shrinks (k a)) -> shrinks (c ≫= k).
Proof.
  intros Hc Hk s. rewrite bind_run. destruct (Hc s) as [H1 H2].
  destruct (c s) as [[a|e] s1]; simpl in *; [|done].
  destruct (Hk a s1) as [H3 H4]. split; [congruence|]. intros row Hrow. auto.
Qed.

Lemma shrinks_for_M {A} (l : list A) (body : A -> Table.M unit) :
  (forall a, shrinks (body a)) -> shrinks (Table.for_M l body).
Proof.
  intros Hbody. unfold Table.for_M. generalize tt.
  induction l as [|a l IH]; intros u s; [done|].
  change (Table.for_accM (a :: l) (fun a _ => body a) u)
    with (body a ≫= fun s' => Table.for_accM l (fun a _ => body a) s').
  apply shrinks_bind; [apply Hbody|]. intros u'. apply IH.
Qed.

Lemma shrinks_frame {A} (c : Table.M A) :
  (forall s, Table.columns (c s).2 = Table.columns s) ->
  (forall s, Table.rows (c s).2 = Table.rows s) ->
  shrinks c.
Proof. intros Hc Hr s. split; [done|]. by rewrite Hr. Qed.

Lemma shrinks_index_del k : shrinks (Table.index_del k).
Proof.
  apply shrinks_frame; intros s; unfold Table.index_del; by destruct (_ !! _).
Qed.

Lemma shrinks_rows_del i : shrinks (Table.rows_del i).
Proof.
  intros s. unfold Table.rows_del. case_bool_decide; simpl; [|done].
  split; [done|]. intros row. apply list_elem_of_delete_inv.
Qed.

Lemma shrinks_discard_unique_values row : shrinks (Table.discard_unique_values row).
Proof.
  unfold Table.discard_unique_values. apply shrinks_bind; [by apply shrinks_frame|].
  intros self. apply shrinks_for_M. intros c.
  destruct (Table.not_primary_key self c); [|by apply shrinks_frame].
  apply shrinks_bind; [by apply shrinks_frame|]. intros v.
  destruct (negb (is_none v)); by apply shrinks_frame.
Qed.

Lemma shrinks_rebuild_index pk : shrinks (Table.rebuild_index pk).
Proof.
  unfold Table.rebuild_index. apply shrinks_bind; [by apply shrinks_frame|].
  intros []. apply shrinks_bind; [by apply shrinks_frame|]. intros self.
  apply shrinks_for_M. intros entry.
  apply shrinks_bind; [by apply shrinks_frame|]. intros v. by apply shrinks_frame.
Qed.

Lemma shrinks_delete condition : shrinks (Table.delete condition).
Proof.
  unfold Table.delete. apply shrinks_bind; [by apply shrinks_frame|]. intros self.
  apply shrinks_bind.
  - apply shrinks_for_M. intros entry. apply shrinks_bind.
    + destruct (truthy (Table.primary_key self)); [|by apply shrinks_frame].
      apply shrinks_bind; [by apply shrinks_frame|]. intros v.
      apply shrinks_index_del.
    + intros []. apply shrinks_bind; [apply shrinks_discard_unique_values|].
      intros []. apply shrinks_rows_del.
  - intros []. apply shrinks_bind.
    + destruct (truthy (Table.primary_key self)); [|by apply shrinks_frame].
      apply shrinks_rebuild_index.
    + intros []. by apply shrinks_frame.
Qed.

Lemma shrinks_delete_by_primary_key k : shrinks (Table.delete_by_primary_key k).
Proof.
  unfold Table.delete_by_primary_key.
  apply shrinks_bind; [by apply shrinks_frame|]. intros self.
  destruct (truthy (Table.primary_key self)); [|by apply shrinks_frame].
  destruct (Table.primary_key_index self !! key_of k); [|by apply shrinks_frame].
  apply shrinks_bind; [by apply shrinks_frame|]. intros row.
  apply shrinks_bind; [apply shrinks_discard_unique_values|]. intros [].
  apply shrinks_bind; [apply shrinks_index_del|]. intros [].
  apply shrinks_bind; [apply shrinks_rows_del|]. intros [].
  apply shrinks_bind; [apply shrinks_rebuild_index|]. intros [].
  by apply shrinks_frame.
Qed.

Lemma schema_kept_shrinks {A} (c : Table.M A) cols s :
  shrinks c -> schema_kept cols s -> schema_kept cols (c s).2.
Proof.
  intros Hc (Hcols & Hcomp & Hty). destruct (Hc s) as [H1 H2].
  split; [congruence|]. split.
  - intros row k Hrow Hk. apply Hcomp; [by apply H2|].
    unfold Table.column_names in *. by rewrite <- H1.
  - intros row col v Hrow Hcol. apply Hty; [by apply H2|]. by rewrite <- H1.
Qed.

Lemma schema_kept_rows cols s s' :
  Table.columns s' = Table.columns s ->
  (forall row, row ∈ Table.rows s' ->
     row ∈ Table.rows s
     \/ (forall c, c ∈ Table.column_names s -> is_Some (dict_get c row))
        /\ (forall col v, col ∈ Table.columns s ->
              dict_get (Column.name col) row = Some v ->
              is_none v = true \/ type_mismatch (Column.data_type col) v = false)) ->
  schema_kept cols s -> schema_kept cols s'.
Proof.
  intros Hc Hrows (Hcols & Hcomp & Hty). split; [congruence|]. split.
  - intros row k Hrow Hk. unfold Table.column_names in Hk. rewrite Hc in Hk.
    destruct (Hrows row Hrow) as [Hin|[H _]]; [by apply Hcomp|by apply H].
  - intros row col v Hrow Hcol Hget. rewrite Hc in Hcol.
    destruct (Hrows row Hrow) as [Hin|[_ H]]; [by eapply Hty|by eapply H].
Qed.

Lemma check_types_typed self row col v :
  Table.check_types self row = Returns tt ->
  col ∈ Table.columns self -> dict_get (Column.name col) row = Some v ->
  is_none v = true \/ type_mismatch (Column.data_type col) v = false.
Proof.
  unfold Table.check_types. rewrite for_each_Returns. intros Hall Hcol Hget.
  eapply Forall_forall in Hall; [|exact Hcol]. simpl in Hall. revert Hall.
  unfold mbind, outcome_bind, getitem. rewrite Hget.
  destruct (is_none v); [by left|]. unfold raise_if.
  destruct (type_mismatch _ v); [done|by right].
Qed.

Lemma schema_kept_insert cols row s :
  schema_kept cols s -> schema_kept cols (Table.insert row s).2.
Proof.
  intros Hk. destruct (Table.insert row s) as [[[]|e] s'] eqn:Hrun; simpl.
  2:{ pose proof (insert_Raises s row e) as H. rewrite Hrun in H. simpl in H.
      destruct (H eq_refl) as [_ ->]. done. }
  destruct (insert_rows row s s' Hrun) as (row' & Hv & Hrows).
  apply validate_row_Returns in Hv as (Hfill & Hty & _).
  apply (schema_kept_rows cols s); [| |done].
  - pose proof (insert_columns row s) as Hc. by rewrite Hrun in Hc.
  - intros r Hr. rewrite Hrows in Hr. apply elem_of_app in Hr as [Hr|Hr]; [by left|].
    apply list_elem_of_singleton in Hr. subst r. right. split.
    + intros c Hc. pose proof (fill_missing_spec s row) as Hspec.
      rewrite Hfill in Hspec. rewrite Hspec.
      destruct (dict_get c row); [done|].
      by rewrite (bool_decide_eq_true_2 _ Hc).
    + intros col v. by apply check_types_typed.
Qed.

Lemma index_del_columns k s :
  Table.columns (Table.index_del k s).2 = Table.columns s.
Proof. unfold Table.index_del. by destruct (_ !! _). Qed.

Lemma move_primary_key_columns updates old_row new_row row_index self :
  Table.columns (Table.move_primary_key updates old_row new_row row_index self).2
  = Table.columns self.
Proof.
  unfold Table.move_primary_key.
  apply bind_frame; [done|]. intros self0 self'.
  destruct (truthy _); [|done].
  frame. apply index_del_columns.
Qed.

Lemma move_unique_values_columns updates old_row new_row self :
  Table.columns (Table.move_unique_values updates old_row new_row self).2
  = Table.columns self.
Proof.
  unfold Table.move_unique_values.
  apply bind_frame; [done|]. intros self0 self'.
  apply for_M_frame. intros c self1. unfold Table.move_unique_value. frame.
Qed.

Lemma update_row_columns updates entry self :
  Table.columns (Table.update_row updates entry self).2 = Table.columns self.
Proof.
  destruct entry as [i old_row]. unfold Table.update_row.
  apply bind_frame; [done|]. intros self0 self1.
  apply bind_frame; [done|]. intros [] self2.
  apply bind_frame; [apply move_primary_key_columns|]. intros [] self3.
  apply bind_frame; [apply move_unique_values_columns|]. intros [] self4.
  unfold Table.rows_put. by case_bool_decide.
Qed.

Lemma update_row_Returns_types updates i old_row s s' :
  Table.update_row updates (i, old_row) s = (Returns tt, s') ->
  Table.check_updated_types s updates (dict_update old_row updates) = Returns tt.
Proof.
  unfold Table.update_row. rewrite bind_run. unfold Table.get at 1.
  rewrite bind_run. unfold Table.lift at 1.
  by destruct (Table.check_updated_types _ _ _) as [[]|e].
Qed.

Lemma dict_get_None_notin k d : dict_get k d = None -> k ∉ dict_keys d.
Proof.
  induction d as [|[k' v] d IH]; simpl; [intros _; apply not_elem_of_nil|].
  case_bool_decide as Hk; [done|]. intros H.
  apply not_elem_of_cons. split; [done|by apply IH].
Qed.

Lemma dict_set_keeps k c v d :
  is_Some (dict_get k d) -> is_Some (dict_get k (dict_set c v d)).
Proof.
  intros H. destruct (decide (c = k)) as [->|Hne].
  - by rewrite dict_get_set_eq.
  - by rewrite dict_get_set_ne.
Qed.

Lemma dict_update_keeps k u : forall d,
  is_Some (dict_get k d) -> is_Some (dict_get k (dict_update d u)).
Proof.
  induction u as [|[c w] u IH]; intros d H; [done|].
  rewrite dict_update_cons. apply IH. by apply dict_set_keeps.
Qed.

Lemma check_updated_types_typed self updates old_row col v :
  Table.check_updated_types self updates (dict_update old_row updates) = Returns tt ->
  col ∈ Table.columns self ->
  (forall w, dict_get (Column.name col) old_row = Some w ->
     is_none w = true \/ type_mismatch (Column.data_type col) w = false) ->
  dict_get (Column.name col) (dict_update old_row updates) = Some v ->
  is_none v = true \/ type_mismatch (Column.data_type col) v = false.
Proof.
  unfold Table.check_updated_types. rewrite for_each_Returns.
  intros Hall Hcol Hold Hget.
  eapply Forall_forall in Hall; [|exact Hcol]. simpl in Hall. revert Hall.
  unfold dict_has. destruct (dict_get (Column.name col) updates) as [w|] eqn:Eu.
  - unfold mbind, outcome_bind, getitem. rewrite Hget.
    destruct (is_none v); [by left|]. simpl. unfold raise_if.
    destruct (type_mismatch _ v); [done|by right].
  - intros _. apply Hold. rewrite <- Hget. symmetry.
    apply dict_update_get_notin. by apply dict_get_None_notin.
Qed.

Lemma list_elem_of_insert_inv {A} (l : list A) i x y :
  y ∈ <[i := x]> l -> y = x \/ y ∈ l.
Proof.
  intros H. apply list_elem_of_lookup in H as [j Hj].
  apply list_lookup_insert_Some in Hj as [(_ & -> & _)|[_ Hj]]; [by left|].
  right. by eapply list_elem_of_lookup_2.
Qed.

Lemma schema_kept_update_row cols updates i old_row s :
  old_row ∈ Table.rows s ->
  schema_kept cols s ->
  schema_kept cols (Table.update_row updates (i, old_row) s).2.
Proof.
  intros Hold Hk.
  pose proof (update_row_rows updates i old_row s) as Hrows.
  pose proof (update_row_columns updates (i, old_row) s) as Hcols.
  destruct (Table.update_row updates (i, old_row) s) as [[[]|e] s'] eqn:Hrun;
    simpl in *.
  2:{ apply (schema_kept_rows cols s); [done| |done].
      intros row Hrow. left. by rewrite <- Hrows. }
  destruct Hrows as [_ Hrows].
  pose proof (update_row_Returns_types _ _ _ _ _ Hrun) as Hty.
  destruct Hk as (Hc & Hcomp & Htyped).
  apply (schema_kept_rows cols s); [done| |done].
  intros row Hrow. rewrite Hrows in Hrow.
  apply list_elem_of_insert_inv in Hrow as [->|Hrow]; [right|by left]. split.
  - intros c Hcn. apply dict_update_keeps. by apply Hcomp.
  - intros col v Hcol. apply (check_updated_types_typed s); [done|done|].
    intros w. by apply Htyped.
Qed.

Lemma schema_kept_update cols updates condition s :
  schema_kept cols s -> schema_kept cols (Table.update updates condition s).2.
Proof.
  intros Hk. unfold Table.update. rewrite bind_run. unfold Table.get at 1.
  pose (P := fun t => schema_kept cols t
                      /\ forall row, row ∈ Table.rows s ->
                           (forall c, c ∈ Table.column_names s -> is_Some (dict_get c row))
                           /\ (forall col v, col ∈ Table.columns s ->
                                 dict_get (Column.name col) row = Some v ->
                                 is_none v = true
                                 \/ type_mismatch (Column.data_type col) v = false)).
  assert (P s) as HP.
  { split; [done|]. destruct Hk as (Hc & Hcomp & Hty). intros row Hrow. split.
    - intros c. by apply Hcomp.
    - intros col v. by apply Hty. }
  enough (P (Table.for_accM (Table.matching condition s)
               (fun entry (updated_count : nat) =>
                  _ ← Table.update_row updates entry;
                  mret (updated_count + 1)%nat) 0%nat s).2) as [H _] by done.
  apply for_accM_invariant; [|done].
  intros [i old_row] n t Hin [Ht Hs]. apply matching_elem in Hin as [Hi _].
  apply list_elem_of_lookup_2 in Hi.
  rewrite bind_run.
  pose proof (update_row_rows updates i old_row t) as Hrows.
  pose proof (update_row_columns updates (i, old_row) t) as Hcols.
  destruct (Table.update_row updates (i, old_row) t) as [[[]|e] t'] eqn:Hrun;
    simpl in *; (split; [|done]).
  2:{ apply (schema_kept_rows cols t); [done| |done].
      intros row Hrow. left. by rewrite <- Hrows. }
  destruct Hrows as [_ Hrows].
  pose proof (update_row_Returns_types _ _ _ _ _ Hrun) as Hty.
  assert (Table.columns t = Table.columns s) as Hts.
  { destruct Ht as [-> _]. by destruct Hk as [-> _]. }
  apply (schema_kept_rows cols t); [done| |done].
  intros row Hrow. rewrite Hrows in Hrow.
  apply list_elem_of_insert_inv in Hrow as [->|Hrow]; [right|by left].
  destruct (Hs old_row Hi) as [Hcomp Htyped]. split.
  - intros c Hcn. apply dict_update_keeps. apply Hcomp.
    unfold Table.column_names in *. by rewrite <- Hts.
  - intros col v Hcol. apply (check_updated_types_typed t); [done|done|].
    intros w. apply Htyped. by rewrite <- Hts.
Qed.

Lemma schema_kept_after cols c s : schema_kept cols s -> schema_kept cols (after c s).
Proof.
  intros Hk. destruct c as [row|updates condition|condition|k]; simpl.
  - by apply schema_kept_insert.
  - by apply schema_kept_update.
  - apply schema_kept_shrinks; [apply shrinks_delete|done].
  - apply schema_kept_shrinks; [apply shrinks_delete_by_primary_key|done].
Qed.

Lemma schema_kept_after_all cols calls : forall s,
  schema_kept cols s -> schema_kept cols (after_all calls s).
Proof.
  unfold after_all. induction calls as [|c calls IH]; intros s Hk; [done|].
  simpl. apply IH. by apply schema_kept_after.
Qed.

(** X11: whatever calls of [insert], [update], [delete] and
    [delete_by_primary_key] a new table has seen, and whichever of them
    raised, every stored row has every declared column, and every value
    under a declared column is [None] or passes the [isinstance] test of
    the column's type. *)
Theorem rows_stay_complete_and_typed
    (name : string) (columns : list Column.t) (calls : list call) :
  Table.columns (after_all calls (Table.new name columns)) = columns
  /\ rows_complete (after_all calls (Table.new name columns))
  /\ rows_typed (after_all calls (Table.new name columns)).
Proof.
  apply schema_kept_after_all. split; [done|]. split.
  - intros row c Hrow. by apply elem_of_nil in Hrow.
  - intros row col v Hrow. by apply elem_of_nil in Hrow.
Qed.

(** ** The primary-key index over sequences of calls *)

Lemma index_consistent_ext s1 s2 pk :
  Table.rows s1 = Table.rows s2 ->
  Table.primary_key_index s1 = Table.primary_key_index s2 ->
  index_consistent s1 pk -> index_consistent s2 pk.
Proof. unfold index_consistent. by intros -> ->. Qed.

(** The row at [i] gets a new key, and the index entry goes with it. *)
Lemma moved_index_consistent s pk i old new a b s' :
  index_consistent s pk ->
  Table.rows s !! i = Some old ->
  dict_get pk old = Some a -> dict_get pk new = Some b ->
  (key_of b = key_of a \/ Table.primary_key_index s !! key_of b = None) ->
  Table.rows s' = <[i := new]> (Table.rows s) ->
  Table.primary_key_index s'
  = <[key_of b := i]> (delete (key_of a) (Table.primary_key_index s)) ->
  index_consistent s' pk.
Proof.
  intros [Hrows Hidx] Hi Ha Hb Hfree Hr Hp.
  assert (Hia : Table.primary_key_index s !! key_of a = Some i).
  { destruct (Hrows i old Hi) as (v & Hv & Hk). congruence. }
  assert (Hlt : (i < length (Table.rows s))%nat) by (by eapply lookup_lt_Some).
  split.
  - intros j row Hj. rewrite Hr in Hj. rewrite Hp.
    apply list_lookup_insert_Some in Hj as [(<- & <- & _)|[Hne Hj]].
    + exists b. split; [done|]. apply lookup_insert_eq.
    + destruct (Hrows j row Hj) as (v & Hv & Hk). exists v. split; [done|].
      assert (key_of v <> key_of a) as Hva by (intros Heq; congruence).
      assert (key_of v <> key_of b) as Hvb.
      { intros Heq. destruct Hfree as [Hfree|Hfree]; congruence. }
      rewrite lookup_insert_ne by done. by rewrite lookup_delete_ne.
  - intros k j Hk. rewrite Hp in Hk. rewrite Hr.
    destruct (decide (key_of b = k)) as [<-|Hkb].
    + rewrite lookup_insert_eq in Hk. injection Hk as <-.
      exists new, b. split; [|done]. by apply list_lookup_insert_eq.
    + rewrite lookup_insert_ne in Hk by done.
      apply lookup_delete_Some in Hk as [Hka Hk].
      destruct (Hidx k j Hk) as (row & v & Hj & Hv & Hkv).
      exists row, v. split; [|done].
      rewrite list_lookup_insert_ne; [done|]. intros <-. congruence.
Qed.

(** The row at [i] is replaced by a row with the same key. *)
Lemma unmoved_index_consistent s pk i old new s' :
  index_consistent s pk ->
  Table.rows s !! i = Some old ->
  dict_get pk new = dict_get pk old ->
  Table.rows s' = <[i := new]> (Table.rows s) ->
  Table.primary_key_index s' = Table.primary_key_index s ->
  index_consistent s' pk.
Proof.
  intros [Hrows Hidx] Hi Hsame Hr Hp.
  assert (Hlt : (i < length (Table.rows s))%nat) by (by eapply lookup_lt_Some).
  split.
  - intros j row Hj. rewrite Hr in Hj. rewrite Hp.
    apply list_lookup_insert_Some in Hj as [(<- & <- & _)|[Hne Hj]].
    + rewrite Hsame. by apply (Hrows i old).
    + by apply Hrows.
  - intros k j Hk. rewrite Hp in Hk. rewrite Hr.
    destruct (Hidx k j Hk) as (row & v & Hj & Hv & Hkv).
    destruct (decide (i = j)) as [<-|Hne].
    + exists new, v. split; [by apply list_lookup_insert_eq|].
      split; [|done]. rewrite Hsame. congruence.
    + exists row, v. split; [|done]. by rewrite list_lookup_insert_ne.
Qed.

Lemma move_primary_key_run pk updates old new i t a b :
  truthy (Table.primary_key t) = Some pk ->
  dict_has pk updates = true ->
  dict_get pk old = Some a -> dict_get pk new = Some b ->
  is_Some (Table.primary_key_index t !! key_of a) ->
  Table.move_primary_key updates old new i t
  = if negb (py_eq b a)
       && bool_decide (is_Some (Table.primary_key_index t !! key_of b))
    then (Raises (ValueError (PrimaryKeyViolation b)), t)
    else (Returns tt,
          Table.set_primary_key_index
            (<[key_of b := i]> (delete (key_of a) (Table.primary_key_index t))) t).
Proof.
  intros Epk Hhas Ha Hb [j Hj]. unfold Table.move_primary_key.
  rewrite bind_run. unfold Table.get at 1. rewrite Epk, Hhas.
  rewrite bind_run. unfold Table.lift at 1, getitem at 1. rewrite Ha.
  rewrite bind_run. unfold Table.lift at 1, getitem at 1. rewrite Hb.
  rewrite bind_run. unfold Table.get at 1.
  rewrite bind_run. unfold Table.lift at 1, raise_if at 1.
  destruct (negb (py_eq b a) && _); [done|].
  rewrite bind_run. unfold Table.index_del at 1. rewrite Hj. done.
Qed.

Lemma move_primary_key_skip pk updates old new i t :
  truthy (Table.primary_key t) = Some pk ->
  dict_has pk updates = false ->
  Table.move_primary_key updates old new i t = (Returns tt, t).
Proof.
  intros Epk Hhas. unfold Table.move_primary_key.
  rewrite bind_run. unfold Table.get at 1. by rewrite Epk, Hhas.
Qed.

Lemma move_unique_values_index updates old_row new_row self :
  Table.primary_key_index (Table.move_unique_values updates old_row new_row self).2
  = Table.primary_key_index self.
Proof.
  unfold Table.move_unique_values.
  apply bind_frame; [done|]. intros self0 self'.
  apply for_M_frame. intros c self1. unfold Table.move_unique_value. frame.
Qed.

Lemma for_M_Raises {A} (Q : error -> Prop) (l : list A) (body : A -> Table.M unit) :
  (forall a s e s', a ∈ l -> body a s = (Raises e, s') -> Q e) ->
  forall s e s', Table.for_M l body s = (Raises e, s') -> Q e.
Proof.
  unfold Table.for_M. generalize tt.
  induction l as [|a l IH]; intros u Hbody s e s'; [done|].
  rewrite for_accM_cons.
  destruct (body a s) as [[u1|e1] s1] eqn:E.
  - apply IH. intros b t e' t' Hb. apply Hbody. by right.
  - intros [= <- <-]. eapply Hbody; [left|exact E].
Qed.

(** On rows that have the unique columns, the loop over the unique columns
    raises for a taken value and for nothing else. *)
Lemma move_unique_values_Raises updates old new s e s' :
  (forall c, c ∈ Table.unique_columns s ->
     is_Some (dict_get c old) /\ is_Some (dict_get c new)) ->
  Table.move_unique_values updates old new s = (Raises e, s') ->
  exists c, e = ValueError (UniqueViolation c).
Proof.
  intros Hall. unfold Table.move_unique_values.
  rewrite bind_run. unfold Table.get at 1.
  apply (for_M_Raises (fun e => exists c, e = ValueError (UniqueViolation c))).
  intros c t e0 t' Hc.
  destruct (Hall c Hc) as [[v Hv] [w Hw]].
  unfold Table.move_unique_value.
  destruct (dict_has c updates && Table.not_primary_key s c); [|done].
  rewrite bind_run. unfold Table.lift at 1, getitem at 1. rewrite Hv.
  rewrite bind_run. unfold Table.lift at 1, getitem at 1. rewrite Hw.
  destruct (negb (py_eq v w)); [|done].
  rewrite bind_run. unfold Table.get at 1.
  rewrite bind_run. unfold Table.lift at 1, raise_if at 1.
  destruct (negb (is_none w) && _).
  - intros [= <- <-]. by exists c.
  - rewrite bind_run.
    destruct (negb (is_none v)); destruct (negb (is_none w)); done.
Qed.

(** One turn of the loop of [update] on a row that is still the stored
    one. *)
Lemma update_row_index cols pk updates i old t :
  schema_kept cols t ->
  truthy (Table.primary_key t) = Some pk ->
  index_consistent t pk ->
  Table.rows t !! i = Some old ->
  match Table.update_row updates (i, old) t with
  | (Returns _, t') => index_consistent t' pk
  | (Raises e, t') =>
      index_consistent t' pk
      \/ (dict_has pk updates = true /\ exists c, e = ValueError (UniqueViolation c))
  end.
Proof.
  intros (Hcols & Hcomp & _) Epk Hcons Hi.
  assert (Hin : old ∈ Table.rows t) by (by eapply list_elem_of_lookup_2).
  assert (Hlt : (i < length (Table.rows t))%nat) by (by eapply lookup_lt_Some).
  assert (is_Some (dict_get pk old)) as [a Ha].
  { apply Hcomp; [done|]. by apply primary_key_declared, truthy_Some. }
  assert (is_Some (dict_get pk (dict_update old updates))) as [b Hb].
  { apply dict_update_keeps. by rewrite Ha. }
  assert (Hia : Table.primary_key_index t !! key_of a = Some i).
  { destruct (proj1 Hcons i old Hi) as (v & Hv & Hk). congruence. }
  assert (Hunique : forall s, Table.columns s = Table.columns t ->
            forall c, c ∈ Table.unique_columns s ->
              is_Some (dict_get c old)
              /\ is_Some (dict_get c (dict_update old updates))).
  { intros s Hs c Hc. rewrite (unique_columns_columns s t Hs) in Hc.
    assert (is_Some (dict_get c old)) as H.
    { apply Hcomp; [done|]. by apply unique_columns_declared. }
    split; [done|]. by apply dict_update_keeps. }
  unfold Table.update_row. rewrite bind_run. unfold Table.get at 1.
  rewrite bind_run. unfold Table.lift at 1.
  destruct (Table.check_updated_types t updates (dict_update old updates))
    as [[]|e]; [|by left].
  rewrite bind_run.
  destruct (dict_has pk updates) eqn:Ehas.
  - rewrite (move_primary_key_run pk updates old _ i t a b) by (by eauto).
    destruct (negb (py_eq b a) && _) eqn:Eraise; [by left|].
    set (t1 := Table.set_primary_key_index _ t).
    rewrite bind_run.
    pose proof (move_unique_values_rows updates old (dict_update old updates) t1) as Hr2.
    pose proof (move_unique_values_index updates old (dict_update old updates) t1) as Hp2.
    destruct (Table.move_unique_values updates old (dict_update old updates) t1)
      as [[[]|e] t2] eqn:Emu; simpl in Hr2, Hp2.
    + unfold Table.rows_put. rewrite Hr2. simpl.
      rewrite (bool_decide_eq_true_2 _ Hlt). simpl.
      apply (moved_index_consistent t pk i old (dict_update old updates) a b);
        try done.
      * apply andb_false_iff in Eraise as [E|E].
        -- left. apply py_eq_key. by destruct (py_eq b a).
        -- right. apply bool_decide_eq_false_1 in E.
           destruct (Table.primary_key_index t !! key_of b); [|done].
           exfalso. apply E. by eexists.
    + right. split; [done|].
      apply (move_unique_values_Raises updates old (dict_update old updates) t1 e t2);
        [|done].
      by apply Hunique.
  - rewrite (move_primary_key_skip pk) by done. rewrite bind_run.
    pose proof (move_unique_values_rows updates old (dict_update old updates) t) as Hr2.
    pose proof (move_unique_values_index updates old (dict_update old updates) t) as Hp2.
    destruct (Table.move_unique_values updates old (dict_update old updates) t)
      as [[[]|e] t2] eqn:Emu; simpl in Hr2, Hp2.
    + unfold Table.rows_put. rewrite Hr2.
      rewrite (bool_decide_eq_true_2 _ Hlt). simpl.
      apply (unmoved_index_consistent t pk i old (dict_update old updates));
        try done.
      apply dict_update_get_notin, dict_get_None_notin.
      unfold dict_has in Ehas. by destruct (dict_get pk updates).
    + left. by apply (index_consistent_ext t).
Qed.

Lemma update_row_primary_key updates entry t :
  Table.primary_key (Table.update_row updates entry t).2 = Table.primary_key t.
Proof. apply primary_key_columns, update_row_columns. Qed.

(** The loop of [update] over rows that are still the stored ones. *)
Lemma update_loop_index cols pk updates : forall entries count t,
  NoDup entries.*1 ->
  schema_kept cols t ->
  truthy (Table.primary_key t) = Some pk ->
  index_consistent t pk ->
  (forall i old, (i, old) ∈ entries -> Table.rows t !! i = Some old) ->
  match Table.for_accM entries (fun entry updated_count =>
          _ ← Table.update_row updates entry; mret (updated_count + 1)%nat)
          count t with
  | (Returns _, t') => index_consistent t' pk
  | (Raises e, t') =>
      index_consistent t' pk
      \/ (dict_has pk updates = true /\ exists c, e = ValueError (UniqueViolation c))
  end.
Proof.
  induction entries as [|[i old] entries IH]; intros count t Hnd Hk Epk Hcons Hsnap.
  - done.
  - rewrite for_accM_cons, bind_run.
    assert (Hi : Table.rows t !! i = Some old) by (apply Hsnap; left).
    pose proof (update_row_index cols pk updates i old t Hk Epk Hcons Hi) as Hrow.
    pose proof (update_row_rows updates i old t) as Hrows.
    pose proof (schema_kept_update_row cols updates i old t
                  (list_elem_of_lookup_2 _ _ _ Hi) Hk) as Hk'.
    pose proof (update_row_primary_key updates (i, old) t) as Hpk.
    destruct (Table.update_row updates (i, old) t) as [[[]|e] t'];
      simpl in Hk', Hpk; [|done].
    destruct Hrows as [_ Hrows]. unfold mret, Table.M_ret.
    simpl in Hnd. apply NoDup_cons in Hnd as [Hni Hnd].
    apply IH; try done.
    + by rewrite Hpk.
    + intros j old' Hin. rewrite Hrows, list_lookup_insert_ne.
      * apply Hsnap. by right.
      * intros ->. apply Hni. apply list_elem_of_fmap. by exists (j, old').
Qed.

Lemma after_primary_key cols c t :
  schema_kept cols t -> Table.primary_key (after c t) = Table.primary_key t.
Proof.
  intros Hk. apply primary_key_columns.
  destruct (schema_kept_after cols c t Hk) as [-> _]. by destruct Hk as [-> _].
Qed.

(** One call on a table with complete rows and a consistent index. *)
Lemma index_consistent_after cols pk c t :
  schema_kept cols t ->
  truthy (Table.primary_key t) = Some pk ->
  index_consistent t pk ->
  clashed c t = false ->
  index_consistent (after c t) pk.
Proof.
  intros Hk Epk Hcons Hfree.
  assert (Hunique : forall row c, row ∈ Table.rows t -> c ∈ Table.unique_columns t ->
                      is_Some (dict_get c row)).
  { intros row c' Hrow Hc. destruct Hk as (_ & Hcomp & _).
    apply Hcomp; [done|]. by apply unique_columns_declared. }
  destruct c as [row|updates condition|condition|k]; simpl in *.
  - by apply (insert_index_consistent t pk row).
  - rewrite Epk in Hfree.
    assert (Table.update updates condition t
            = Table.for_accM (Table.matching condition t)
                (fun entry updated_count =>
                   _ ← Table.update_row updates entry;
                   mret (updated_count + 1)%nat) 0%nat t) as Hupd by reflexivity.
    rewrite Hupd in *.
    pose proof (update_loop_index cols pk updates (Table.matching condition t)
                  0%nat t (matching_NoDup condition t) Hk Epk Hcons) as Hloop.
    destruct (Table.for_accM _ _ _ t) as [[n|e] t']; simpl in *.
    + apply Hloop. intros i old Hin. by apply matching_elem in Hin as [? _].
    + destruct Hloop as [H|[Hhas [c ->]]]; [|done|congruence].
      intros i old Hin. by apply matching_elem in Hin as [? _].
  - destruct (delete_run t condition Hunique) as (s' & -> & _ & _ & _ & Hp).
    + intros pk' Epk'. congruence.
    + simpl. rewrite Epk in Hp. by destruct Hp.
  - pose proof (delete_by_primary_key_consistent t pk k Epk Hcons Hunique) as H.
    destruct (Table.primary_key_index t !! key_of k).
    + destruct H as (s' & -> & _ & _ & H). done.
    + by rewrite H.
Qed.

Lemma index_consistent_after_all cols pk calls : forall t,
  schema_kept cols t ->
  truthy (Table.primary_key t) = Some pk ->
  index_consistent t pk ->
  clash_free calls t = true ->
  index_consistent (after_all calls t) pk.
Proof.
  unfold after_all. induction calls as [|c calls IH]; intros t Hk Epk Hcons Hfree.
  - done.
  - simpl in *. apply andb_true_iff in Hfree as [Hc Hfree].
    apply negb_true_iff in Hc. apply IH; try done.
    + by apply schema_kept_after.
    + by rewrite (after_primary_key cols).
    + by apply (index_consistent_after cols).
Qed.

(** ** The primary key: unique, and null unless flagged *)

Lemma dict_update_has k u : forall d,
  dict_has k u = true -> is_Some (dict_get k (dict_update d u)).
Proof.
  induction u as [|[c w] u IH]; intros d H; [done|].
  rewrite dict_update_cons. cbn [fst snd].
  unfold dict_has in H. simpl in H. case_bool_decide as Hc.
  - subst c. apply dict_update_keeps. rewrite dict_get_set_eq. by eexists.
  - apply IH. unfold dict_has. by destruct (dict_get k u).
Qed.

(** What the type check of a candidate row raises: the complaint about one
    of the columns that are assigned. *)
Lemma check_updated_types_Raises self updates old_row e :
  Table.check_updated_types self updates (dict_update old_row updates) = Raises e ->
  exists col,
    col ∈ Table.columns self /\ dict_has (Column.name col) updates = true
    /\ ((e = ValueError (CannotBeNull (Column.name col))
         /\ dict_get (Column.name col) (dict_update old_row updates) = Some VNone)
        \/ (e = ValueError (Expects (Column.name col) (Column.data_type col))
            /\ exists v, dict_get (Column.name col) (dict_update old_row updates)
                         = Some v /\ is_none v = false)).
Proof.
  unfold Table.check_updated_types. intros H.
  apply for_each_Raises in H as (col & Hin & Hbody). exists col. split; [done|].
  destruct (dict_has (Column.name col) updates) eqn:Ehas; [|done].
  split; [done|]. revert Hbody. unfold mbind, outcome_bind, getitem.
  destruct (dict_update_has (Column.name col) updates old_row Ehas) as [v Hv].
  rewrite Hv. destruct (is_none v) eqn:Hn; simpl; unfold raise_if.
  - destruct (Column.not_null col); [|done]. intros [= <-]. left.
    by destruct v.
  - destruct (type_mismatch _ _); [|done]. intros [= <-]. right.
    split; [done|]. by exists v.
Qed.

(** What [validate_row] raises for a row whose key is in the index. *)
Lemma validate_row_taken self pk row v :
  truthy (Table.primary_key self) = Some pk ->
  dict_get pk row = Some v ->
  is_Some (Table.primary_key_index self !! key_of v) ->
  exists e, Table.validate_row self row = Raises e
    /\ (e = ValueError (PrimaryKeyViolation v)
        \/ (exists c, e = ValueError (CannotBeNull c))
        \/ (exists c ty, e = ValueError (Expects c ty))).
Proof.
  intros Epk Hv Hin. unfold Table.validate_row.
  pose proof (fill_missing_spec self row) as Hfill.
  destruct (Table.fill_missing self row) as [r|e0].
  2:{ destruct Hfill as (col & _ & _ & _ & ->). eexists. split; [done|].
      right. left. by eexists. }
  unfold mbind at 1, outcome_bind at 1.
  destruct (Table.check_types self r) as [[]|e1] eqn:Ety.
  2:{ exists e1. split; [done|]. right. right.
      apply for_each_Raises in Ety as (col & Hcol & Hbody). revert Hbody.
      unfold mbind, outcome_bind, getitem.
      destruct (dict_get (Column.name col) r) as [w|] eqn:Eg.
      2:{ exfalso. rewrite Hfill in Eg.
          destruct (dict_get (Column.name col) row); [done|].
          rewrite bool_decide_eq_true_2 in Eg; [done|].
          by apply list_elem_of_fmap_2. }
      destruct (is_none w); [done|]. unfold raise_if.
      destruct (type_mismatch _ w); [|done]. intros [= <-]. by eexists _, _. }
  unfold mbind at 1, outcome_bind at 1.
  unfold Table.check_primary_key. rewrite Epk.
  unfold mbind at 1, outcome_bind at 1, getitem. rewrite Hfill, Hv.
  unfold mbind at 1, outcome_bind at 1. unfold raise_if.
  rewrite bool_decide_eq_true_2 by done.
  eexists. split; [done|]. by left.
Qed.

(** C6 (amended): the engine makes a primary-key column unique, and does not
    make it not-null.  Uniqueness: on a table that was new and has seen any
    calls, none of them an update that assigns the key and raised for a
    unique column, the index agrees with the rows; and where it does, no two
    stored rows have keys that are [==] or one object, [None] included, an
    insert of a row whose key a stored row has raises and changes nothing,
    and so does an update that assigns such a key to another row.  Null:
    where the key column leaves [not_null] unset, a row whose key is missing
    or [None] is accepted as soon as the null key is free and the row is
    accepted with some other key, and it is stored under the null key;
    where the key column sets [not_null], an insert without the key and an
    update that assigns [None] to it raise and leave the table unchanged. *)
Theorem primary_key_nullable_unless_flagged (self : Table.t) (pk : string) :
  truthy (Table.primary_key self) = Some pk ->
  (forall name columns calls,
     self = after_all calls (Table.new name columns) ->
     clash_free calls (Table.new name columns) = true ->
     index_consistent self pk)
  /\ (index_consistent self pk ->
      (forall i j ri rj vi vj,
         Table.rows self !! i = Some ri -> Table.rows self !! j = Some rj ->
         dict_get pk ri = Some vi -> dict_get pk rj = Some vj ->
         py_eq vi vj = true \/ vi = vj -> i = j)
      /\ (forall row v stored w,
            dict_get pk row = Some v ->
            stored ∈ Table.rows self -> dict_get pk stored = Some w ->
            py_eq v w = true \/ v = w ->
            exists e,
              Table.insert row self = (Raises e, self)
              /\ (e = ValueError (PrimaryKeyViolation v)
                  \/ (exists c, e = ValueError (CannotBeNull c))
                  \/ (exists c ty, e = ValueError (Expects c ty))))
      /\ (forall updates condition i old rest v j stored w,
            NoDup (dict_keys updates) ->
            dict_get pk updates = Some v ->
            Table.matching condition self = (i, old) :: rest ->
            Table.rows self !! j = Some stored -> j <> i ->
            dict_get pk stored = Some w ->
            py_eq v w = true \/ v = w ->
            exists e,
              Table.update updates condition self = (Raises e, self)
              /\ (e = ValueError (PrimaryKeyViolation v)
                  \/ (exists c, e = ValueError (CannotBeNull c))
                  \/ (exists c ty, e = ValueError (Expects c ty)))))
  /\ ((forall col, col ∈ Table.columns self -> Column.name col = pk ->
                   Column.not_null col = false) ->
      forall row row_v,
        agree_off pk row row_v ->
        (dict_has pk row = false \/ dict_get pk row = Some VNone) ->
        Table.primary_key_index self !! KNone = None ->
        (Table.insert row_v self).1 = Returns tt ->
        exists s' row',
          Table.insert row self = (Returns tt, s')
          /\ Table.rows s' = (Table.rows self ++ [row'])%list
          /\ dict_get pk row' = Some VNone
          /\ Table.primary_key_index s' !! KNone = Some (length (Table.rows self)))
  /\ (forall col, col ∈ Table.columns self -> Column.name col = pk ->
                  Column.not_null col = true ->
      (NoDup (Table.column_names self) ->
       forall row, dict_has pk row = false ->
         exists c, Table.insert row self = (Raises (ValueError (CannotBeNull c)), self))
      /\ (forall updates condition entry rest,
            NoDup (dict_keys updates) ->
            dict_get pk updates = Some VNone ->
            Table.matching condition self = entry :: rest ->
            exists e,
              Table.update updates condition self = (Raises e, self)
              /\ ((exists c, e = ValueError (CannotBeNull c))
                  \/ (exists c ty, e = ValueError (Expects c ty)))
              /\ (dict_keys updates = [pk] -> e = ValueError (CannotBeNull pk)))).
Proof.
  intros Epk. split; [|split; [|split]].
  - intros name columns calls -> Hfree.
    assert (schema_kept columns (Table.new name columns)) as Hk.
    { split; [done|]. split.
      - intros row c Hrow. by apply elem_of_nil in Hrow.
      - intros row col v Hrow. by apply elem_of_nil in Hrow. }
    apply (index_consistent_after_all columns);
      [done| |apply new_index_consistent|done].
    rewrite <- Epk. f_equal. symmetry. apply primary_key_columns.
    by destruct (schema_kept_after_all columns calls _ Hk) as [-> _].
  - intros [Hrows Hidx].
    assert (Hkey : forall v w, py_eq v w = true \/ v = w -> key_of v = key_of w).
    { intros v w [H| ->]; [by apply py_eq_key|done]. }
    split; [|split].
    + intros i j ri rj vi vj Hi Hj Hvi Hvj Heq.
      destruct (Hrows i ri Hi) as (vi' & Hvi' & Hki).
      destruct (Hrows j rj Hj) as (vj' & Hvj' & Hkj).
      assert (vi' = vi) as -> by congruence. assert (vj' = vj) as -> by congruence.
      rewrite (Hkey vi vj Heq) in Hki. congruence.
    + intros row v stored w Hv Hstored Hw Heq.
      apply list_elem_of_lookup in Hstored as [j Hj].
      destruct (Hrows j stored Hj) as (w' & Hw' & Hkj).
      assert (w' = w) as -> by congruence.
      destruct (validate_row_taken self pk row v Epk Hv) as (e & He & Hform).
      { rewrite (Hkey v w Heq). by eexists. }
      exists e. split; [by apply insert_raises|done].
    + intros updates condition i old rest v j stored w Hnd Hv Hm Hj Hji Hw Heq.
      assert (Table.rows self !! i = Some old) as Hi.
      { apply (matching_elem condition self i old). rewrite Hm. left. }
      destruct (Hrows i old Hi) as (u & Hu & Hki).
      destruct (Hrows j stored Hj) as (w' & Hw' & Hkj).
      assert (w' = w) as -> by congruence.
      unfold Table.update. rewrite bind_run. unfold Table.get at 1. rewrite Hm.
      rewrite for_accM_cons, bind_run.
      unfold Table.update_row. rewrite bind_run. unfold Table.get at 1.
      rewrite bind_run. unfold Table.lift at 1.
      destruct (Table.check_updated_types self updates (dict_update old updates))
        as [[]|e] eqn:Ety.
      2:{ exists e. split; [done|]. right.
          apply check_updated_types_Raises in Ety as (col & _ & _ & [[-> _]|[-> _]]).
          - left. by eexists.
          - right. by eexists _, _. }
      rewrite bind_run. unfold Table.move_primary_key.
      rewrite bind_run. unfold Table.get at 1. rewrite Epk.
      unfold dict_has. rewrite Hv.
      rewrite bind_run. unfold Table.lift at 1, getitem at 1. rewrite Hu.
      rewrite bind_run. unfold Table.lift at 1, getitem at 1.
      rewrite dict_update_get, Hv by done.
      rewrite bind_run. unfold Table.get at 1.
      rewrite bind_run. unfold Table.lift at 1, raise_if.
      assert (py_eq v u = false) as ->.
      { destruct (py_eq v u) eqn:E; [|done]. apply py_eq_key in E.
        rewrite (Hkey v w Heq) in E. rewrite <- E in Hki. congruence. }
      rewrite (Hkey v w Heq), bool_decide_eq_true_2 by by eexists. simpl.
      eexists. split; [done|]. by left.
  - intros Hflag row row_v Hag Hnull Hfree Hacc.
    destruct (Table.insert row_v self) as [o s_v] eqn:Hrun_v. simpl in Hacc. subst o.
    destruct (insert_rows row_v self s_v Hrun_v) as (r_v & Hv & _).
    destruct (validate_row_null self pk row row_v r_v Epk Hflag Hag Hnull Hfree Hv)
      as (r & Hvr & Hget).
    destruct (insert_returns self row r Hvr) as [s' Hrun].
    destruct (insert_index row self s' pk Hrun Epk)
      as (row' & v & Hv' & Hrows & Hget' & _ & Hidx).
    assert (row' = r) by congruence. subst row'.
    assert (v = VNone) by congruence. subst v.
    exists s', r. repeat (split; [done|]).
    rewrite Hidx. apply lookup_insert_eq.
  - intros col Hcol Hname Hnn. split.
    + intros Hnd row Hhas. rewrite <- Hname in Hhas.
      destruct (fill_missing_raises self col row Hnd Hcol Hnn Hhas) as [c Hc].
      exists c. apply insert_raises. unfold Table.validate_row.
      unfold mbind, outcome_bind. by rewrite Hc.
    + intros updates condition [i old] rest Hnd Hget Hm.
      pose proof Hget as Hget'. rewrite <- Hname in Hget'.
      destruct (update_null_raises self col updates condition (i, old) rest
                  Hcol Hnn Hnd Hget' Hm) as [e He].
      exists e. split; [done|].
      revert He. unfold Table.update. rewrite bind_run. unfold Table.get at 1.
      rewrite Hm, for_accM_cons, bind_run.
      unfold Table.update_row. rewrite bind_run. unfold Table.get at 1.
      rewrite bind_run. unfold Table.lift at 1.
      destruct (Table.check_updated_types self updates (dict_update old updates))
        as [[]|e0] eqn:Ety.
      { exfalso.
        unfold Table.check_updated_types in Ety. rewrite for_each_Returns in Ety.
        eapply Forall_forall in Ety; [|exact Hcol]. simpl in Ety. revert Ety.
        unfold dict_has. rewrite Hget'. unfold mbind, outcome_bind, getitem.
        rewrite dict_update_get, Hget' by done. simpl. by rewrite Hnn. }
      intros [= <-].
      apply check_updated_types_Raises in Ety as (col' & _ & Hhas' & Hform).
      split.
      * destruct Hform as [[-> _]|[-> _]]; [left; by eexists|right; by eexists _, _].
      * intros Hkeys.
        assert (Column.name col' = pk) as Hn'.
        { unfold dict_has in Hhas'.
          destruct (dict_get (Column.name col') updates) eqn:E; [|done].
          assert (Column.name col' ∈ dict_keys updates) as Hk.
          { destruct (decide (Column.name col' ∈ dict_keys updates)); [done|].
            by rewrite dict_get_notin in E. }
          rewrite Hkeys in Hk. by apply list_elem_of_singleton in Hk. }
        destruct Hform as [[-> _]|[_ (v & Hv & Hn)]]; [by rewrite Hn'|].
        rewrite Hn', dict_update_get, Hget in Hv by done. by injection Hv as <-.
Qed.

(** The theorem at the table [Scenario.keyed] and the empty row. *)
Lemma null_key_on_keyed :
  exists s' row',
    Table.insert [] keyed = (Returns tt, s')
    /\ Table.rows s' = (Table.rows keyed ++ [row'])%list
    /\ dict_get "id" row' = Some VNone
    /\ Table.primary_key_index s' !! KNone = Some (length (Table.rows keyed)).
Proof.
  apply (primary_key_nullable_unless_flagged keyed "id" eq_refl)
    with (row_v := [("id", VInt 1)]).
  - intros col Hcol _. vm_compute in Hcol.
    apply elem_of_cons in Hcol as [->|Hcol]; [done|]. by apply elem_of_nil in Hcol.
  - intros k' Hne. simpl. by rewrite bool_decide_eq_false_2.
  - by left.
  - reflexivity.
  - vm_compute. reflexivity.
Defined.

(** X12: on a table that was new and has seen any sequence of calls of
    [insert], [update], [delete] and [delete_by_primary_key], raising or
    not, the primary-key index agrees with the rows, and
    [get_by_primary_key] answers for every key that is no [nan] as a full
    scan does, provided no [update] that assigns the primary key raised for
    a unique column. *)
Theorem index_stays_consistent
    (name : string) (columns : list Column.t) (calls : list call) (pk : string) :
  truthy (Table.primary_key (Table.new name columns)) = Some pk ->
  clash_free calls (Table.new name columns) = true ->
  index_consistent (after_all calls (Table.new name columns)) pk
  /\ forall k, is_nan k = false ->
       Table.get_by_primary_key (after_all calls (Table.new name columns)) k
       = Returns (head (Table.select_where
                          (after_all calls (Table.new name columns)) (key_is pk k))).
Proof.
  intros Epk Hfree.
  assert (schema_kept columns (Table.new name columns)) as Hk.
  { split; [done|]. split.
    - intros row c Hrow. by apply elem_of_nil in Hrow.
    - intros row col v Hrow. by apply elem_of_nil in Hrow. }
  assert (index_consistent (after_all calls (Table.new name columns)) pk) as Hcons.
  { by apply (index_consistent_after_all columns). }
  split; [done|]. intros k Hnan.
  apply get_by_primary_key_scan; [|done|done].
  rewrite <- Epk. f_equal. apply primary_key_columns.
  by destruct (schema_kept_after_all columns calls _ Hk) as [-> _].
Qed.

(** The theorem at a table of users that has seen two inserts, an insert
    that raised, an update, an update that raised and a delete. *)
Lemma users_index_after_calls :
  index_consistent
    (after_all [Insert (user 1 "a@x.com" 30); Insert (user 2 "b@x.com" 25);
                Insert (user 2 "c@x.com" 41);
                Update [("id", VInt 7); ("age", VInt 31)] (id_is 1);
                Update [("id", VInt 2)] (id_is 7);
                Delete (id_is 2)]
       (Table.new "users" users_columns)) "id"
  /\ forall k, is_nan k = false ->
       Table.get_by_primary_key
         (after_all [Insert (user 1 "a@x.com" 30); Insert (user 2 "b@x.com" 25);
                     Insert (user 2 "c@x.com" 41);
                     Update [("id", VInt 7); ("age", VInt 31)] (id_is 1);
                     Update [("id", VInt 2)] (id_is 7);
                     Delete (id_is 2)]
            (Table.new "users" users_columns)) k
       = Returns (head (Table.select_where
                          (after_all [Insert (user 1 "a@x.com" 30);
                                      Insert (user 2 "b@x.com" 25);
                                      Insert (user 2 "c@x.com" 41);
                                      Update [("id", VInt 7); ("age", VInt 31)] (id_is 1);
                                      Update [("id", VInt 2)] (id_is 7);
                                      Delete (id_is 2)]
                             (Table.new "users" users_columns)) (key_is "id" k))).
Proof.
  apply (index_stays_consistent "users" users_columns).
  - reflexivity.
  - vm_compute. reflexivity.
Defined.

(** ** The projection list of a join *)

(** The nested-loop join with a projection list: the rows of the
    comprehension go through [filter_columns]. *)
Lemma inner_join_collect self ln rn lc rc left right select_columns :
  Database.get_table self ln = Returns left ->
  Database.get_table self rn = Returns right ->
  lc ∈ Table.column_names left -> rc ∈ Table.column_names right ->
  rows_complete left -> rows_complete right ->
  Database.inner_join self ln rn lc rc select_columns
  = Database.filter_columns select_columns
      (flat_map (fun l =>
         map (paired ln rn left right l)
           (List.filter (join_on lc rc l) (Table.rows right)))
         (Table.rows left)).
Proof.
  intros Hl Hr Hlc Hrc Hleft Hright. unfold Database.inner_join.
  rewrite (join_tables_Returns self ln rn lc rc left right) by done.
  unfold mbind at 1, outcome_bind at 1.
  rewrite (for_acc_collect
             (fun l => map (paired ln rn left right l)
                         (List.filter (join_on lc rc l) (Table.rows right)))).
  - done.
  - intros l acc Hin. apply scan_right_collect; try done.
    intros c Hc. by apply Hleft.
Qed.

Lemma flat_map_nil {A B} (g : A -> list B) (l : list A) :
  (forall a, a ∈ l -> g a = []) -> flat_map g l = [].
Proof.
  induction l as [|a l IH]; intros H; [done|].
  simpl. rewrite H by left. apply IH. intros b Hb. apply H. by right.
Qed.

(** X13: the names of a projection list are looked up in the joined rows,
    one row after the other, and nowhere else.  On tables whose rows have
    all their columns, a join that pairs no rows returns the empty list for
    every projection list, whatever names it holds; a join that pairs some
    rows raises 'not found in join result' for the first name of the list
    when the first joined row has no key of that name and no key that ends
    with a dot and that name. *)
Theorem join_projection_is_checked_on_the_rows
    (self : Database.t) (ln rn lc rc : string) (left right : Table.t) :
  Database.get_table self ln = Returns left ->
  Database.get_table self rn = Returns right ->
  lc ∈ Table.column_names left -> rc ∈ Table.column_names right ->
  rows_complete left -> rows_complete right ->
  ((forall l r, l ∈ Table.rows left -> r ∈ Table.rows right ->
      join_on lc rc l r = false) ->
   forall select_columns,
     Database.inner_join self ln rn lc rc select_columns = Returns [])
  /\ (forall row more c rest,
        Database.inner_join self ln rn lc rc None = Returns (row :: more) ->
        dict_get c row = None -> Database.find_suffix c row = None ->
        Database.inner_join self ln rn lc rc (Some (c :: rest))
        = Raises (ValueError (ColumnNotFoundInJoin c))).
Proof.
  intros Hl Hr Hlc Hrc Hleft Hright. split.
  - intros Hnone select_columns.
    rewrite (inner_join_collect self ln rn lc rc left right) by done.
    rewrite flat_map_nil.
    + by destruct select_columns as [[|c cols]|].
    + intros l Hin. rewrite filter_none; [done|].
      intros r Hrow. by apply Hnone.
  - intros row more c rest.
    rewrite !(inner_join_collect self ln rn lc rc left right) by done.
    cbn [Database.filter_columns]. intros [= ->] Hget Hsuf.
    simpl. by rewrite Hget, Hsuf.
Qed.

(** The theorem at the orders and the users of [Scenario.db]: the order is
    paired with its user, and [phone] is no column of either table. *)
Lemma phone_is_not_found_in_orders_with_users :
  ((forall l r, l ∈ Table.rows orders -> r ∈ Table.rows users ->
      join_on "user_id" "id" l r = false) ->
   forall select_columns,
     Database.inner_join db "orders" "users" "user_id" "id" select_columns
     = Returns [])
  /\ (forall row more c rest,
        Database.inner_join db "orders" "users" "user_id" "id" None
        = Returns (row :: more) ->
        dict_get c row = None -> Database.find_suffix c row = None ->
        Database.inner_join db "orders" "users" "user_id" "id" (Some (c :: rest))
        = Raises (ValueError (ColumnNotFoundInJoin c))).
Proof.
  apply (join_projection_is_checked_on_the_rows db "orders" "users" "user_id" "id"
           orders users).
  - vm_compute. reflexivity.
  - vm_compute. reflexivity.
  - vm_compute. right. left.
  - vm_compute. left.
  - apply orders_rows_complete.
  - intros row c. apply users_rows_complete.
Defined.

(** ** Rows that come from the shell *)

Lemma fold_set_get_notin k (l : list (Column.t * value)) : forall d,
  k ∉ map (fun cv => Column.name cv.1) l ->
  dict_get k (fold_left (fun row cv => dict_set (Column.name cv.1) cv.2 row) l d)
  = dict_get k d.
Proof.
  induction l as [|cv l IH]; intros d Hk; [done|].
  simpl in *. apply not_elem_of_cons in Hk as [Hne Hk].
  rewrite IH by done. by rewrite dict_get_set_ne.
Qed.

Lemma fold_set_get (l : list (Column.t * value)) : forall d i col v,
  NoDup (map (fun cv => Column.name cv.1) l) ->
  l !! i = Some (col, v) ->
  dict_get (Column.name col)
    (fold_left (fun row cv => dict_set (Column.name cv.1) cv.2 row) l d)
  = Some v.
Proof.
  induction l as [|cv l IH]; intros d i col v Hnd Hi; [done|].
  simpl in Hnd. apply NoDup_cons in Hnd as [Hnotin Hnd].
  destruct i as [|i]; simpl in *.
  - injection Hi as ->. simpl in *. rewrite fold_set_get_notin by done.
    apply dict_get_set_eq.
  - by apply (IH _ i).
Qed.

Lemma names_fst (l : list (Column.t * value)) :
  map (fun cv => Column.name cv.1) l = map Column.name l.*1.
Proof. induction l as [|cv l IH]; [done|]. simpl. by rewrite IH. Qed.

(** The row of the shell gives the i-th value under the name of the i-th
    column when no two columns share a name. *)
Lemma row_of_get columns values i col :
  length values = length columns ->
  NoDup (map Column.name columns) ->
  columns !! i = Some col ->
  dict_get (Column.name col) (REPL.row_of columns values) = values !! i.
Proof.
  intros Hlen Hnd Hi. unfold REPL.row_of.
  destruct (values !! i) as [v|] eqn:Hv.
  2:{ apply lookup_ge_None in Hv. apply lookup_lt_Some in Hi. lia. }
  apply (fold_set_get _ _ i).
  - rewrite names_fst, fst_zip by lia. done.
  - apply lookup_zip_with_Some. by exists col, v.
Qed.

(** The row of the shell has a value for every column. *)
Lemma row_of_has columns values c :
  length values = length columns ->
  c ∈ map Column.name columns ->
  is_Some (dict_get c (REPL.row_of columns values)).
Proof.
  intros Hlen. unfold REPL.row_of.
  rewrite <- (fst_zip columns values) at 1 by lia.
  generalize (zip columns values) (@nil (string * value)).
  intros l. induction l as [|cv l IH]; intros d Hc; [by inversion Hc|].
  simpl in *. apply elem_of_cons in Hc as [->|Hc].
  - destruct (decide (Column.name cv.1 ∈ map Column.name l.*1)) as [Hin|Hnotin].
    + by apply IH.
    + rewrite fold_set_get_notin.
      * rewrite dict_get_set_eq. by eexists.
      * by rewrite names_fst.
  - by apply IH.
Qed.

(** A row that has every column passes the first block of [validate_row]
    as it is. *)
Lemma fill_missing_present self row :
  (forall c, c ∈ Table.column_names self -> is_Some (dict_get c row)) ->
  Table.fill_missing self row = Returns row.
Proof.
  unfold Table.fill_missing, Table.column_names.
  generalize (Table.columns self). intros cs.
  induction cs as [|c cs IH]; intros Hall; [done|].
  rewrite for_acc_cons. cbv beta.
  replace (dict_has (Column.name c) row) with true.
  - apply IH. intros k Hk. apply Hall. simpl. by right.
  - symmetry. apply dict_has_true. apply Hall. simpl. left.
Qed.

(** [validate_row] on a row that has every column: the row comes back as
    it is, and what is raised is a type, a key or a uniqueness error. *)
Lemma validate_row_present self row :
  (forall c, c ∈ Table.column_names self -> is_Some (dict_get c row)) ->
  match Table.validate_row self row with
  | Returns r => r = row
  | Raises (ValueError (Expects _ _))
  | Raises (ValueError (PrimaryKeyViolation _))
  | Raises (ValueError (UniqueViolation _)) => True
  | Raises _ => False
  end.
Proof.
  intros Hall. unfold Table.validate_row.
  rewrite (fill_missing_present self row Hall).
  unfold mbind at 1, outcome_bind at 1.
  destruct (Table.check_types self row) as [[]|e1] eqn:Ety.
  2:{ unfold mbind, outcome_bind.
      apply for_each_Raises in Ety as (col & Hin & Hbody). revert Hbody.
      unfold mbind, outcome_bind, getitem.
      destruct (Hall (Column.name col)) as [v ->]; [by apply list_elem_of_fmap_2|].
      destruct (is_none v); [done|]. unfold raise_if.
      destruct (type_mismatch _ v); [|done]. by intros [= <-]. }
  unfold mbind at 1, outcome_bind at 1.
  destruct (Table.check_primary_key self row) as [[]|e2] eqn:Epkc.
  2:{ unfold mbind, outcome_bind. revert Epkc. unfold Table.check_primary_key.
      destruct (truthy (Table.primary_key self)) as [pk|] eqn:Epk; [|done].
      unfold mbind, outcome_bind, getitem.
      destruct (Hall pk) as [v ->]; [by apply primary_key_declared, truthy_Some|].
      unfold raise_if. case_bool_decide; [|done]. by intros [= <-]. }
  unfold mbind at 1, outcome_bind at 1.
  destruct (Table.check_unique self row) as [[]|e3] eqn:Eun; [done|].
  apply for_each_Raises in Eun as (c & Hin & Hbody). revert Hbody.
  destruct (Table.not_primary_key self c); [|done].
  unfold mbind, outcome_bind, getitem.
  destruct (Hall c) as [v ->]; [by apply unique_columns_declared|].
  unfold raise_if. destruct (negb (is_none v) && _); [|done]. by intros [= <-].
Qed.

(** X14: an [INSERT] of the shell gives every column of the table a value,
    so [handle_insert] never prints that a column 'cannot be null', also
    for a [NULL] in a column declared [NOT NULL], and never a [KeyError].
    When it prints 'Row inserted successfully.', the table has one more
    row, the last one, which is the row built from the values as it is; if
    no two columns share a name, this row has the i-th value under the
    name of the i-th column. *)
Theorem handle_insert_supplies_every_column
    (table_name : string) (values : list value) (db : Database.t) :
  (forall c, (REPL.handle_insert table_name values db).1
             <> REPL.ErrorInsertingData (ValueError (CannotBeNull c)))
  /\ (REPL.handle_insert table_name values db).1 <> REPL.ErrorInsertingData KeyError
  /\ ((REPL.handle_insert table_name values db).1 = REPL.RowInserted ->
      exists table table',
        Database.get_table db table_name = Returns table
        /\ Database.get_table (REPL.handle_insert table_name values db).2 table_name
           = Returns table'
        /\ Table.rows table'
           = (Table.rows table ++ [REPL.row_of (Table.columns table) values])%list
        /\ (NoDup (Table.column_names table) ->
            forall i col, Table.columns table !! i = Some col ->
              dict_get (Column.name col) (REPL.row_of (Table.columns table) values)
              = values !! i)).
Proof.
  unfold REPL.handle_insert, Database.on_table.
  destruct (Database.get_table db table_name) as [table|e] eqn:Hget.
  2:{ unfold Database.get_table in Hget.
      destruct (Database.tables db !! table_name); [done|].
      injection Hget as <-. done. }
  case_bool_decide as Hlen; [done|].
  assert (length values = length (Table.columns table)) as Hlen'.
  { destruct (decide (length values = length (Table.columns table))); done. }
  set (row := REPL.row_of (Table.columns table) values).
  assert (forall c, c ∈ Table.column_names table -> is_Some (dict_get c row)) as Hall.
  { intros c Hc. by apply row_of_has. }
  pose proof (validate_row_present table row Hall) as Hv.
  destruct (Table.insert row table) as [[[]|e] table'] eqn:Hins.
  - simpl. split; [done|]. split; [done|]. intros _. exists table, table'.
    split; [done|]. split.
    { unfold Database.get_table. simpl. by rewrite lookup_insert_eq. }
    destruct (insert_rows row table table' Hins) as (row' & Hrow' & Hrows).
    rewrite Hrow' in Hv. subst row'. split; [done|].
    intros Hnd i col Hi. by apply row_of_get.
  - simpl. assert ((Table.insert row table).1 = Raises e) as H by by rewrite Hins.
    apply insert_Raises in H as [H _]. rewrite H in Hv.
    split; [|split; [|done]].
    + intros c [= ->]. done.
    + intros [= ->]. done.
Qed.

(** [INSERT INTO users VALUES (NULL, 'c@x.com', 20)]: the key column is
    declared [NOT NULL], and the row is stored. *)
Example null_key_through_the_shell :
  (REPL.handle_insert "users" [VNone; VStr "c@x.com"; VInt 20] db).1
  = REPL.RowInserted.
Proof. vm_compute. reflexivity. Qed.

(** ** Unqualified names in the projection list of a join *)

Lemma append_cons a s t : String a s ++ t = String a (s ++ t).
Proof. reflexivity. Qed.

Lemma substring_all s : substring 0 (String.length s) s = s.
Proof. induction s as [|a s IH]; [done|]. simpl. by rewrite IH. Qed.

Lemma substring_suffix a s :
  substring (String.length a) (String.length s) (a ++ s) = s.
Proof. induction a as [|x a IH]; [apply substring_all|]. simpl. apply IH. Qed.

Lemma string_length_app a s :
  String.length (a ++ s) = (String.length a + String.length s)%nat.
Proof. induction a as [|x a IH]; [done|]. simpl. by rewrite IH. Qed.

Lemma endswith_app a s : endswith (a ++ s) s = true.
Proof.
  unfold endswith. rewrite string_length_app.
  rewrite bool_decide_eq_true_2 by lia.
  replace (String.length a + String.length s - String.length s)%nat
    with (String.length a) by lia.
  rewrite substring_suffix. by rewrite bool_decide_eq_true_2.
Qed.

Lemma substring_split n : forall s,
  (n <= String.length s)%nat ->
  s = substring 0 n s ++ substring n (String.length s - n) s.
Proof.
  induction n as [|n IH]; intros s Hn.
  - rewrite Nat.sub_0_r, substring_all. by destruct s.
  - destruct s as [|a s]; simpl in *; [lia|].
    rewrite append_cons. f_equal. apply IH. lia.
Qed.

Lemma endswith_inv key s : endswith key s = true -> exists a, key = a ++ s.
Proof.
  unfold endswith. intros H. apply andb_true_iff in H as [Hle Hsub].
  apply bool_decide_eq_true in Hle. apply bool_decide_eq_true in Hsub.
  exists (substring 0 (String.length key - String.length s) key).
  pose proof (substring_split (String.length key - String.length s) key) as H.
  replace (String.length key - (String.length key - String.length s))%nat
    with (String.length s) in H by lia.
  rewrite Hsub in H. apply H. lia.
Qed.

Lemma append_nil s : EmptyString ++ s = s.
Proof. reflexivity. Qed.

Lemma has_dot_app a s : has_dot (a ++ String "." s) = true.
Proof.
  induction a as [|x a IH]; [done|].
  rewrite append_cons. simpl. rewrite IH. apply orb_true_r.
Qed.

Lemma has_dot_qualified table_name col : has_dot (qualified table_name col) = true.
Proof. apply has_dot_app. Qed.

(** What follows the last dot of a string *)
Lemma after_last_dot x : forall a c c',
  has_dot c = false -> has_dot c' = false ->
  x ++ String "." c' = a ++ String "." c -> c' = c.
Proof.
  induction x as [|y x IH]; intros a c c' Hc Hc' Heq.
  - destruct a as [|b a]; rewrite ?append_cons, ?append_nil in Heq.
    + by injection Heq.
    + injection Heq as _ Heq. rewrite Heq, has_dot_app in Hc'. done.
  - destruct a as [|b a]; rewrite ?append_cons, ?append_nil in Heq.
    + injection Heq as _ Heq. rewrite <- Heq, has_dot_app in Hc. done.
    + injection Heq as _ Heq. by apply (IH a).
Qed.

(** A qualified name ends with a dot and [c] when its column is [c]. *)
Lemma endswith_qualified table_name c c' :
  has_dot c = false -> has_dot c' = false ->
  endswith (qualified table_name c') ("." ++ c) = bool_decide (c' = c).
Proof.
  intros Hc Hc'. case_bool_decide as Heq.
  - subst c'. apply endswith_app.
  - apply not_true_is_false. intros H. apply endswith_inv in H as [a Ha].
    apply Heq. by apply (after_last_dot table_name a).
Qed.

(** The inner loop finds the entry of the first key with the suffix. *)
Lemma find_suffix_first c row :
  Database.find_suffix c row
  = match List.find (fun key => endswith key ("." ++ c)) (dict_keys row) with
    | Some key => dict_get key row
    | None => None
    end.
Proof.
  induction row as [|[key v] row IH]; [done|].
  simpl. destruct (endswith key ("." ++ c)) eqn:E.
  - by rewrite bool_decide_eq_true_2.
  - rewrite IH. destruct (List.find _ (dict_keys row)) as [k|] eqn:Ek; [|done].
    case_bool_decide as Hk; [|done]. subst k.
    apply find_some in Ek as [_ Ek]. congruence.
Qed.

Lemma dict_keys_set k v d :
  dict_keys (dict_set k v d)
  = if bool_decide (k ∈ dict_keys d) then dict_keys d else (dict_keys d ++ [k])%list.
Proof.
  induction d as [|[k' v'] d IH]; [done|].
  simpl. destruct (decide (k' = k)) as [->|Hne].
  - rewrite (bool_decide_eq_true_2 (k = k)) by done. simpl.
    rewrite bool_decide_eq_true_2; [done|left].
  - rewrite (bool_decide_eq_false_2 (k' = k)) by done. simpl.
    rewrite IH. destruct (decide (k ∈ dict_keys d)) as [Hin|Hin].
    + rewrite !bool_decide_eq_true_2; [done|by right|done].
    + rewrite !bool_decide_eq_false_2; [done| |done].
      intros H. apply elem_of_cons in H as [->|H]; done.
Qed.

Lemma find_app {A} (P : A -> bool) l1 l2 :
  List.find P (l1 ++ l2)
  = match List.find P l1 with Some a => Some a | None => List.find P l2 end.
Proof. induction l1 as [|a l1 IH]; [done|]. simpl. by destruct (P a). Qed.

Lemma find_None_elem {A} (P : A -> bool) l a :
  List.find P l = None -> a ∈ l -> P a = false.
Proof.
  intros H Ha. apply list_elem_of_In in Ha.
  by apply (find_none P l H).
Qed.

(** The first key of an updated dictionary that meets a test *)
Lemma find_dict_update (P : string -> bool) u : forall d,
  List.find P (dict_keys (dict_update d u))
  = match List.find P (dict_keys d) with
    | Some k => Some k
    | None => List.find P (map fst u)
    end.
Proof.
  induction u as [|[k v] u IH]; intros d.
  - simpl. by destruct (List.find P (dict_keys d)).
  - rewrite dict_update_cons, IH. cbn [fst snd]. rewrite dict_keys_set.
    case_bool_decide as Hin.
    + destruct (List.find P (dict_keys d)) eqn:Ef; [done|].
      simpl. by rewrite (find_None_elem P _ k Ef Hin).
    + rewrite find_app. destruct (List.find P (dict_keys d)); [done|].
      simpl. by destruct (P k).
Qed.

Lemma find_qualified table_name c names row :
  has_dot c = false -> (forall c', c' ∈ names -> has_dot c' = false) ->
  List.find (fun key => endswith key ("." ++ c))
    (map fst (qualified_items table_name names row))
  = if bool_decide (c ∈ names) then Some (qualified table_name c) else None.
Proof.
  intros Hc. induction names as [|c' names IH]; intros Hnames; [done|].
  simpl. rewrite endswith_qualified; [|done|apply Hnames; left].
  destruct (decide (c' = c)) as [->|Hne].
  - rewrite (bool_decide_eq_true_2 (c = c)) by done.
    rewrite bool_decide_eq_true_2; [done|left].
  - rewrite (bool_decide_eq_false_2 (c' = c)) by done. rewrite IH.
    + rewrite (bool_decide_ext (c ∈ names) (c ∈ c' :: names)); [done|].
      rewrite elem_of_cons. split; [by right|]. by intros [->|H].
    + intros c0 H0. apply Hnames. by right.
Qed.

Lemma dict_keys_update k u : forall d,
  k ∈ dict_keys (dict_update d u) -> k ∈ dict_keys d \/ k ∈ map fst u.
Proof.
  induction u as [|[k' v] u IH]; intros d Hk; [by left|].
  rewrite dict_update_cons in Hk. apply IH in Hk as [Hk|Hk].
  - cbn [fst snd] in Hk. rewrite dict_keys_set in Hk. case_bool_decide.
    + by left.
    + apply elem_of_app in Hk as [Hk|Hk]; [by left|].
      apply list_elem_of_singleton in Hk as ->. right. left.
  - right. simpl. by right.
Qed.

(** Every key of a joined row has a dot. *)
Lemma paired_keys_have_dots ln rn left right l r k :
  k ∈ dict_keys (paired ln rn left right l r) -> has_dot k = true.
Proof.
  unfold paired, dict_of. intros H. apply dict_keys_update in H as [H|H].
  - by apply elem_of_nil in H.
  - rewrite map_app in H. unfold qualified_items in H. rewrite !map_map in H.
    apply elem_of_app in H as [H|H];
      apply list_elem_of_fmap in H as (c & -> & _); apply has_dot_qualified.
Qed.

(** The entry of a joined row an unqualified name is resolved to. *)
Lemma find_suffix_paired ln rn left right l r c :
  (forall c', c' ∈ Table.column_names left -> has_dot c' = false) ->
  (forall c', c' ∈ Table.column_names right -> has_dot c' = false) ->
  has_dot c = false ->
  c ∈ Table.column_names left \/ c ∈ Table.column_names right ->
  dict_get c (paired ln rn left right l r) = None
  /\ exists v,
       dict_get (unqualified ln rn left c) (paired ln rn left right l r) = Some v
       /\ Database.find_suffix c (paired ln rn left right l r) = Some v.
Proof.
  intros Hleft Hright Hc Hin. split.
  { apply dict_get_notin. intros Hk. apply paired_keys_have_dots in Hk. congruence. }
  rewrite find_suffix_first.
  assert (List.find (fun key => endswith key ("." ++ c))
            (dict_keys (paired ln rn left right l r))
          = Some (unqualified ln rn left c)) as Hfind.
  { unfold paired, dict_of. rewrite find_dict_update. simpl.
    rewrite map_app, find_app, !find_qualified by done.
    unfold unqualified. case_bool_decide as Hl; [done|].
    rewrite bool_decide_eq_true_2; [done|]. by destruct Hin. }
  rewrite Hfind. apply find_some in Hfind as [Hk _].
  apply list_elem_of_In in Hk.
  destruct (dict_get (unqualified ln rn left c) (paired ln rn left right l r))
    as [v|] eqn:Hv.
  - by exists v.
  - apply dict_get_None_notin in Hv. done.
Qed.

(** The projection loops, when every name resolves in every row. *)
Lemma filter_columns_map (f : string -> pydict -> value) cols result :
  cols <> [] ->
  (forall row c, row ∈ result -> c ∈ cols ->
     match dict_get c row with
     | Some v => Some v
     | None => Database.find_suffix c row
     end = Some (f c row)) ->
  Database.filter_columns (Some cols) result
  = Returns (map (fun row => dict_of (map (fun c => (c, f c row)) cols)) result).
Proof.
  intros Hne Hall. unfold Database.filter_columns.
  destruct cols as [|c0 cols0] eqn:Ecols; [done|]. rewrite <- Ecols in *. clear Hne.
  rewrite (for_acc_collect
             (fun row => [dict_of (map (fun c => (c, f c row)) cols)])).
  - simpl. by f_equal.
  - intros row acc Hrow.
    assert (forall cs d, (forall c, c ∈ cs -> c ∈ cols) ->
              for_acc cs (fun col filtered_row =>
                match dict_get col row with
                | Some v => Returns (dict_set col v filtered_row)
                | None =>
                    match Database.find_suffix col row with
                    | Some v => Returns (dict_set col v filtered_row)
                    | None => Raises (ValueError (ColumnNotFoundInJoin col))
                    end
                end) d
              = Returns (dict_update d (map (fun c => (c, f c row)) cs))) as Hloop.
    { induction cs as [|c cs IH]; intros d Hcs; [done|].
      rewrite for_acc_cons. specialize (Hall row c Hrow (Hcs c ltac:(left))).
      simpl map. rewrite dict_update_cons. cbn [fst snd].
      destruct (dict_get c row) as [v|].
      - injection Hall as ->. apply IH. intros c1 H1. apply Hcs. by right.
      - rewrite Hall. apply IH. intros c1 H1. apply Hcs. by right. }
    by rewrite Hloop.
Qed.

(** X15: unqualified names in the projection list of a join.  On two
    registered tables whose rows have all their columns and whose column
    names have no dot, [inner_join] with a non-empty list of names that are
    columns of the left or the right table raises nothing and returns the
    joined rows in the order of the join without projection, each cut down
    to the names of the list: a name that is a column of the left table
    gets the entry [left.name] of the joined row, also when the right table
    has a column of that name, and any other name the entry
    [right.name]. *)
Theorem unqualified_names_resolve_left_first
    (self : Database.t) (ln rn lc rc : string) (left right : Table.t)
    (cols : list string) :
  Database.get_table self ln = Returns left ->
  Database.get_table self rn = Returns right ->
  lc ∈ Table.column_names left -> rc ∈ Table.column_names right ->
  rows_complete left -> rows_complete right ->
  (forall c, c ∈ (Table.column_names left ++ Table.column_names right)%list ->
     has_dot c = false) ->
  cols <> [] ->
  (forall c, c ∈ cols -> c ∈ (Table.column_names left ++ Table.column_names right)%list) ->
  Database.inner_join self ln rn lc rc (Some cols)
  = Returns (map (projected ln rn left cols)
               (flat_map (fun l =>
                  map (paired ln rn left right l)
                    (List.filter (join_on lc rc l) (Table.rows right)))
                  (Table.rows left))).
Proof.
  intros Hl Hr Hlc Hrc Hleft Hright Hdots Hne Hcols.
  rewrite (inner_join_collect self ln rn lc rc left right) by done.
  apply (filter_columns_map
           (fun c row => default VNone (dict_get (unqualified ln rn left c) row))).
  { done. }
  intros row c Hrow Hc.
  apply list_elem_of_In, in_flat_map in Hrow as (l & _ & Hrow).
  apply in_map_iff in Hrow as (r & <- & _).
  destruct (find_suffix_paired ln rn left right l r c) as (Hget & v & Hv & Hsuf).
  - intros c' H'. apply Hdots, elem_of_app. by left.
  - intros c' H'. apply Hdots, elem_of_app. by right.
  - by apply Hdots, Hcols.
  - by apply elem_of_app, Hcols.
  - by rewrite Hget, Hsuf, Hv.
Qed.

(** The theorem at the orders and the users of [Scenario.db], for the names
    [id], which both tables have, and [email]. *)
Lemma id_of_orders_with_users :
  Database.inner_join db "orders" "users" "user_id" "id" (Some ["id"; "email"])
  = Returns (map (projected "orders" "users" orders ["id"; "email"])
               (flat_map (fun l =>
                  map (paired "orders" "users" orders users l)
                    (List.filter (join_on "user_id" "id" l) (Table.rows users)))
                  (Table.rows orders))).
Proof.
  apply (unqualified_names_resolve_left_first db "orders" "users" "user_id" "id"
           orders users ["id"; "email"]).
  - vm_compute. reflexivity.
  - vm_compute. reflexivity.
  - vm_compute. right. left.
  - vm_compute. left.
  - apply orders_rows_complete.
  - intros row c. apply users_rows_complete.
  - intros c Hc. vm_compute in Hc.
    repeat (apply elem_of_cons in Hc as [->|Hc]); try reflexivity.
    by apply elem_of_nil in Hc.
  - done.
  - intros c Hc. vm_compute.
    repeat (apply elem_of_cons in Hc as [->|Hc]).
    + left.
    + right. right. right. left.
    + by apply elem_of_nil in Hc.
Defined.

(** ** The states an interrupted update leaves behind *)

(** C3: in [Scenario.clashing_update] the candidate of the matched row fails
    its uniqueness check, and by then the primary-key index has been moved
    from key 1 to key 9 although the stored row is the old one. *)
Theorem update_moves_key_before_unique_check :
  (clashing_update users).1 = Raises (ValueError (UniqueViolation "email"))
  /\ Table.rows (clashing_update users).2 = Table.rows users
  /\ Table.primary_key_index users !! key_of (VInt 1) = Some 0%nat
  /\ Table.primary_key_index (clashing_update users).2 !! key_of (VInt 1) = None
  /\ Table.primary_key_index (clashing_update users).2 !! key_of (VInt 9) = Some 0%nat.
Proof. repeat split; vm_compute; reflexivity. Qed.

(** C2: after the update of [Scenario.clashing_update] has raised, the
    primary-key index disagrees with the rows: key 1 is held by a stored row
    and not found by [get_by_primary_key], key 9 is found and held by none. *)
Theorem index_disagrees_with_rows_after_clash :
  (clashing_update users).1 = Raises (ValueError (UniqueViolation "email"))
  /\ Table.select_where (clashing_update users).2 (id_is 1) = [user 1 "a@x.com" 30]
  /\ Table.get_by_primary_key (clashing_update users).2 (VInt 1) = Returns None
  /\ Table.select_where (clashing_update users).2 (id_is 9) = []
  /\ Table.get_by_primary_key (clashing_update users).2 (VInt 9)
     = Returns (Some (user 1 "a@x.com" 30)).
Proof. repeat split; vm_compute; reflexivity. Qed.

(** C1: on the database in which [Scenario.clashing_update] has raised, the
    nested-loop join pairs the order with its user and the indexed join
    returns no row. *)
Theorem joins_differ_after_clash :
  Database.inner_join db_after_clash "orders" "users" "user_id" "id" None
  = Returns [[("orders.id", VInt 100); ("orders.user_id", VInt 1);
              ("users.id", VInt 1); ("users.email", VStr "a@x.com");
              ("users.age", VInt 30)]]
  /\ Database.inner_join_optimized db_after_clash "orders" "users" "user_id" "id" None
     = Returns [].
Proof. split; vm_compute; reflexivity. Qed.

(** C7: a Boolean value supplied for an [INT] column passes the type check
    and is stored. *)
Theorem insert_accepts_bool_for_int :
  (Table.insert [("n", VBool true)] counters).1 = Returns tt
  /\ Table.rows (Table.insert [("n", VBool true)] counters).2 = [[("n", VBool true)]].
Proof. split; vm_compute; reflexivity. Qed.

(** ** Where the code departs from the specification by design *)

(** C4, counterexample: the first matched row fails, [update] raises and
    returns no count, and the second matched row, which the same update
    changes when it is selected alone, is left as it was. *)
Lemma update_aborts_batch :
  (batch_update users).1 = Raises (ValueError (UniqueViolation "email"))
  /\ Table.rows (batch_update users).2 = Table.rows users
  /\ (Table.update [("email", VStr "b@x.com"); ("age", VInt 7)] (id_is 2) users).1
     = Returns 1%nat
  /\ Table.rows
       (Table.update [("email", VStr "b@x.com"); ("age", VInt 7)] (id_is 2) users).2
     = [user 1 "a@x.com" 30; user 2 "b@x.com" 7].
Proof. repeat split; vm_compute; reflexivity. Qed.


(** C6, counterexample: a table whose primary-key column leaves [not_null]
    unset accepts a row without a key and stores it under the null key. *)
Lemma insert_accepts_null_primary_key :
  Table.primary_key keyed = Some "id"
  /\ (Table.insert [] keyed).1 = Returns tt
  /\ Table.rows (Table.insert [] keyed).2 = [[("id", VNone)]]
  /\ Table.primary_key_index (Table.insert [] keyed).2 !! KNone = Some 0%nat.
Proof. repeat split; vm_compute; reflexivity. Qed.

(** C8, counterexample: assigning to a key of a row returned by [select_all]
    changes the row the table stores. *)
Lemma select_all_rows_are_aliases :
  Objects.stored_rows one_row_store one_row_table = [[("id", VInt 1)]]
  /\ Objects.stored_rows
       (Objects.row_setitem (Objects.select_all one_row_table one_row_store).1
          0 "id" (VInt 99) (Objects.select_all one_row_table one_row_store).2)
       one_row_table
     = [[("id", VInt 99)]].
Proof. split; vm_compute; reflexivity. Qed.

